(** * Prompt assembly of src/data/dataloader.py

    A shallow embedding of the prompt loaders (the five dataset adapters,
    [PromptLoader], and the record transforms at the end of the module)
    together with the properties of the specification that they decide. *)

From Stdlib Require Import ZArith String Ascii List Lia.
From stdpp Require Import base option list gmap strings fin_maps.

(** ** Values, exceptions and results *)

(** The values a dataset cell or a dict entry can hold: strings, integers,
    lists and nested dicts (the [summary] feature of wiki_cat_sum). *)
Local Unset Elimination Schemes.
Inductive value : Type :=
  | VStr (s : string)
  | VInt (n : Z)
  | VList (l : list value)
  | VDict (d : gmap string value).
Local Set Elimination Schemes.

(** The Python exceptions the module can raise.  A [KeyError] carries the
    key that was looked up, the two name errors the name that was not
    found. *)
Inductive exn : Type :=
  | ValueError
  | IndexError
  | TypeError
  | KeyError (key : value)
  | AttributeError (attr : string)
  | NameError (name : string).

Inductive result (A : Type) : Type :=
  | Ok (a : A)
  | Err (e : exn).
Arguments Ok {A} a.
Arguments Err {A} e.

#[global] Instance result_ret : MRet result := @Ok.
#[global] Instance result_bind : MBind result :=
  fun A B f m => match m with Ok a => f a | Err e => Err e end.
#[global] Instance result_fmap : FMap result :=
  fun A B f m => match m with Ok a => Ok (f a) | Err e => Err e end.

(** [for x in xs] with a body that may raise: the first exception aborts
    the whole loop or comprehension. *)
Fixpoint for_each {A B : Type} (f : A -> result B) (xs : list A)
  : result (list B) :=
  match xs with
  | [] => Ok []
  | x :: xs' => y ← f x; ys ← for_each f xs'; Ok (y :: ys)
  end.

(** ** Python strings *)

(** The line feed, written ["\n"] in the source. *)
Definition nl : string := String (ascii_of_nat 10) "".

(** [sep.join(parts)] *)
Fixpoint join (sep : string) (parts : list string) : string :=
  match parts with
  | [] => ""
  | [p] => p
  | p :: ps => p +:+ sep +:+ join sep ps
  end.

(** [s.removeprefix(p)] when [s.startswith(p)] *)
Fixpoint strip_prefix (p s : string) : option string :=
  match p, s with
  | "", _ => Some s
  | String a p', String b s' =>
      if Ascii.eqb a b then strip_prefix p' s' else None
  | String _ _, "" => None
  end.

(** [sub in s] *)
Fixpoint contains (sub s : string) : bool :=
  match strip_prefix sub s with
  | Some _ => true
  | None =>
      match s with
      | "" => false
      | String _ s' => contains sub s'
      end
  end.

Definition cons_head (c : ascii) (parts : list string) : list string :=
  match parts with
  | [] => [String c ""]
  | p :: ps => String c p :: ps
  end.

(** [s.split(sep)] for a non-empty [sep]: the string is cut at the
    leftmost occurrence of [sep], then at the leftmost occurrence after
    it, and so on.  [skip] counts the characters of a matched separator
    that are still to be passed over. *)
Fixpoint split_go (sep : string) (skip : nat) (s : string) : list string :=
  match s with
  | "" => [""]
  | String c s' =>
      match skip with
      | S n => split_go sep n s'
      | O =>
          match strip_prefix sep s with
          | Some _ => "" :: split_go sep (String.length sep - 1) s'
          | None => cons_head c (split_go sep 0 s')
          end
      end
  end.

Definition split (sep s : string) : list string := split_go sep 0 s.

(** The text before and after the leftmost occurrence of [sep], where
    [s.partition(sep)] finds it; [None] when [sep] does not occur. *)
Fixpoint find_sep (sep s : string) : option (string * string) :=
  match strip_prefix sep s with
  | Some r => Some ("", r)
  | None =>
      match s with
      | "" => None
      | String c s' =>
          match find_sep sep s' with
          | Some (a, b) => Some (String c a, b)
          | None => None
          end
      end
  end.

(** [for idx, x in enumerate(xs)] *)
Fixpoint enumerate_from {A : Type} (start : nat) (xs : list A)
  : list (nat * A) :=
  match xs with
  | [] => []
  | x :: xs' => (start, x) :: enumerate_from (S start) xs'
  end.

Definition enumerate {A : Type} (xs : list A) : list (nat * A) :=
  enumerate_from 0 xs.

(** [parts[i]] on a list *)
Definition index {A : Type} (xs : list A) (i : nat) : result A :=
  match xs !! i with
  | Some x => Ok x
  | None => Err IndexError
  end.

(** ** Records and the operations on their cells *)

(** [example[key]] *)
Definition getitem (example : gmap string value) (key : string)
  : result value :=
  match example !! key with
  | Some v => Ok v
  | None => Err (KeyError (VStr key))
  end.

(** The operand of a string concatenation or of [str.join]: anything but
    a [str] is a [TypeError]. *)
Definition as_str (v : value) : result string :=
  match v with
  | VStr s => Ok s
  | _ => Err TypeError
  end.

(** The receiver of [ex.split(...)]: only a [str] has the method. *)
Definition split_receiver (v : value) : result string :=
  match v with
  | VStr s => Ok s
  | _ => Err (AttributeError "split")
  end.

(** [example[key]] used as a string operand *)
Definition getstr (example : gmap string value) (key : string)
  : result string :=
  v ← getitem example key; as_str v.

(** The single characters of a string, as Python iterates over it. *)
Fixpoint chars (s : string) : list string :=
  match s with
  | "" => []
  | String c s' => String c "" :: chars s'
  end.

(** [" ".join(v)]: [v] is a list of strings (or a string, joined
    character by character); integers are not iterable, and a dict, whose
    keys Python would join, is outside the documented features and is
    reported as a [TypeError] as well. *)
Definition join_value (sep : string) (v : value) : result string :=
  match v with
  | VList l => items ← for_each as_str l; Ok (join sep items)
  | VStr s => Ok (join sep (chars s))
  | _ => Err TypeError
  end.

(** [v[key]] for a nested dict *)
Definition subscript (v : value) (key : string) : result value :=
  match v with
  | VDict d => getitem d key
  | _ => Err TypeError
  end.

(** [v[0]]; the first character of a string is the first of the model
    string. *)
Definition first_item (v : value) : result value :=
  match v with
  | VList (x :: _) => Ok x
  | VList [] => Err IndexError
  | VStr (String c _) => Ok (VStr (String c ""))
  | VStr "" => Err IndexError
  | VDict _ => Err (KeyError (VInt 0))
  | VInt _ => Err TypeError
  end.

(** ** The datasets library

    A split ([datasets.Dataset]) is modelled by its rows, each row a dict
    from column name to cell; a [DatasetDict] has the three splits the
    class docstrings name.  A split without rows has nothing to tell its
    columns by, so wherever a loader is stated to return below, the pool
    it iterates over has a record. *)

Record DatasetDict : Type := {
  dd_train : list (gmap string value);
  dd_validation : list (gmap string value);
  dd_test : list (gmap string value)
}.

(** [ds.map(function)]: every row is updated with the dict [function]
    returns for it. *)
Definition ds_map (function : gmap string value -> result (gmap string value))
    (ds : list (gmap string value)) : result (list (gmap string value)) :=
  for_each (fun example => upd ← function example; Ok (upd ∪ example)) ds.

(** [DatasetDict.map(function)]: the same on every split. *)
Definition dd_map (function : gmap string value -> result (gmap string value))
    (dd : DatasetDict) : result DatasetDict :=
  tr ← ds_map function (dd_train dd);
  va ← ds_map function (dd_validation dd);
  te ← ds_map function (dd_test dd);
  Ok {| dd_train := tr; dd_validation := va; dd_test := te |}.

(** [ds.select(indices)]: the rows at the given positions, in the order
    given. *)
Definition ds_select (indices : list nat) (ds : list (gmap string value))
  : result (list (gmap string value)) :=
  for_each (index ds) indices.

(** [ds[column]]: the cells of one column, in row order. *)
Definition ds_column (column : string) (ds : list (gmap string value))
  : result (list value) :=
  for_each (fun row => getitem row column) ds.

(** ** numpy's generator

    [np.random.default_rng(seed)] and [Generator.choice(a, size,
    replace=False)] are library code.  The generator is taken as an
    interface: the state a seed produces, the indices a state draws, and
    the contract numpy documents for sampling without replacement. *)
Class NumpyRng : Type := {
  BitGenerator : Type;
  seed_state : Z -> BitGenerator;
  draw : BitGenerator -> nat -> nat -> list nat;
  draw_length : forall g n k, k <= n -> length (draw g n k) = k;
  draw_range : forall g n k j, k <= n -> j ∈ draw g n k -> j < n;
  draw_NoDup : forall g n k, k <= n -> NoDup (draw g n k)
}.

(** [np.random.default_rng(seed)]: a negative seed is rejected. *)
Definition default_rng `{NumpyRng} (seed : Z) : result BitGenerator :=
  if (seed <? 0)%Z then Err ValueError else Ok (seed_state seed).

(** [rng.choice(a, size, replace=False)]: a sample larger than the
    population is rejected. *)
Definition rng_choice `{NumpyRng} (rng : BitGenerator) (a size : nat)
  : result (list nat) :=
  if (a <? size)%nat then Err ValueError else Ok (draw rng a size).

(** ** The dataset adapters *)

(** The five subclasses of [DataLoader]. *)
Inductive adapter : Type :=
  | RottenTomatoes
  | Gigaword
  | Dailymail
  | Wikicat
  | TweetQA.

#[global] Instance adapter_eq_dec : EqDecision adapter.
Proof. solve_decision. Defined.

(** The [dataset_name] each subclass passes to [super().__init__]. *)
Definition dataset_name (d : adapter) : string :=
  match d with
  | RottenTomatoes => "rotten_tomatoes"
  | Gigaword => "gigaword"
  | Dailymail => "cnn_dailymail"
  | Wikicat => "GEM/wiki_cat_sum"
  | TweetQA => "tweet_qa"
  end.

Definition PROMPT_PREFIX (d : adapter) : string :=
  match d with
  | RottenTomatoes =>
      "Please read the following pairs of movie reviews and sentiment:" +:+ nl
  | Gigaword | Dailymail | Wikicat =>
      "Please read the following pairs of texts and summaries:" +:+ nl
  | TweetQA =>
      "Please read the following triplet of contexts, questions and answers and summaries:" +:+ nl
  end.

(** [RottenTomatoesDataLoader._label_to_sentiment] *)
Definition _label_to_sentiment (example : gmap string value)
  : result (gmap string value) :=
  label ← getitem example "label";
  Ok {[ "sentiment" :=
          VStr (match label with VInt 1 => "positive" | _ => "negative" end) ]}.

(** The string each [_prompt] stores under ["prompt"]. *)
Definition prompt_text (d : adapter) (example : gmap string value)
  : result string :=
  match d with
  | RottenTomatoes =>
      text ← getstr example "text";
      sentiment ← getstr example "sentiment";
      Ok ("review: " +:+ text +:+ (nl +:+ "sentiment: ") +:+ sentiment)
  | Gigaword =>
      document ← getstr example "document";
      summary ← getstr example "summary";
      Ok ("article: " +:+ document +:+ (nl +:+ "summary: ") +:+ summary)
  | Dailymail =>
      article ← getstr example "article";
      highlights ← getstr example "highlights";
      Ok ("article: " +:+ article +:+ (nl +:+ "summary: ") +:+ highlights)
  | Wikicat =>
      paragraphs ← getitem example "paragraphs";
      paragraphs ← join_value " " paragraphs;
      summary ← getitem example "summary";
      text ← subscript summary "text";
      text ← join_value " " text;
      Ok ("article: " +:+ paragraphs +:+ (nl +:+ "summary: ") +:+ text)
  | TweetQA =>
      tweet ← getstr example "Tweet";
      question ← getstr example "Question";
      answers ← getitem example "Answer";
      answer ← first_item answers;
      answer ← as_str answer;
      Ok ("tweet: " +:+ tweet +:+ (nl +:+ "question: ") +:+ question
            +:+ (nl +:+ "answer: ") +:+ answer)
  end.

(** [_prompt] *)
Definition _prompt (d : adapter) (example : gmap string value)
  : result (gmap string value) :=
  p ← prompt_text d example; Ok {[ "prompt" := VStr p ]}.

(** The instruction each [_eval_prompt] starts with. *)
Definition instruction (d : adapter) : string :=
  match d with
  | RottenTomatoes =>
      "Please perform a Sentiment Classification task. "
      +:+ "Given the following movie review, assign a sentiment label from ['negative', 'positive']. "
      +:+ "Return only the sentiment label without any other text." +:+ nl
  | Gigaword | Dailymail | Wikicat =>
      "Please summarize the following article." +:+ nl
  | TweetQA =>
      "Read the given tweet and answer the corresponding question." +:+ nl
  end.

(** The string each [_eval_prompt] stores under ["eval_prompt"]. *)
Definition eval_prompt_text (d : adapter) (example : gmap string value)
  : result string :=
  match d with
  | RottenTomatoes =>
      text ← getstr example "text"; Ok (instruction d +:+ text)
  | Gigaword =>
      document ← getstr example "document"; Ok (instruction d +:+ document)
  | Dailymail =>
      article ← getstr example "article"; Ok (instruction d +:+ article)
  | Wikicat =>
      paragraphs ← getitem example "paragraphs";
      paragraphs ← join_value " " paragraphs;
      Ok (instruction d +:+ paragraphs)
  | TweetQA =>
      tweet ← getstr example "Tweet";
      question ← getstr example "Question";
      Ok (instruction d +:+ "tweet: " +:+ tweet
            +:+ (nl +:+ "question: ") +:+ question)
  end.

(** [_eval_prompt] *)
Definition _eval_prompt (d : adapter) (example : gmap string value)
  : result (gmap string value) :=
  p ← eval_prompt_text d example; Ok {[ "eval_prompt" := VStr p ]}.

(** The value bound to [command] in the loop of
    [incontext_prompt_iterative].  In [RottenTomatoesDataLoader] the
    assignment ends with its first line: the two string literals on the
    lines below it are expression statements of their own. *)
Definition command (d : adapter) : string :=
  match d with
  | RottenTomatoes => "Please perform a Sentiment Classification task. "
  | Gigaword | Dailymail | Wikicat =>
      "Please summarize the following article." +:+ nl
  | TweetQA =>
      "Read the given tweet and answer the corresponding question." +:+ nl
  end.

(** The argument of [ex.split(...)] in [incontext_prompt_iterative]. *)
Definition separator (d : adapter) : string :=
  match d with
  | RottenTomatoes => nl +:+ "sentiment: "
  | Gigaword | Dailymail | Wikicat => nl +:+ "summary: "
  | TweetQA => nl +:+ "answer: "
  end.

(** The column [load_test_reference] reads. *)
Definition reference_column (d : adapter) : string :=
  match d with
  | RottenTomatoes => "sentiment"
  | Gigaword => "summary"
  | Dailymail => "highlights"
  | Wikicat => "summary"
  | TweetQA => "summary"
  end.

(** An instance of one of the five classes after [__init__]. *)
Record DataLoader : Type := {
  kind : adapter;
  _dataset : DatasetDict;
  train : list (gmap string value);
  test : list (gmap string value)
}.

(** One message of a turn-structured prompt. *)
Record turn : Type := Turn { role : string; content : string }.

Section Loaders.
Context `{NumpyRng}.

(** [datasets.load_dataset], by dataset name. *)
Variable load_dataset : string -> result DatasetDict.

(** [__init__] of the subclass [d]: load the dataset (the [dataset]
    property, on its first access), map the labels (rotten tomatoes
    only), then render the training split and the test split. *)
Definition DataLoader_init (d : adapter) : result DataLoader :=
  dataset ← load_dataset (dataset_name d);
  dataset ← match d with
            | RottenTomatoes => dd_map _label_to_sentiment dataset
            | _ => Ok dataset
            end;
  train ← ds_map (_prompt d) (dd_train dataset);
  test ← ds_map (_eval_prompt d) (dd_test dataset);
  Ok {| kind := d; _dataset := dataset; train := train; test := test |}.

(** [load_test_reference] *)
Definition load_test_reference (self : DataLoader) : result (list value) :=
  ds_column (reference_column (kind self)) (test self).

(** [incontext_prompt] *)
Definition incontext_prompt (self : DataLoader) (num_examples : nat)
    (seed : Z) : result string :=
  if (num_examples =? 0)%nat then Ok "" else
  let out := PROMPT_PREFIX (kind self) in
  rng ← default_rng seed;
  idxs ← rng_choice rng (length (train self)) num_examples;
  selected ← ds_select idxs (train self);
  examples ← ds_column "prompt" selected;
  lines ← for_each as_str examples;
  Ok (out +:+ join nl lines +:+ nl).

(** The body of the loop over [examples] in
    [incontext_prompt_iterative]: the two turns appended for [ex]. *)
Definition example_turns (d : adapter) (ex : value) : result (list turn) :=
  ex ← split_receiver ex;
  let parts := split (separator d) ex in
  p0 ← index parts 0;
  p1 ← index parts 1;
  Ok [Turn "user" (command d +:+ p0); Turn "assistant" p1].

(** [incontext_prompt_iterative] *)
Definition incontext_prompt_iterative (self : DataLoader)
    (num_examples : nat) (seed : Z) : result (list turn) :=
  if (num_examples =? 0)%nat then Ok [] else
  rng ← default_rng seed;
  idxs ← rng_choice rng (length (train self)) num_examples;
  selected ← ds_select idxs (train self);
  examples ← ds_column "prompt" selected;
  out ← for_each (example_turns (kind self)) examples;
  Ok (concat out).

(** [eval_prompt]: the generator over the ["eval_prompt"] column, a
    string column written by [_eval_prompt]. *)
Definition eval_prompt (self : DataLoader) : result (list string) :=
  column ← ds_column "eval_prompt" (test self);
  for_each as_str column.
End Loaders.

(** ** PromptLoader *)

(** The attributes [__init__] may or may not have assigned. *)
Record PromptLoader : Type := {
  eval_set : option DataLoader;
  incontext_set : option DataLoader
}.

(** [self.name]: reading an attribute that was never assigned raises. *)
Definition getattr {A : Type} (name : string) (slot : option A) : result A :=
  match slot with
  | Some a => Ok a
  | None => Err (AttributeError name)
  end.

Section PromptLoader.
Context `{NumpyRng}.
Variable load_dataset : string -> result DatasetDict.

(** [PromptLoader.__init__]: two [if]/[elif] chains without an [else]. *)
Definition PromptLoader_init (incontext eval : string)
  : result PromptLoader :=
  eval_set ←
    (if String.eqb eval "gigaword" then
       Some <$> DataLoader_init load_dataset Gigaword
     else if String.eqb eval "dailymail" then
       Some <$> DataLoader_init load_dataset Dailymail
     else if String.eqb eval "rotten_tomatoes" then
       Some <$> DataLoader_init load_dataset RottenTomatoes
     else Ok None);
  incontext_set ←
    (if String.eqb incontext eval then
       Some <$> getattr "eval_set" eval_set
     else if String.eqb incontext "gigaword" then
       Some <$> DataLoader_init load_dataset Gigaword
     else if String.eqb incontext "dailymail" then
       Some <$> DataLoader_init load_dataset Dailymail
     else if String.eqb incontext "wikicat" then
       Some <$> DataLoader_init load_dataset Wikicat
     else if String.eqb incontext "rotten_tomatoes" then
       Some <$> DataLoader_init load_dataset RottenTomatoes
     else if String.eqb incontext "tweetqa" then
       Some <$> DataLoader_init load_dataset TweetQA
     else Ok None);
  Ok {| eval_set := eval_set; incontext_set := incontext_set |}.

(** [load_prompt] *)
Definition load_prompt (self : PromptLoader) (num_examples : nat)
  : result (list string) :=
  eval_set ← getattr "eval_set" (eval_set self);
  eval_prompts ← eval_prompt eval_set;
  for_each
    (fun '(idx, eval_prompt) =>
       incontext_set ← getattr "incontext_set" (incontext_set self);
       prefix ← incontext_prompt incontext_set num_examples (Z.of_nat idx);
       Ok (prefix +:+ eval_prompt))
    (enumerate eval_prompts).

(** [load_prompt_iterative] *)
Definition load_prompt_iterative (self : PromptLoader) (num_examples : nat)
  : result (list (list turn)) :=
  eval_set ← getattr "eval_set" (eval_set self);
  eval_prompts ← eval_prompt eval_set;
  for_each
    (fun '(idx, eval_prompt) =>
       incontext_set ← getattr "incontext_set" (incontext_set self);
       turns ← incontext_prompt_iterative incontext_set num_examples
                 (Z.of_nat idx);
       Ok (turns ++ [Turn "user" eval_prompt]))
    (enumerate eval_prompts).

(** [load_testdata] *)
Definition load_testdata (self : PromptLoader) : result (list value) :=
  eval_set ← getattr "eval_set" (eval_set self);
  load_test_reference eval_set.
End PromptLoader.

(** ** [load_data]

    The names bound at module level of dataloader.py: its imports, its
    classes and its functions. *)
Definition module_globals : list string :=
  [ "random"; "SEED"; "tqdm"; "deepcopy"; "List"; "Dict"; "Tuple"; "Any";
    "Generator"; "load_dataset"; "DatasetDict"; "dataclass";
    "abstractmethod"; "np"; "load_data"; "PromptLoader"; "DataLoader";
    "RottenTomatoesDataLoader"; "GigawordDataLoader"; "DailymailDataLoader";
    "_load_rotten_tomatoes"; "WikicatDataLoader"; "TweetQADataLoader";
    "_create_splits"; "change_key"; "content_map"; "_multi_key_to_text";
    "_invert_labels"; "_map_labels"; "_rand_sample" ].

(** Evaluating a global name. *)
Definition global (name : string) : result string :=
  if bool_decide (name ∈ module_globals) then Ok name
  else Err (NameError name).

(** [load_data] up to the call of the function it selects: the dict
    display evaluates both names, then the dict is subscripted. *)
Definition load_data_select (data_name : string) : result string :=
  rt ← global "_load_rotten_tomatoes";
  gigaword ← global "_load_gigaword";
  let data_ret : gmap string string :=
    {[ "rt" := rt; "gigaword" := gigaword ]} in
  match data_ret !! data_name with
  | Some loader => Ok loader
  | None => Err (KeyError (VStr data_name))
  end.

(** ** The record transforms

    The transforms receive a reference to a dict and may update the dict
    in place, so dicts live in a store and the transforms thread it.  An
    exception leaves the store as it was when it was raised. *)
Module Transforms.

Abbreviation store := (gmap nat (gmap string value)).
Definition M (A : Type) : Type := store -> result A * store.

Definition ret {A : Type} (a : A) : M A := fun h => (Ok a, h).
Definition bind {A B : Type} (m : M A) (f : A -> M B) : M B :=
  fun h => match m h with
           | (Ok a, h') => f a h'
           | (Err e, h') => (Err e, h')
           end.
Definition lift {A : Type} (r : result A) : M A := fun h => (r, h).

Notation "'let*' x := m 'in' k" := (bind m (fun x => k))
  (at level 10, x name, m at level 100, k at level 200).

(** The dict a reference points to (a reference Python hands out is
    never dangling; the error case is there for totality only). *)
Definition deref (ex : nat) : M (gmap string value) :=
  fun h => match h !! ex with
           | Some d => (Ok d, h)
           | None => (Err (NameError "ex"), h)
           end.

(** [ex.copy()]: a new dict with the same entries. *)
Definition dict_copy (ex : nat) : M nat :=
  let* d := deref ex in
  fun h => let new := fresh (dom h) in (Ok new, <[new := d]> h).

(** [ex[key]] *)
Definition dict_get (ex : nat) (key : string) : M value :=
  let* d := deref ex in lift (getitem d key).

(** [ex.pop(key)] *)
Definition dict_pop (ex : nat) (key : string) : M value :=
  let* d := deref ex in
  let* v := lift (getitem d key) in
  fun h => (Ok v, <[ex := delete key d]> h).

(** [ex[key] = v] *)
Definition dict_set (ex : nat) (key : string) (v : value) : M unit :=
  let* d := deref ex in
  fun h => (Ok tt, <[ex := <[key := v]> d]> h).

(** [mapping[v]] for a dict with integer keys; a list or a dict cannot be
    hashed. *)
Definition mapping_get (mapping : gmap Z value) (v : value) : result value :=
  match v with
  | VInt n =>
      match mapping !! n with
      | Some w => Ok w
      | None => Err (KeyError v)
      end
  | VStr _ => Err (KeyError v)
  | VList _ | VDict _ => Err TypeError
  end.

(** [change_key] *)
Definition change_key (ex : nat) (old_key new_key : string) : M nat :=
  let* ex := dict_copy ex in
  let* v := dict_pop ex old_key in
  let* _ := dict_set ex new_key v in
  ret ex.

(** [content_map] *)
Definition content_map (ex : nat) (target_key : string)
    (mapping : gmap Z value) : M nat :=
  let* v := dict_get ex target_key in
  let* w := lift (mapping_get mapping v) in
  let* _ := dict_set ex target_key w in
  ret ex.

(** [_multi_key_to_text] *)
Definition _multi_key_to_text (ex : nat) (key1 key2 : string) : M nat :=
  let* ex := dict_copy ex in
  let* a := dict_pop ex key1 in
  let* a := lift (as_str a) in
  let* b := dict_pop ex key2 in
  let* b := lift (as_str b) in
  let* _ := dict_set ex "text" (VStr (a +:+ " " +:+ b)) in
  ret ex.

(** [_invert_labels] *)
Definition _invert_labels (ex : nat) : M nat :=
  let* ex := dict_copy ex in
  let* label := dict_get ex "label" in
  let* label := lift (match label with
                      | VInt n => Ok (VInt (1 - n))
                      | _ => Err TypeError
                      end) in
  let* _ := dict_set ex "label" label in
  ret ex.

(** [_map_labels] *)
Definition _map_labels (ex : nat) (map_dict : gmap Z value) : M nat :=
  let* ex := dict_copy ex in
  let* label := dict_get ex "label" in
  let* label := lift (mapping_get map_dict label) in
  let* _ := dict_set ex "label" label in
  ret ex.

(** The mapping [_load_rotten_tomatoes] passes to [content_map]. *)
Definition sentiment_mapping : gmap Z value :=
  {[ 0%Z := VStr "negative"; 1%Z := VStr "positive" ]}.

End Transforms.

(** ** Vocabulary of the specification *)

(** [sample(pool_size, k, seed)]: the two lines with which both prompt
    builders pick their examples. *)
Definition sample_indices `{NumpyRng} (pool_size k : nat) (seed : Z)
  : result (list nat) :=
  rng ← default_rng seed; rng_choice rng pool_size k.

(** The training pool and the evaluation pool of an adapter: the records
    its [_prompt] and [_eval_prompt] were mapped over. *)
Definition train_pool (dl : DataLoader) : list (gmap string value) :=
  dd_train (_dataset dl).

Definition eval_pool (dl : DataLoader) : list (gmap string value) :=
  dd_test (_dataset dl).

(** [f] is the fragment of the training record at position [j]. *)
Definition fragment_of (dl : DataLoader) (j : nat) (f : string) : Prop :=
  exists ex, train_pool dl !! j = Some ex /\ prompt_text (kind dl) ex = Ok f.

(** The state [__init__] leaves an adapter in: every training row holds
    its fragment under ["prompt"], every test row its query under
    ["eval_prompt"]. *)
Definition initialised (dl : DataLoader) : Prop :=
  Forall2 (fun ex row => exists f, prompt_text (kind dl) ex = Ok f /\
                                   row = {[ "prompt" := VStr f ]} ∪ ex)
          (train_pool dl) (train dl) /\
  Forall2 (fun ex row => exists q, eval_prompt_text (kind dl) ex = Ok q /\
                                   row = {[ "eval_prompt" := VStr q ]} ∪ ex)
          (eval_pool dl) (test dl).

(** The turn pair [example_turns] builds from [parts[0]] and [parts[1]]
    of a fragment. *)
Definition turn_pair (d : adapter) (f : string) (ts : list turn) : Prop :=
  exists p0 p1 ps,
    split (separator d) f = p0 :: p1 :: ps /\
    ts = [Turn "user" (command d +:+ p0); Turn "assistant" p1].

(** ** A concrete generator and concrete pools

    Rotating the index range by the seed is a sampler that meets the
    contract of [NumpyRng]; the pools below are small rotten_tomatoes and
    gigaword tables. *)

Definition rotate_draw (g n k : nat) : list nat :=
  (fun j => (g + j) mod n) <$> seq 0 k.

Lemma rotate_draw_length g n k : k <= n -> length (rotate_draw g n k) = k.
Proof. intros _. unfold rotate_draw. by rewrite length_fmap, length_seq. Qed.

Lemma rotate_draw_range g n k j :
  k <= n -> j ∈ rotate_draw g n k -> j < n.
Proof.
  intros Hk (i & -> & Hi)%list_elem_of_fmap.
  apply elem_of_seq in Hi. apply Nat.mod_upper_bound. lia.
Qed.

Lemma rotate_draw_NoDup g n k : k <= n -> NoDup (rotate_draw g n k).
Proof.
  intros Hk. unfold rotate_draw.
  apply NoDup_fmap_2_strong; [|apply NoDup_seq].
  intros i j Hi%elem_of_seq Hj%elem_of_seq Hmod.
  pose proof (Nat.div_mod_eq (g + i) n) as Ei.
  pose proof (Nat.div_mod_eq (g + j) n) as Ej.
  rewrite Hmod in Ei. simpl in Hi, Hj.
  generalize dependent ((g + j) mod n). intros r _ Ei Ej.
  generalize dependent ((g + i) / n). intros a Ei.
  generalize dependent ((g + j) / n). intros b Ej.
  destruct (lt_eq_lt_dec a b) as [[Hab|Hab]|Hab]; nia.
Qed.

#[local] Instance demo_rng : NumpyRng := {|
  BitGenerator := nat;
  seed_state := Z.to_nat;
  draw := rotate_draw;
  draw_length := rotate_draw_length;
  draw_range := rotate_draw_range;
  draw_NoDup := rotate_draw_NoDup
|}.

Definition rt_record (text : string) (label : Z) : gmap string value :=
  {[ "text" := VStr text; "label" := VInt label ]}.

Definition gw_record (document summary : string) : gmap string value :=
  {[ "document" := VStr document; "summary" := VStr summary ]}.

Definition demo_hub (name : string) : result DatasetDict :=
  if String.eqb name "rotten_tomatoes" then
    Ok {| dd_train := [rt_record "fine" 1; rt_record "dull" 0;
                       rt_record "warm" 1];
          dd_validation := [];
          dd_test := [rt_record "slow" 0; rt_record "bright" 1] |}
  else if String.eqb name "gigaword" then
    Ok {| dd_train := [gw_record "rain fell all day" "rain";
                       gw_record "the vote was close" "close vote"];
          dd_validation := [];
          dd_test := [gw_record "prices rose again" "prices up"] |}
  else Err (KeyError (VStr name)).

(** The scenario of the specification: one training record, one
    evaluation record. *)
Definition scenario_hub (name : string) : result DatasetDict :=
  if String.eqb name "rotten_tomatoes" then
    Ok {| dd_train := [rt_record "A" 1];
          dd_validation := [];
          dd_test := [rt_record "B" 0] |}
  else Err (KeyError (VStr name)).

(** The adapters and loaders [__init__] builds over these pools. *)
Definition empty_loader : DataLoader :=
  {| kind := Gigaword;
     _dataset := {| dd_train := []; dd_validation := []; dd_test := [] |};
     train := [];
     test := [] |}.

Definition built (r : result DataLoader) : DataLoader :=
  match r with
  | Ok dl => dl
  | Err _ => empty_loader
  end.

Definition demo_gw : DataLoader := built (DataLoader_init demo_hub Gigaword).

Definition demo_rt : DataLoader :=
  built (DataLoader_init demo_hub RottenTomatoes).

Definition demo_pl : PromptLoader :=
  {| eval_set := Some demo_rt; incontext_set := Some demo_gw |}.

Definition scenario_rt : DataLoader :=
  built (DataLoader_init scenario_hub RottenTomatoes).

Definition scenario_pl : PromptLoader :=
  {| eval_set := Some scenario_rt; incontext_set := Some scenario_rt |}.

(** A gigaword pool whose one training document contains the
    separator. *)
Definition quoting_hub (name : string) : result DatasetDict :=
  if String.eqb name "gigaword" then
    Ok {| dd_train := [gw_record ("x" +:+ nl +:+ "summary: y") "zzz"];
          dd_validation := [];
          dd_test := [gw_record "B" "b"] |}
  else Err (KeyError (VStr name)).

Definition quoting_gw : DataLoader :=
  built (DataLoader_init quoting_hub Gigaword).

Definition quoting_pl : PromptLoader :=
  {| eval_set := Some quoting_gw; incontext_set := Some quoting_gw |}.

(** The review ["x\nsentiment: y"] with its sentiment, as the training
    pool of [quoting_rt] holds it. *)
Definition quoting_record : gmap string value :=
  {[ "sentiment" := VStr "positive" ]}
  ∪ rt_record ("x" +:+ nl +:+ "sentiment: y") 1.

(** ** Vocabulary of the further properties *)

(** The class the first chain of [PromptLoader.__init__] builds for an
    evaluation name, if any. *)
Definition eval_adapter (name : string) : option adapter :=
  if String.eqb name "gigaword" then Some Gigaword
  else if String.eqb name "dailymail" then Some Dailymail
  else if String.eqb name "rotten_tomatoes" then Some RottenTomatoes
  else None.

(** The fields the [_eval_prompt] of each class subscripts. *)
Definition input_fields (d : adapter) : list string :=
  match d with
  | RottenTomatoes => ["text"]
  | Gigaword => ["document"]
  | Dailymail => ["article"]
  | Wikicat => ["paragraphs"]
  | TweetQA => ["Tweet"; "Question"]
  end.

(** The first character of [sep] occurs nowhere else in it. *)
Definition head_unique (sep : string) : bool :=
  match sep with
  | "" => false
  | String c body => negb (contains (String c "") body)
  end.

(** The role at position [j] of a conversation that starts with the
    user. *)
Definition role_at (j : nat) : string :=
  if Nat.even j then "user" else "assistant".

(** A tweet_qa pool with the fields the class reads. *)
Definition tq_record (tweet question answer : string) : gmap string value :=
  {[ "Tweet" := VStr tweet; "Question" := VStr question;
     "Answer" := VList [VStr answer]; "qid" := VStr "q" ]}.

Definition tweet_hub (name : string) : result DatasetDict :=
  if String.eqb name "tweet_qa" then
    Ok {| dd_train := [tq_record "so cold today" "how is it" "cold"];
          dd_validation := [];
          dd_test := [tq_record "we won" "who won" "we"] |}
  else Err (KeyError (VStr name)).

Definition demo_tq : DataLoader := built (DataLoader_init tweet_hub TweetQA).

(** A rotten tomatoes table whose validation split has a record without
    label. *)
Definition unlabelled_hub (name : string) : result DatasetDict :=
  Ok {| dd_train := [rt_record "fine" 1];
        dd_validation := [{[ "text" := VStr "odd" ]}];
        dd_test := [rt_record "slow" 0] |}.

(** The default [map_dict] of [_map_labels]. *)
Definition default_map_dict : gmap Z value :=
  {[ (-1)%Z := VInt 0; 1%Z := VInt 1 ]}.

(** A store with one rotten tomatoes record, at reference [0]. *)
Definition demo_store : gmap nat (gmap string value) :=
  {[ 0 := rt_record "fine" 1 ]}.

(** A store with one tweet, at reference [0]. *)
Definition tweet_store : gmap nat (gmap string value) :=
  {[ 0 := {[ "Tweet" := VStr "we won"; "Question" := VStr "who won" ]} ]}.

(** ** The record loaders

    [_load_rotten_tomatoes] and [load_data] work on the dicts the
    transforms update, so they run in the store monad of the transforms. *)
Module Loading.
Import Transforms.

(** A list comprehension whose body threads the store. *)
Fixpoint for_each_M {A B : Type} (f : A -> M B) (xs : list A) : M (list B) :=
  match xs with
  | [] => ret []
  | x :: xs' =>
      let* y := f x in
      let* ys := for_each_M f xs' in
      ret (y :: ys)
  end.

(** The position a slice bound stands for in a list of [len] items: a
    negative bound counts from the end, and [take] and [drop] clip what
    lies beyond the list. *)
Definition slice_bound (n : Z) (len : nat) : nat :=
  if (n <? 0)%Z then Z.to_nat (Z.of_nat len + n) else Z.to_nat n.

(** [xs[:n]], where [n] may be [None] *)
Definition slice_to {A : Type} (n : option Z) (xs : list A) : list A :=
  match n with
  | None => xs
  | Some n => take (slice_bound n (length xs)) xs
  end.

(** [xs[n:]] *)
Definition slice_from {A : Type} (n : Z) (xs : list A) : list A :=
  drop (slice_bound n (length xs)) xs.

(** Iterating over a split hands out a new dict for every row. *)
Definition new_dict (d : gmap string value) : M nat :=
  fun h => let new := fresh (dom h) in (Ok new, <[new := d]> h).

(** [list(dataset[split])] *)
Definition list_rows (rows : list (gmap string value)) : M (list nat) :=
  for_each_M new_dict rows.

Section RecordLoaders.
Variable load_dataset : string -> result DatasetDict.

(** [_load_rotten_tomatoes] *)
Definition _load_rotten_tomatoes (lim : option Z)
  : M (list nat * list nat * list nat) :=
  let* dataset := lift (load_dataset "rotten_tomatoes") in
  let* train := list_rows (dd_train dataset) in
  let train := slice_to lim train in
  let* val := list_rows (dd_validation dataset) in
  let val := slice_to lim val in
  let* test := list_rows (dd_test dataset) in
  let test := slice_to lim test in
  let* train := for_each_M (fun t => change_key t "text" "Review") train in
  let* val := for_each_M (fun t => change_key t "text" "Review") val in
  let* test := for_each_M (fun t => change_key t "text" "Review") test in
  let* train :=
    for_each_M (fun t => change_key t "label" "Sentiment") train in
  let* val := for_each_M (fun t => change_key t "label" "Sentiment") val in
  let* test := for_each_M (fun t => change_key t "label" "Sentiment") test in
  let mapping := sentiment_mapping in
  let* train :=
    for_each_M (fun t => content_map t "Sentiment" mapping) train in
  let* val := for_each_M (fun t => content_map t "Sentiment" mapping) val in
  let* test := for_each_M (fun t => content_map t "Sentiment" mapping) test in
  ret (train, val, test).

(** Calling what [data_ret[data_name]] evaluates to. *)
Definition call_loader (loader : string) (lim : option Z)
  : M (list nat * list nat * list nat) :=
  if String.eqb loader "_load_rotten_tomatoes" then _load_rotten_tomatoes lim
  else lift (Err (NameError loader)).

(** [load_data] *)
Definition load_data (data_name : string) (lim : option Z)
  : M (list nat * list nat * list nat) :=
  let* loader := lift (load_data_select data_name) in
  call_loader loader lim.
End RecordLoaders.

(** The record [_load_rotten_tomatoes] makes of a row: ["text"] renamed
    to ["Review"], then ["label"] renamed to ["Sentiment"], then the
    label replaced by its name. *)
Definition rename (old_key new_key : string) (d : gmap string value)
  : option (gmap string value) :=
  v ← d !! old_key; Some (<[new_key := v]> (delete old_key d)).

Definition name_label (d : gmap string value) : option (gmap string value) :=
  v ← d !! "Sentiment";
  match v with
  | VInt n => w ← sentiment_mapping !! n; Some (<["Sentiment" := w]> d)
  | _ => None
  end.

Definition normalise (d : gmap string value) : option (gmap string value) :=
  d ← rename "text" "Review" d;
  d ← rename "label" "Sentiment" d;
  name_label d.

(** The references of [rs] point to the dicts [ds], in order. *)
Definition points_to (h : store) (rs : list nat)
    (ds : list (gmap string value)) : Prop :=
  Forall2 (fun r d => h !! r = Some d) rs ds.

(** A rotten tomatoes row as the hub documents it: a text and a label
    that is 0 or 1. *)
Definition rt_row (d : gmap string value) : Prop :=
  exists t n, d !! "text" = Some t /\ d !! "label" = Some (VInt n) /\
              (n = 0 \/ n = 1)%Z.

(** The dict at [r] is the row [d] after the three steps. *)
Definition normalised (h : store) (r : nat) (d : gmap string value) : Prop :=
  exists t n,
    d !! "text" = Some t /\ d !! "label" = Some (VInt n) /\
    h !! r
    = Some (<["Sentiment" :=
                VStr (if (n =? 1)%Z then "positive" else "negative")]>
              (delete "label" (<["Review" := t]> (delete "text" d)))).

(** The body [f] of a comprehension makes a new dict out of the one it
    is given, as [g] says, or raises [err] and leaves a copy behind. *)
Definition copying (f : nat -> M nat)
    (g : gmap string value -> option (gmap string value)) (err : exn)
  : Prop :=
  forall (h : store) r d, h !! r = Some d ->
    f r h = match g d with
            | Some d' => (Ok (fresh (dom h)), <[fresh (dom h) := d']> h)
            | None => (Err err, <[fresh (dom h) := d]> h)
            end.

(** The body [f] updates the dict it is given, as [g] says, or raises
    and leaves the store alone. *)
Definition updating (f : nat -> M nat)
    (g : gmap string value -> option (gmap string value)) : Prop :=
  forall (h : store) r d, h !! r = Some d ->
    match g d with
    | Some d' => f r h = (Ok r, <[r := d']> h)
    | None => exists e, f r h = (Err e, h)
    end.

End Loading.

(** ** Shuffling and scaling

    [random.seed(s)] followed by [random.shuffle(xs)],
    [random.Random(s).shuffle(xs)] and [int(x * n)] for a float [x] are
    library code.  They are taken as an interface: the order a generator
    seeded with [s] leaves a list in, which is a rearrangement of the
    list, and the integer a product is truncated to, which [int] refuses
    to give for an infinite or undefined product. *)
Class PyRandom : Type := {
  float : Type;
  int_of_product : float -> nat -> option Z;
  shuffled : forall {A : Type}, Z -> list A -> list A;
  shuffled_Permutation :
    forall (A : Type) (seed : Z) (xs : list A), shuffled seed xs ≡ₚ xs
}.

(** [_create_splits]: the two lists returned, [None] when [int]
    raises. *)
Definition _create_splits `{PyRandom} {A : Type} (examples : list A)
    (ratio : float) : option (list A * list A) :=
  split_len ← int_of_product ratio (length examples);
  let examples := shuffled 1 examples in
  let split_1 := Loading.slice_to (Some split_len) examples in
  let split_2 := Loading.slice_from split_len examples in
  Some (split_1, split_2).

(** [_rand_sample]: the list returned ([None] when [int] raises), and
    the list the caller passed as the call leaves it. *)
Definition _rand_sample `{PyRandom} {A : Type} (lst : list A)
    (frac : float) : option (list A) * list A :=
  let lst := shuffled 4 lst in
  (n ← int_of_product frac (length lst);
   Some (Loading.slice_to (Some n) lst),
   lst).

(** A generator for the examples: it reverses the list; a float is a
    number of hundredths. *)
#[local] Instance demo_random : PyRandom := {|
  float := Z;
  int_of_product := fun x n => Some (Z.quot (x * Z.of_nat n) 100);
  shuffled := fun A _ xs => reverse xs;
  shuffled_Permutation := fun A _ xs => reverse_Permutation xs
|}.

(** ** The [dataset] property

    [DataLoader.dataset] loads on the first access and keeps the result
    in [_dataset].  An object under construction is its [_dataset]
    field together with the calls of [load_dataset] made so far, each
    with the dataset name and the configuration name passed. *)
Module Lazy.

Record object : Type := {
  _dataset_field : option DatasetDict;
  calls : list (string * option string)
}.

Definition P (A : Type) : Type := object -> result A * object.

Definition ret {A : Type} (a : A) : P A := fun s => (Ok a, s).
Definition bind {A B : Type} (m : P A) (f : A -> P B) : P B :=
  fun s => match m s with
           | (Ok a, s') => f a s'
           | (Err e, s') => (Err e, s')
           end.
Definition lift {A : Type} (r : result A) : P A := fun s => (r, s).

Notation "'do*' x := m 'in' k" := (bind m (fun x => k))
  (at level 10, x name, m at level 100, k at level 200).

(** The arguments [dataset] calls [load_dataset] with. *)
Definition load_arguments (dataset_name : string) : string * option string :=
  if String.eqb dataset_name "cnn_dailymail"
  then (dataset_name, Some "3.0.0")
  else (dataset_name, None).

Section LazyLoaders.
(** [datasets.load_dataset], by dataset name and configuration name. *)
Variable load_dataset : string -> option string -> result DatasetDict.

(** [DataLoader.dataset] *)
Definition dataset (dataset_name : string) : P DatasetDict :=
  fun s =>
    match _dataset_field s with
    | Some dd => (Ok dd, s)
    | None =>
        let '(name, config) := load_arguments dataset_name in
        let log := calls s ++ [(name, config)] in
        match load_dataset name config with
        | Ok dd => (Ok dd, {| _dataset_field := Some dd; calls := log |})
        | Err e => (Err e, {| _dataset_field := None; calls := log |})
        end
    end.

(** [self._dataset = dd] *)
Definition set_dataset (dd : DatasetDict) : P unit :=
  fun s => (Ok tt, {| _dataset_field := Some dd; calls := calls s |}).

(** [__init__] of the subclass [d], with every read of [self.dataset]
    written out; it returns what it assigns to [self.train] and
    [self.test]. *)
Definition DataLoader_init (d : adapter)
  : P (list (gmap string value) * list (gmap string value)) :=
  do* _ := match d with
           | RottenTomatoes =>
               do* dd := dataset (dataset_name d) in
               do* dd := lift (dd_map _label_to_sentiment dd) in
               set_dataset dd
           | _ => ret tt
           end in
  do* dd := dataset (dataset_name d) in
  do* train := lift (ds_map (_prompt d) (dd_train dd)) in
  do* dd := dataset (dataset_name d) in
  do* test := lift (ds_map (_eval_prompt d) (dd_test dd)) in
  ret (train, test).
End LazyLoaders.

(** The object [super().__init__] leaves: nothing loaded, no call made. *)
Definition new_object : object := {| _dataset_field := None; calls := [] |}.

End Lazy.

(** The splits of the two rotten tomatoes hubs. *)
Definition demo_rt_splits : DatasetDict :=
  {| dd_train := [rt_record "fine" 1; rt_record "dull" 0;
                  rt_record "warm" 1];
     dd_validation := [];
     dd_test := [rt_record "slow" 0; rt_record "bright" 1] |}.

Definition unlabelled_splits : DatasetDict :=
  {| dd_train := [rt_record "fine" 1];
     dd_validation := [{[ "text" := VStr "odd" ]}];
     dd_test := [rt_record "slow" 0] |}.

(** ** Generators as objects

    [np.random.default_rng(seed)] makes a new generator object, and
    [rng.choice] advances the generator it is called on: a second draw
    from the same generator need not repeat the first.  To compare two
    calls of a prompt builder, the generators live in a heap that the
    calls thread: a call takes the heap it finds to its result and the
    heap it leaves.  The state a draw leaves a generator in is part of
    the interface; nothing is asked of it. *)
Class GeneratorStep `{NumpyRng} : Type := {
  after_draw : BitGenerator -> nat -> nat -> BitGenerator
}.

Module Calls.
Section Calls.
Context `{GeneratorStep}.

Definition G (A : Type) : Type :=
  gmap nat BitGenerator -> result A * gmap nat BitGenerator.

Definition ret {A : Type} (a : A) : G A := fun w => (Ok a, w).
Definition bind {A B : Type} (m : G A) (f : A -> G B) : G B :=
  fun w => match m w with
           | (Ok a, w') => f a w'
           | (Err e, w') => (Err e, w')
           end.
Definition lift {A : Type} (r : result A) : G A := fun w => (r, w).

Notation "'call*' x := m 'in' k" := (bind m (fun x => k))
  (at level 10, x name, m at level 100, k at level 200).

(** A list comprehension whose body threads the heap. *)
Fixpoint comprehension {A B : Type} (f : A -> G B) (xs : list A)
  : G (list B) :=
  match xs with
  | [] => ret []
  | x :: xs' =>
      call* y := f x in
      call* ys := comprehension f xs' in
      ret (y :: ys)
  end.

(** [np.random.default_rng(seed)]: a new generator, in the state the
    seed gives. *)
Definition default_rng (seed : Z) : G nat :=
  fun w =>
    if (seed <? 0)%Z then (Err ValueError, w)
    else let rng := fresh (dom w) in (Ok rng, <[rng := seed_state seed]> w).

(** [rng.choice(a, size, replace=False)]: the draw of the state the
    generator is in, which the call advances. *)
Definition rng_choice (rng : nat) (a size : nat) : G (list nat) :=
  fun w =>
    match w !! rng with
    | None => (Err (NameError "rng"), w)
    | Some g =>
        if (a <? size)%nat then (Err ValueError, w)
        else (Ok (draw g a size), <[rng := after_draw g a size]> w)
    end.

(** The two lines with which both prompt builders pick their
    examples. *)
Definition sample_indices (pool_size k : nat) (seed : Z) : G (list nat) :=
  call* rng := default_rng seed in rng_choice rng pool_size k.

(** [incontext_prompt] *)
Definition incontext_prompt (self : DataLoader) (num_examples : nat)
    (seed : Z) : G string :=
  if (num_examples =? 0)%nat then ret "" else
  let out := PROMPT_PREFIX (kind self) in
  call* rng := default_rng seed in
  call* idxs := rng_choice rng (length (train self)) num_examples in
  lift (selected ← ds_select idxs (train self);
        examples ← ds_column "prompt" selected;
        lines ← for_each as_str examples;
        Ok (out +:+ join nl lines +:+ nl)).

(** [incontext_prompt_iterative] *)
Definition incontext_prompt_iterative (self : DataLoader)
    (num_examples : nat) (seed : Z) : G (list turn) :=
  if (num_examples =? 0)%nat then ret [] else
  call* rng := default_rng seed in
  call* idxs := rng_choice rng (length (train self)) num_examples in
  lift (selected ← ds_select idxs (train self);
        examples ← ds_column "prompt" selected;
        out ← for_each (example_turns (kind self)) examples;
        Ok (concat out)).

(** [load_prompt] *)
Definition load_prompt (self : PromptLoader) (num_examples : nat)
  : G (list string) :=
  call* eval_set := lift (getattr "eval_set" (eval_set self)) in
  call* eval_prompts := lift (eval_prompt eval_set) in
  comprehension
    (fun '(idx, eval_prompt) =>
       call* incontext_set :=
         lift (getattr "incontext_set" (incontext_set self)) in
       call* prefix :=
         incontext_prompt incontext_set num_examples (Z.of_nat idx) in
       ret (prefix +:+ eval_prompt))
    (enumerate eval_prompts).

(** [load_prompt_iterative] *)
Definition load_prompt_iterative (self : PromptLoader) (num_examples : nat)
  : G (list (list turn)) :=
  call* eval_set := lift (getattr "eval_set" (eval_set self)) in
  call* eval_prompts := lift (eval_prompt eval_set) in
  comprehension
    (fun '(idx, eval_prompt) =>
       call* incontext_set :=
         lift (getattr "incontext_set" (incontext_set self)) in
       call* turns :=
         incontext_prompt_iterative incontext_set num_examples
           (Z.of_nat idx) in
       ret (turns ++ [Turn "user" eval_prompt]))
    (enumerate eval_prompts).

(** Two draws from one generator. *)
Definition draw_twice (seed : Z) (a size : nat)
  : G (list nat * list nat) :=
  call* rng := default_rng seed in
  call* first := rng_choice rng a size in
  call* second := rng_choice rng a size in
  ret (first, second).
End Calls.
End Calls.

(** The rotating sampler moves on by the number of positions drawn. *)
Definition rotate_on (g n k : nat) : nat := g + k.

#[local] Instance demo_step : @GeneratorStep demo_rng := {|
  after_draw := rotate_on
|}.

(** ** Adapters as objects

    Calling an adapter class runs its [__init__] and gives a new object;
    the attributes of a [PromptLoader] hold references to such objects.
    The world is the adapter objects there are and the constructor calls
    made so far, in order. *)
Module Objects.

Record world : Type := {
  adapters : gmap nat DataLoader;
  constructed : list adapter
}.

Definition O (A : Type) : Type := world -> result A * world.

Definition ret {A : Type} (a : A) : O A := fun o => (Ok a, o).
Definition bind {A B : Type} (m : O A) (f : A -> O B) : O B :=
  fun o => match m o with
           | (Ok a, o') => f a o'
           | (Err e, o') => (Err e, o')
           end.
Definition lift {A : Type} (r : result A) : O A := fun o => (r, o).

Notation "'new*' x := m 'in' k" := (bind m (fun x => k))
  (at level 10, x name, m at level 100, k at level 200).

(** The attributes of a [PromptLoader], as references. *)
Record PromptLoader : Type := {
  eval_set : option nat;
  incontext_set : option nat
}.

Section Objects.
Variable load_dataset : string -> result DatasetDict.

(** Calling the class [d]: [__init__] runs, and when it returns the
    object is new. *)
Definition construct (d : adapter) : O nat :=
  fun o =>
    let log := constructed o ++ [d] in
    match DataLoader_init load_dataset d with
    | Ok dl =>
        let r := fresh (dom (adapters o)) in
        (Ok r, {| adapters := <[r := dl]> (adapters o); constructed := log |})
    | Err e => (Err e, {| adapters := adapters o; constructed := log |})
    end.

(** [PromptLoader.__init__] *)
Definition PromptLoader_init (incontext eval : string) : O PromptLoader :=
  new* eval_set :=
    (if String.eqb eval "gigaword" then
       new* r := construct Gigaword in ret (Some r)
     else if String.eqb eval "dailymail" then
       new* r := construct Dailymail in ret (Some r)
     else if String.eqb eval "rotten_tomatoes" then
       new* r := construct RottenTomatoes in ret (Some r)
     else ret None) in
  new* incontext_set :=
    (if String.eqb incontext eval then
       new* r := lift (getattr "eval_set" eval_set) in ret (Some r)
     else if String.eqb incontext "gigaword" then
       new* r := construct Gigaword in ret (Some r)
     else if String.eqb incontext "dailymail" then
       new* r := construct Dailymail in ret (Some r)
     else if String.eqb incontext "wikicat" then
       new* r := construct Wikicat in ret (Some r)
     else if String.eqb incontext "rotten_tomatoes" then
       new* r := construct RottenTomatoes in ret (Some r)
     else if String.eqb incontext "tweetqa" then
       new* r := construct TweetQA in ret (Some r)
     else ret None) in
  ret {| eval_set := eval_set; incontext_set := incontext_set |}.
End Objects.

(** No object yet, no constructor called. *)
Definition empty_world : world := {| adapters := ∅; constructed := [] |}.

End Objects.

(** * Properties *)

(** ** Sanity checks of the string operations *)

Example split_twice : split ", " "a, b, c" = ["a"; "b"; "c"].
Proof. reflexivity. Qed.

Example split_trailing : split "x" "axbx" = ["a"; "b"; ""].
Proof. reflexivity. Qed.

Example split_leftmost : split "aa" "aaa" = [""; "a"].
Proof. reflexivity. Qed.

Example split_absent : split "--" "a-b" = ["a-b"].
Proof. reflexivity. Qed.

Example join_lines : join nl ["a"; "b"] = "a" +:+ nl +:+ "b".
Proof. reflexivity. Qed.

Example contains_inner : contains "b," "a,b,c" = true.
Proof. reflexivity. Qed.

(** ** Strings *)

Lemma append_cons (c : ascii) (s t : string) :
  String c s +:+ t = String c (s +:+ t).
Proof. reflexivity. Qed.

Lemma append_nil_l (s : string) : "" +:+ s = s.
Proof. reflexivity. Qed.

Lemma append_nil_r (s : string) : s +:+ "" = s.
Proof.
  induction s as [|c s IH]; [done | rewrite append_cons; by f_equal].
Qed.

Lemma append_assoc (a b c : string) : (a +:+ b) +:+ c = a +:+ b +:+ c.
Proof.
  induction a as [|x a IH]; [done | rewrite !append_cons; by f_equal].
Qed.

Lemma length_append (a b : string) :
  String.length (a +:+ b) = String.length a + String.length b.
Proof.
  induction a as [|x a IH]; [done | rewrite append_cons; simpl; by f_equal].
Qed.

Lemma strip_prefix_Some (p s r : string) :
  strip_prefix p s = Some r <-> s = p +:+ r.
Proof.
  revert s. induction p as [|a p IH]; intros s; simpl.
  - split; [by intros [= ->] | by intros ->].
  - destruct s as [|b s].
    + split; [done | discriminate].
    + destruct (Ascii.eqb_spec a b) as [->|Hne].
      * rewrite IH. split; [by intros -> | by intros [= ->]].
      * split; [done | intros [= ? ?]; congruence].
Qed.

Lemma strip_prefix_append (p r : string) : strip_prefix p (p +:+ r) = Some r.
Proof. by apply strip_prefix_Some. Qed.

(** Whether [p] is a prefix of [s] depends on the first [length p]
    characters of [s] only. *)
Lemma strip_prefix_extend (p s t : string) :
  String.length p <= String.length s ->
  strip_prefix p (s +:+ t) = (fun r => r +:+ t) <$> strip_prefix p s.
Proof.
  revert s. induction p as [|a p IH]; intros s Hlen; simpl; [done|].
  destruct s as [|b s]; simpl in *; [lia|].
  destruct (Ascii.eqb a b); [apply IH; lia | done].
Qed.

Lemma split_go_nonempty (sep : string) (k : nat) (s : string) :
  split_go sep k s <> [].
Proof.
  revert k. induction s as [|c s IH]; intros k; simpl; [done|].
  destruct k; [|apply IH].
  destruct (strip_prefix sep (String c s)); [done|].
  specialize (IH 0). destruct (split_go sep 0 s); [done | done].
Qed.

Lemma split_go_skip (sep u r : string) :
  split_go sep (String.length u) (u +:+ r) = split_go sep 0 r.
Proof. induction u as [|c u IH]; simpl; [done | apply IH]. Qed.

(** A separator at the head of the string closes an empty part. *)
Lemma split_at_sep (sep r : string) :
  sep <> "" -> split sep (sep +:+ r) = "" :: split sep r.
Proof.
  intros Hne. destruct sep as [|c sep]; [done|].
  unfold split. change (String c sep +:+ r) with (String c (sep +:+ r)).
  cbn [split_go].
  change (String c (sep +:+ r)) with (String c sep +:+ r).
  rewrite strip_prefix_append.
  replace (String.length (String c sep) - 1) with (String.length sep)
    by (simpl; lia).
  by rewrite split_go_skip.
Qed.

(** Any other character is added to the part being read. *)
Lemma split_step (sep : string) (c : ascii) (s : string) :
  strip_prefix sep (String c s) = None ->
  split sep (String c s) = cons_head c (split sep s).
Proof. intros Hno. unfold split. simpl split_go. by rewrite Hno. Qed.

Lemma find_sep_Some (sep s a b : string) :
  find_sep sep s = Some (a, b) -> s = a +:+ sep +:+ b.
Proof.
  revert a b. induction s as [|c s IH]; intros a b; simpl.
  - destruct (strip_prefix sep "") eqn:E; [|done].
    intros [= <- <-]. by apply strip_prefix_Some in E.
  - destruct (strip_prefix sep (String c s)) eqn:E.
    + intros [= <- <-]. by apply strip_prefix_Some in E.
    + destruct (find_sep sep s) as [[a' b']|]; [|done].
      intros [= <- <-]. rewrite append_cons. f_equal. by apply IH.
Qed.

(** [split] cuts at the leftmost occurrence and goes on after it. *)
Lemma find_sep_split (sep s a b : string) :
  sep <> "" -> find_sep sep s = Some (a, b) ->
  split sep s = a :: split sep b.
Proof.
  intros Hne. revert a b. induction s as [|c s IH]; intros a b; simpl.
  - destruct (strip_prefix sep "") eqn:E; [|done].
    apply strip_prefix_Some in E. destruct sep; [done | discriminate].
  - destruct (strip_prefix sep (String c s)) eqn:E.
    + intros [= <- <-]. apply strip_prefix_Some in E. rewrite E.
      by apply split_at_sep.
    + destruct (find_sep sep s) as [[a' b']|]; [|done].
      intros [= <- <-]. rewrite split_step by done.
      by rewrite (IH a' b').
Qed.

Lemma find_sep_None_split (sep s : string) :
  find_sep sep s = None -> split sep s = [s].
Proof.
  induction s as [|c s IH]; simpl; [done|].
  destruct (strip_prefix sep (String c s)) eqn:E; [done|].
  destruct (find_sep sep s) as [[a' b']|]; [done|].
  intros _. rewrite split_step by done. by rewrite IH.
Qed.

Lemma find_sep_length (sep s a b : string) :
  find_sep sep s = Some (a, b) ->
  String.length s = String.length a + String.length sep + String.length b.
Proof.
  intros ->%find_sep_Some. rewrite !length_append. lia.
Qed.

(** The leftmost occurrence in [s] is the leftmost occurrence in any
    extension of [s]. *)
Lemma find_sep_extend (sep s t a b : string) :
  find_sep sep s = Some (a, b) ->
  find_sep sep (s +:+ t) = Some (a, b +:+ t).
Proof.
  revert a b. induction s as [|c s IH]; intros a b.
  - simpl. destruct (strip_prefix sep "") eqn:E; [|done].
    intros [= <- <-]. apply strip_prefix_Some in E.
    destruct sep; [|by rewrite append_cons in E].
    rewrite append_nil_l in E. subst. rewrite !append_nil_l. by destruct t.
  - intros Hf. pose proof (find_sep_length _ _ _ _ Hf) as Hlen.
    simpl in Hf.
    rewrite append_cons. cbn [find_sep]. rewrite <- append_cons.
    rewrite strip_prefix_extend by lia.
    destruct (strip_prefix sep (String c s)) eqn:E; simpl.
    + by injection Hf as <- <-.
    + destruct (find_sep sep s) as [[a' b']|] eqn:E'; [|done].
      injection Hf as <- <-. by rewrite (IH a' b').
Qed.

(** A string that contains the separator has a leftmost occurrence. *)
Lemma find_sep_present (sep x y : string) :
  is_Some (find_sep sep (x +:+ sep +:+ y)).
Proof.
  induction x as [|c x IH].
  - rewrite append_nil_l.
    assert (find_sep sep (sep +:+ y) = Some ("", y)) as ->; [|by eexists].
    destruct (sep +:+ y) eqn:E; simpl;
      by rewrite <- E, strip_prefix_append.
  - rewrite append_cons. simpl find_sep.
    destruct (strip_prefix sep (String c (x +:+ sep +:+ y)));
      [by eexists|].
    destruct IH as [[a b] ->]. by eexists.
Qed.

Lemma contains_find_sep (sep s : string) :
  contains sep s = true <-> is_Some (find_sep sep s).
Proof.
  induction s as [|c s IH]; simpl.
  - destruct (strip_prefix sep ""); split;
      solve [done | by eexists | by intros [? ?]].
  - destruct (strip_prefix sep (String c s)); [split; [by eexists | done]|].
    rewrite IH. destruct (find_sep sep s) as [[a b]|]; split;
      solve [done | by eexists | by intros [? ?]].
Qed.

Lemma contains_spec (sub s : string) :
  contains sub s = true <-> exists x y, s = x +:+ sub +:+ y.
Proof.
  rewrite contains_find_sep. split.
  - intros [[a b] Hf]. exists a, b. by apply find_sep_Some.
  - intros (x & y & ->). apply find_sep_present.
Qed.

(** No occurrence of the separator starts before the one [find_sep]
    reports. *)
Lemma find_sep_leftmost (sep s a b a' b' : string) :
  find_sep sep s = Some (a, b) -> s = a' +:+ sep +:+ b' ->
  String.length a <= String.length a'.
Proof.
  revert a a'. induction s as [|c s IH]; intros a a'; simpl.
  - destruct (strip_prefix sep ""); [|done]. intros [= <- <-]. simpl. lia.
  - destruct (strip_prefix sep (String c s)) eqn:E.
    + intros [= <- <-]. simpl. lia.
    + destruct (find_sep sep s) as [[a0 b0]|] eqn:E'; [|done].
      intros [= <- <-] Hs. destruct a' as [|c' a'].
      * rewrite append_nil_l in Hs.
        rewrite Hs, strip_prefix_append in E. done.
      * rewrite append_cons in Hs. injection Hs as -> Hs. simpl.
        specialize (IH a0 a' eq_refl Hs). lia.
Qed.

Lemma split_length_ge_2 (sep x y : string) :
  sep <> "" -> exists p0 p1 ps, split sep (x +:+ sep +:+ y) = p0 :: p1 :: ps.
Proof.
  intros Hne. destruct (find_sep_present sep x y) as [[a b] Hf].
  rewrite (find_sep_split _ _ _ _ Hne Hf).
  pose proof (split_go_nonempty sep 0 b) as Hb. unfold split.
  destruct (split_go sep 0 b) as [|p1 ps]; [done|]. by exists a, p1, ps.
Qed.

(** ** The result monad and loops *)

Lemma bind_Ok {A B : Type} (m : result A) (f : A -> result B) (b : B) :
  m ≫= f = Ok b <-> exists a, m = Ok a /\ f a = Ok b.
Proof.
  destruct m as [a|e]; simpl; split.
  - intros Hf. by exists a.
  - by intros (a' & [= <-] & Hf).
  - done.
  - by intros (a' & ? & _).
Qed.

Lemma fmap_Ok {A B : Type} (m : result A) (f : A -> B) (b : B) :
  f <$> m = Ok b <-> exists a, m = Ok a /\ b = f a.
Proof.
  destruct m as [a|e]; simpl; split.
  - intros [= <-]. by exists a.
  - by intros (a' & [= <-] & ->).
  - done.
  - by intros (a' & ? & _).
Qed.

(** Take apart a hypothesis that says a sequence of binds returned. *)
Ltac inv_bind H :=
  repeat match type of H with
         | mbind _ _ = Ok _ =>
             let x := fresh "x" in
             let Hx := fresh "Hx" in
             apply bind_Ok in H as (x & Hx & H)
         | fmap _ _ = Ok _ =>
             let x := fresh "x" in
             let Hx := fresh "Hx" in
             apply fmap_Ok in H as (x & Hx & H)
         | Ok _ = Ok _ => injection H as H
         end.

Lemma for_each_Forall2 {A B : Type} (f : A -> result B) xs ys :
  for_each f xs = Ok ys <-> Forall2 (fun x y => f x = Ok y) xs ys.
Proof.
  revert ys. induction xs as [|x xs IH]; intros ys; simpl.
  - split; [intros [= <-]; constructor | by intros ->%Forall2_nil_inv_l].
  - split.
    + intros Hf. inv_bind Hf. subst ys. constructor; [done | by apply IH].
    + intros (y & ys' & Hy & Hys & ->)%Forall2_cons_inv_l.
      rewrite Hy. simpl. apply IH in Hys. by rewrite Hys.
Qed.

Lemma for_each_length {A B : Type} (f : A -> result B) xs ys :
  for_each f xs = Ok ys -> length ys = length xs.
Proof. intros Hf%for_each_Forall2. symmetry. by eapply Forall2_length. Qed.

Lemma for_each_total {A B : Type} (f : A -> result B) xs :
  Forall (fun x => exists y, f x = Ok y) xs -> exists ys, for_each f xs = Ok ys.
Proof.
  induction 1 as [|x xs [y Hy] _ [ys Hys]]; simpl; [by eexists|].
  rewrite Hy, Hys. by eexists.
Qed.

Lemma for_each_fmap {A B : Type} (f : A -> result B) (g : B -> A) ys :
  (forall y, f (g y) = Ok y) -> for_each f (g <$> ys) = Ok ys.
Proof.
  intros Hfg. induction ys as [|y ys IH]; csimpl; [done|].
  by rewrite Hfg, IH.
Qed.

Lemma for_each_ext {A B : Type} (f g : A -> result B) xs :
  (forall x, f x = g x) -> for_each f xs = for_each g xs.
Proof.
  intros Hfg. induction xs as [|x xs IH]; simpl; [done|].
  by rewrite Hfg, IH.
Qed.

Lemma enumerate_from_lookup {A : Type} (start : nat) (xs : list A) i :
  enumerate_from start xs !! i = (fun x => (start + i, x)) <$> xs !! i.
Proof.
  revert start i. induction xs as [|x xs IH]; intros start [|i]; simpl;
    try done.
  - by rewrite Nat.add_0_r.
  - rewrite IH. by replace (S start + i) with (start + S i) by lia.
Qed.

Lemma enumerate_from_length {A : Type} (start : nat) (xs : list A) :
  length (enumerate_from start xs) = length xs.
Proof.
  revert start. induction xs as [|x xs IH]; intros start; simpl; [done|].
  by rewrite IH.
Qed.

(** ** Construction of an adapter *)

Lemma ds_map_Forall2 function ds rows :
  ds_map function ds = Ok rows ->
  Forall2 (fun ex row => exists upd, function ex = Ok upd /\ row = upd ∪ ex)
          ds rows.
Proof.
  unfold ds_map. intros Hf%for_each_Forall2.
  eapply Forall2_impl; [exact Hf|]. intros ex row Hrow. simpl in Hrow.
  inv_bind Hrow. subst. by eexists.
Qed.

Section Construction.
Context `{NumpyRng}.
Variable load_dataset : string -> result DatasetDict.

Lemma DataLoader_init_kind d dl :
  DataLoader_init load_dataset d = Ok dl -> kind dl = d.
Proof. unfold DataLoader_init. intros Hi. inv_bind Hi. by subst dl. Qed.

Lemma DataLoader_init_initialised d dl :
  DataLoader_init load_dataset d = Ok dl -> initialised dl.
Proof.
  unfold DataLoader_init. intros Hi. inv_bind Hi. subst dl.
  unfold initialised, train_pool, eval_pool. simpl. split.
  - eapply Forall2_impl; [by apply ds_map_Forall2|].
    intros ex row (upd & Hupd & ->). unfold _prompt in Hupd.
    inv_bind Hupd. subst upd. by eexists.
  - eapply Forall2_impl; [by apply ds_map_Forall2|].
    intros ex row (upd & Hupd & ->). unfold _eval_prompt in Hupd.
    inv_bind Hupd. subst upd. by eexists.
Qed.

(** The rotten tomatoes pools carry the sentiment of every record: the
    string its label maps to. *)
Lemma rotten_tomatoes_sentiment dl :
  DataLoader_init load_dataset RottenTomatoes = Ok dl ->
  Forall (fun ex => exists label,
            ex !! "label" = Some label /\
            ex !! "sentiment"
            = Some (VStr (match label with
                          | VInt 1 => "positive"
                          | _ => "negative"
                          end)))
         (eval_pool dl).
Proof.
  unfold DataLoader_init. intros Hi. inv_bind Hi. subst dl.
  unfold eval_pool. simpl.
  match goal with
  | Hmap : dd_map _ _ = Ok _ |- _ =>
      unfold dd_map in Hmap; inv_bind Hmap; subst
  end.
  simpl.
  match goal with
  | Hte : ds_map _ (dd_test _) = Ok _ |- _ =>
      apply ds_map_Forall2 in Hte; apply Forall2_Forall_r with (1 := Hte)
  end.
  apply Forall_forall. intros ex _ row (upd & Hupd & ->).
  unfold _label_to_sentiment, getitem in Hupd.
  destruct (ex !! "label") as [label|] eqn:Hlabel; [|done].
  simpl in Hupd. injection Hupd as <-. exists label. split.
  - rewrite lookup_union_r; [done|]. by apply lookup_singleton_ne.
  - apply lookup_union_Some_l, lookup_singleton_eq.
Qed.

(** Whatever [PromptLoader.__init__] assigned is an initialised
    adapter. *)
Lemma PromptLoader_init_initialised incontext eval pl :
  PromptLoader_init load_dataset incontext eval = Ok pl ->
  (forall es, eval_set pl = Some es -> initialised es) /\
  (forall ic, incontext_set pl = Some ic -> initialised ic).
Proof.
  unfold PromptLoader_init. intros Hi. inv_bind Hi. subst pl. simpl.
  assert (forall es, x = Some es -> initialised es) as Hes.
  { intros es ->.
    repeat match type of Hx with
           | (if ?b then _ else _) = _ => destruct b
           end; inv_bind Hx; try done;
      injection Hx as ->; by eapply DataLoader_init_initialised. }
  split; [done|]. intros ic ->.
  repeat match type of Hx0 with
         | (if ?b then _ else _) = _ => destruct b
         end; inv_bind Hx0; try done;
    try (injection Hx0 as ->; by eapply DataLoader_init_initialised).
  injection Hx0 as ->. destruct x as [es|]; [|done].
  apply Hes. simpl in *. congruence.
Qed.
End Construction.

(** ** Fragments and their separator *)

Lemma separator_nonempty d : separator d <> "".
Proof. by destruct d. Qed.

(** Every fragment is an input part, the separator, and a target part. *)
Lemma prompt_text_shape d ex f :
  prompt_text d ex = Ok f ->
  exists inp tgt, f = inp +:+ separator d +:+ tgt.
Proof.
  destruct d; simpl; intros Hf; unfold getstr in Hf; inv_bind Hf; subst f.
  5: { match goal with
       | |- exists _ _, ?p +:+ ?a +:+ ?s +:+ ?b +:+ _ +:+ ?t = _ =>
           exists (p +:+ a +:+ s +:+ b), t
       end.
       by rewrite !append_assoc. }
  all: match goal with
       | |- exists _ _, ?p +:+ ?a +:+ _ +:+ ?t = _ => exists (p +:+ a), t
       end; by rewrite append_assoc.
Qed.

Lemma example_turns_pair d f ts :
  example_turns d (VStr f) = Ok ts <-> turn_pair d f ts.
Proof.
  unfold example_turns, turn_pair. simpl. unfold index. split.
  - destruct (split (separator d) f) as [|p0 [|p1 ps]]; simpl; try done.
    intros [= <-]. by exists p0, p1, ps.
  - intros (p0 & p1 & ps & -> & ->). done.
Qed.

Lemma example_turns_total d ex f :
  prompt_text d ex = Ok f -> exists ts, example_turns d (VStr f) = Ok ts.
Proof.
  intros (inp & tgt & ->)%prompt_text_shape.
  destruct (split_length_ge_2 (separator d) inp tgt (separator_nonempty d))
    as (p0 & p1 & ps & Hs).
  eexists. apply example_turns_pair. by exists p0, p1, ps.
Qed.

(** ** The methods of an initialised adapter *)

Lemma index_Some {A : Type} (xs : list A) i x :
  xs !! i = Some x -> index xs i = Ok x.
Proof. unfold index. by intros ->. Qed.

Lemma getitem_Some (ex : gmap string value) key v :
  ex !! key = Some v -> getitem ex key = Ok v.
Proof. unfold getitem. by intros ->. Qed.

Section Methods.
Context `{NumpyRng}.

Lemma sample_indices_Ok n k seed :
  k <= n -> (0 <= seed)%Z ->
  sample_indices n k seed = Ok (draw (seed_state seed) n k).
Proof.
  intros Hk Hseed. unfold sample_indices, default_rng, rng_choice.
  destruct (Z.ltb_spec seed 0); [lia|]. simpl.
  destruct (Nat.ltb_spec n k); [lia | done].
Qed.

Lemma sample_indices_too_many n k seed :
  n < k -> sample_indices n k seed = Err ValueError.
Proof.
  intros Hk. unfold sample_indices, default_rng, rng_choice.
  destruct (seed <? 0)%Z; [done|]. simpl.
  destruct (Nat.ltb_spec n k); [done | lia].
Qed.

(** Both builders start by sampling. *)
Lemma incontext_prompt_sample self k seed :
  k <> 0 ->
  incontext_prompt self k seed =
    idxs ← sample_indices (length (train self)) k seed;
    selected ← ds_select idxs (train self);
    examples ← ds_column "prompt" selected;
    lines ← for_each as_str examples;
    Ok (PROMPT_PREFIX (kind self) +:+ join nl lines +:+ nl).
Proof.
  intros Hk. unfold incontext_prompt, sample_indices.
  destruct (Nat.eqb_spec k 0); [done|]. by destruct (default_rng seed).
Qed.

Lemma incontext_prompt_iterative_sample self k seed :
  k <> 0 ->
  incontext_prompt_iterative self k seed =
    idxs ← sample_indices (length (train self)) k seed;
    selected ← ds_select idxs (train self);
    examples ← ds_column "prompt" selected;
    out ← for_each (example_turns (kind self)) examples;
    Ok (concat out).
Proof.
  intros Hk. unfold incontext_prompt_iterative, sample_indices.
  destruct (Nat.eqb_spec k 0); [done|]. by destruct (default_rng seed).
Qed.

(** Selecting rows inside the training split and reading their
    ["prompt"] column gives the fragments of the selected records. *)
Lemma selected_prompts dl idxs :
  initialised dl ->
  Forall (fun j => j < length (train dl)) idxs ->
  exists rows frags,
    ds_select idxs (train dl) = Ok rows /\
    ds_column "prompt" rows = Ok (VStr <$> frags) /\
    Forall2 (fragment_of dl) idxs frags.
Proof.
  intros [Htrain _]. induction 1 as [|j idxs Hj _ IH].
  - by exists [], [].
  - destruct IH as (rows & frags & Hsel & Hcol & Hfr).
    apply lookup_lt_is_Some_2 in Hj as [row Hrow].
    destruct (Forall2_lookup_r _ _ _ _ _ Htrain Hrow)
      as (ex & Hex & f & Hf & ->).
    exists (({[ "prompt" := VStr f ]} ∪ ex) :: rows), (f :: frags).
    unfold ds_select in *. simpl. rewrite (index_Some _ _ _ Hrow). simpl.
    rewrite Hsel. simpl. split; [done|]. split.
    + unfold ds_column in *. simpl.
      rewrite (getitem_Some _ _ (VStr f)).
      * simpl. by rewrite Hcol.
      * apply lookup_union_Some_l, lookup_singleton_eq.
    + constructor; [by exists ex | done].
Qed.

Lemma incontext_prompt_Ok dl k seed :
  initialised dl -> 0 < k <= length (train dl) -> (0 <= seed)%Z ->
  exists frags,
    Forall2 (fragment_of dl) (draw (seed_state seed) (length (train dl)) k)
            frags /\
    incontext_prompt dl k seed
      = Ok (PROMPT_PREFIX (kind dl) +:+ join nl frags +:+ nl).
Proof.
  intros Hdl [Hk0 Hkn] Hseed.
  destruct (selected_prompts dl (draw (seed_state seed) (length (train dl)) k)
              Hdl) as (rows & frags & Hsel & Hcol & Hfr).
  { apply Forall_forall. intros j. by apply draw_range. }
  exists frags. split; [done|].
  rewrite incontext_prompt_sample by lia.
  rewrite sample_indices_Ok by done. simpl. rewrite Hsel. simpl.
  rewrite Hcol. simpl. by rewrite for_each_fmap.
Qed.

Lemma incontext_prompt_iterative_Ok dl k seed :
  initialised dl -> 0 < k <= length (train dl) -> (0 <= seed)%Z ->
  exists frags pairs,
    Forall2 (fragment_of dl) (draw (seed_state seed) (length (train dl)) k)
            frags /\
    Forall2 (turn_pair (kind dl)) frags pairs /\
    incontext_prompt_iterative dl k seed = Ok (concat pairs).
Proof.
  intros Hdl [Hk0 Hkn] Hseed.
  destruct (selected_prompts dl (draw (seed_state seed) (length (train dl)) k)
              Hdl) as (rows & frags & Hsel & Hcol & Hfr).
  { apply Forall_forall. intros j. by apply draw_range. }
  destruct (for_each_total (example_turns (kind dl)) (VStr <$> frags))
    as [pairs Hpairs].
  { apply Forall_fmap, Forall_forall. intros f Hf. simpl.
    apply list_elem_of_lookup in Hf as [i Hi].
    destruct (Forall2_lookup_r _ _ _ _ _ Hfr Hi) as (j & _ & ex & _ & Hex).
    by eapply example_turns_total. }
  exists frags, pairs. split; [done|]. split.
  - apply for_each_Forall2 in Hpairs. apply Forall2_fmap_l in Hpairs.
    eapply Forall2_impl; [exact Hpairs|]. intros f ts. simpl.
    by apply example_turns_pair.
  - rewrite incontext_prompt_iterative_sample by lia.
    rewrite sample_indices_Ok by done. simpl. rewrite Hsel. simpl.
    rewrite Hcol. simpl. by rewrite Hpairs.
Qed.

(** The generator over the evaluation pool yields the query of every
    record, in pool order. *)
Lemma eval_prompt_Ok es :
  initialised es ->
  exists qs,
    eval_prompt es = Ok qs /\
    Forall2 (fun ex q => eval_prompt_text (kind es) ex = Ok q)
            (eval_pool es) qs.
Proof.
  intros [_ Htest]. unfold eval_prompt.
  induction Htest as [|ex row pool rows (q & Hq & ->) _ (qs & Hqs & HF)].
  - by exists [].
  - exists (q :: qs). split; [|by constructor].
    apply bind_Ok in Hqs as (col & Hcol & Hstr).
    unfold ds_column in *. simpl.
    rewrite (getitem_Some _ _ (VStr q))
      by apply lookup_union_Some_l, lookup_singleton_eq.
    simpl. rewrite Hcol. simpl. by rewrite Hstr.
Qed.

Lemma reference_column_not_eval_prompt d :
  reference_column d <> "eval_prompt".
Proof. by destruct d. Qed.

(** The references are the target cells of the evaluation records, in
    pool order. *)
Lemma load_test_reference_Ok es :
  initialised es ->
  Forall (fun ex => is_Some (ex !! reference_column (kind es)))
         (eval_pool es) ->
  exists refs,
    load_test_reference es = Ok refs /\
    Forall2 (fun ex r => ex !! reference_column (kind es) = Some r)
            (eval_pool es) refs.
Proof.
  intros [_ Htest] Hcol. unfold load_test_reference.
  induction Htest as [|ex row pool rows (q & Hq & ->) _ IH].
  - by exists [].
  - apply Forall_cons in Hcol as [[r Hr] Hcol].
    destruct (IH Hcol) as (refs & Hrefs & HF).
    exists (r :: refs). split; [|by constructor].
    unfold ds_column in *. simpl.
    rewrite (getitem_Some _ _ r).
    + simpl. by rewrite Hrefs.
    + rewrite lookup_union_r; [done|].
      apply lookup_singleton_ne, not_eq_sym,
        reference_column_not_eval_prompt.
Qed.
End Methods.

Lemma demo_pl_init :
  PromptLoader_init demo_hub "gigaword" "rotten_tomatoes" = Ok demo_pl.
Proof. vm_compute. reflexivity. Qed.

Lemma scenario_pl_init :
  PromptLoader_init scenario_hub "rotten_tomatoes" "rotten_tomatoes"
  = Ok scenario_pl.
Proof. vm_compute. reflexivity. Qed.

(** ** The prompt lists of a loader *)

Section Prompts.
Context `{NumpyRng}.
Variable load_dataset : string -> result DatasetDict.

(** Without in-context examples both builders return at once. *)
Lemma incontext_prompt_zero self seed : incontext_prompt self 0 seed = Ok "".
Proof. reflexivity. Qed.

Lemma incontext_prompt_iterative_zero self seed :
  incontext_prompt_iterative self 0 seed = Ok [].
Proof. reflexivity. Qed.

(** The body of a loop over positions that returns at every position. *)
Lemma for_each_positions {A B : Type} (body : nat -> result B)
    (k : B -> A -> B) (xs : list A) :
  (forall i, i < length xs -> exists b, body i = Ok b) ->
  exists ys,
    for_each (fun '(i, x) => b ← body i; Ok (k b x)) (enumerate xs) = Ok ys /\
    length ys = length xs /\
    forall i x, xs !! i = Some x ->
      exists b, body i = Ok b /\ ys !! i = Some (k b x).
Proof.
  intros Hbody.
  set (g := fun i x => match body i with Ok b => Ok (k b x) | Err e => Err e end).
  destruct (for_each_total (fun '(i, x) => g i x) (enumerate xs))
    as [ys Hys].
  { apply Forall_forall. intros [i x] [j Hj]%list_elem_of_lookup.
    unfold enumerate in Hj. rewrite enumerate_from_lookup in Hj.
    destruct (xs !! j) as [x'|] eqn:Hx; [|done]. injection Hj as <- <-.
    destruct (Hbody j) as [b Hb]; [by eapply lookup_lt_Some|].
    exists (k b x'). unfold g. by rewrite Hb. }
  assert (for_each (fun '(i, x) => b ← body i; Ok (k b x)) (enumerate xs)
          = Ok ys) as Hys'.
  { rewrite <- Hys. clear. generalize (enumerate xs). intros l.
    induction l as [|[i x] l IH]; simpl; [done|]. rewrite IH.
    unfold g. by destruct (body i). }
  exists ys. split; [done|]. split.
  { apply for_each_length in Hys. unfold enumerate in Hys.
    by rewrite enumerate_from_length in Hys. }
  intros i x Hx. apply for_each_Forall2 in Hys.
  assert (enumerate xs !! i = Some (i, x)) as Hi.
  { unfold enumerate. by rewrite enumerate_from_lookup, Hx. }
  destruct (Forall2_lookup_l _ _ _ _ _ Hys Hi) as (y & Hy & Hg).
  unfold g in Hg. destruct (body i) as [b|]; [|done].
  injection Hg as <-. by exists b.
Qed.

Lemma incontext_prompt_returns ic k seed :
  initialised ic -> k <= length (train ic) -> (0 <= seed)%Z ->
  exists pre, incontext_prompt ic k seed = Ok pre.
Proof.
  intros Hic Hk Hseed. destruct k as [|k]; [by eexists|].
  destruct (incontext_prompt_Ok ic (S k) seed) as (frags & _ & ->);
    [done | lia | done | by eexists].
Qed.

Lemma incontext_prompt_iterative_returns ic k seed :
  initialised ic -> k <= length (train ic) -> (0 <= seed)%Z ->
  exists turns, incontext_prompt_iterative ic k seed = Ok turns.
Proof.
  intros Hic Hk Hseed. destruct k as [|k]; [by eexists|].
  destruct (incontext_prompt_iterative_Ok ic (S k) seed)
    as (frags & pairs & _ & _ & ->); [done | lia | done | by eexists].
Qed.

(** [load_prompt] returns one prompt per evaluation record, in pool
    order: what [incontext_prompt] returns for the position, followed by
    the query of the record. *)
Lemma load_prompt_lookup incontext eval pl ic es k :
  PromptLoader_init load_dataset incontext eval = Ok pl ->
  incontext_set pl = Some ic ->
  eval_set pl = Some es ->
  k <= length (train ic) ->
  exists prompts,
    load_prompt pl k = Ok prompts /\
    length prompts = length (eval_pool es) /\
    forall i ex, eval_pool es !! i = Some ex ->
      exists q pre,
        eval_prompt_text (kind es) ex = Ok q /\
        incontext_prompt ic k (Z.of_nat i) = Ok pre /\
        prompts !! i = Some (pre +:+ q).
Proof.
  intros Hinit Hic Hes Hk.
  destruct (PromptLoader_init_initialised _ _ _ _ Hinit) as [Hes' Hic'].
  destruct (eval_prompt_Ok es (Hes' es Hes)) as (qs & Hqs & HF).
  destruct (for_each_positions
              (fun i => incontext_prompt ic k (Z.of_nat i))
              (fun pre q => pre +:+ q) qs) as (ps & Hps & Hlen & Hlook).
  { intros i _. apply incontext_prompt_returns; [by apply Hic' | done | lia]. }
  exists ps. split; [|split].
  - unfold load_prompt. rewrite Hes. simpl. rewrite Hqs. simpl.
    rewrite <- Hps. apply for_each_ext. intros [i q]. by rewrite Hic.
  - rewrite Hlen. symmetry. by eapply Forall2_length.
  - intros i ex Hex.
    destruct (Forall2_lookup_l _ _ _ _ _ HF Hex) as (q & Hq & Hex').
    destruct (Hlook i q Hq) as (pre & Hpre & Hp). by exists q, pre.
Qed.

Lemma load_prompt_iterative_lookup incontext eval pl ic es k :
  PromptLoader_init load_dataset incontext eval = Ok pl ->
  incontext_set pl = Some ic ->
  eval_set pl = Some es ->
  k <= length (train ic) ->
  exists prompts,
    load_prompt_iterative pl k = Ok prompts /\
    length prompts = length (eval_pool es) /\
    forall i ex, eval_pool es !! i = Some ex ->
      exists q turns,
        eval_prompt_text (kind es) ex = Ok q /\
        incontext_prompt_iterative ic k (Z.of_nat i) = Ok turns /\
        prompts !! i = Some (turns ++ [Turn "user" q]).
Proof.
  intros Hinit Hic Hes Hk.
  destruct (PromptLoader_init_initialised _ _ _ _ Hinit) as [Hes' Hic'].
  destruct (eval_prompt_Ok es (Hes' es Hes)) as (qs & Hqs & HF).
  destruct (for_each_positions
              (fun i => incontext_prompt_iterative ic k (Z.of_nat i))
              (fun turns q => turns ++ [Turn "user" q]) qs)
    as (ps & Hps & Hlen & Hlook).
  { intros i _.
    apply incontext_prompt_iterative_returns; [by apply Hic' | done | lia]. }
  exists ps. split; [|split].
  - unfold load_prompt_iterative. rewrite Hes. simpl. rewrite Hqs. simpl.
    rewrite <- Hps. apply for_each_ext. intros [i q]. by rewrite Hic.
  - rewrite Hlen. symmetry. by eapply Forall2_length.
  - intros i ex Hex.
    destruct (Forall2_lookup_l _ _ _ _ _ HF Hex) as (q & Hq & Hex').
    destruct (Hlook i q Hq) as (pre & Hpre & Hp). by exists q, pre.
Qed.
(** What the builders do when asked for more than the pool holds. *)
Lemma incontext_prompt_too_many ic k seed :
  length (train ic) < k -> incontext_prompt ic k seed = Err ValueError.
Proof.
  intros Hk. rewrite incontext_prompt_sample by lia.
  by rewrite sample_indices_too_many.
Qed.

Lemma incontext_prompt_iterative_too_many ic k seed :
  length (train ic) < k ->
  incontext_prompt_iterative ic k seed = Err ValueError.
Proof.
  intros Hk. rewrite incontext_prompt_iterative_sample by lia.
  by rewrite sample_indices_too_many.
Qed.

Lemma load_prompt_oversized incontext eval pl ic es k :
  PromptLoader_init load_dataset incontext eval = Ok pl ->
  incontext_set pl = Some ic ->
  eval_set pl = Some es ->
  length (train ic) < k ->
  eval_pool es <> [] ->
  load_prompt pl k = Err ValueError /\
  load_prompt_iterative pl k = Err ValueError.
Proof.
  intros Hinit Hic Hes Hk Hpool.
  destruct (PromptLoader_init_initialised _ _ _ _ Hinit) as [Hes' _].
  destruct (eval_prompt_Ok es (Hes' es Hes)) as (qs & Hqs & HF).
  destruct qs as [|q qs].
  { apply Forall2_nil_inv_r in HF. done. }
  unfold load_prompt, load_prompt_iterative. rewrite Hes. simpl.
  rewrite Hqs. simpl. rewrite Hic. simpl.
  by rewrite incontext_prompt_too_many, incontext_prompt_iterative_too_many.
Qed.

(** Over an evaluation pool without rows the loops of the row model have
    no position to visit.  The library keeps no column for such a split,
    so the properties of the loaders are stated for a pool with a record;
    this case only closes the case analysis of the lemmas below. *)
Lemma load_prompt_empty_pool incontext eval pl es k :
  PromptLoader_init load_dataset incontext eval = Ok pl ->
  eval_set pl = Some es ->
  eval_pool es = [] ->
  load_prompt pl k = Ok [] /\ load_prompt_iterative pl k = Ok [].
Proof.
  intros Hinit Hes Hpool.
  destruct (PromptLoader_init_initialised _ _ _ _ Hinit) as [Hes' _].
  destruct (eval_prompt_Ok es (Hes' es Hes)) as (qs & Hqs & HF).
  rewrite Hpool in HF. apply Forall2_nil_inv_l in HF as ->.
  unfold load_prompt, load_prompt_iterative. rewrite Hes. simpl.
  by rewrite Hqs.
Qed.

(** Whatever list [load_prompt] returns, it is the one described by
    [load_prompt_lookup]. *)
Lemma load_prompt_returned incontext eval pl ic es k prompts :
  PromptLoader_init load_dataset incontext eval = Ok pl ->
  incontext_set pl = Some ic ->
  eval_set pl = Some es ->
  load_prompt pl k = Ok prompts ->
  length prompts = length (eval_pool es) /\
  forall i ex, eval_pool es !! i = Some ex ->
    exists q pre,
      eval_prompt_text (kind es) ex = Ok q /\
      incontext_prompt ic k (Z.of_nat i) = Ok pre /\
      prompts !! i = Some (pre +:+ q).
Proof.
  intros Hinit Hic Hes Hret.
  destruct (le_lt_dec k (length (train ic))) as [Hk|Hk].
  - destruct (load_prompt_lookup _ _ _ _ _ _ Hinit Hic Hes Hk)
      as (prompts' & Hprompts & Hlen & Hlook).
    rewrite Hret in Hprompts. by injection Hprompts as <-.
  - destruct (eval_pool es) as [|ex pool] eqn:Hpool.
    + destruct (load_prompt_empty_pool _ _ _ _ k Hinit Hes Hpool)
        as [Hempty _].
      rewrite Hret in Hempty. injection Hempty as ->. split; [done|].
      intros i ex. by rewrite lookup_nil.
    + destruct (load_prompt_oversized _ _ _ _ _ _ Hinit Hic Hes Hk)
        as [Herr _]; [by rewrite Hpool|].
      by rewrite Hret in Herr.
Qed.

Lemma load_prompt_iterative_returned incontext eval pl ic es k prompts :
  PromptLoader_init load_dataset incontext eval = Ok pl ->
  incontext_set pl = Some ic ->
  eval_set pl = Some es ->
  load_prompt_iterative pl k = Ok prompts ->
  length prompts = length (eval_pool es) /\
  forall i ex, eval_pool es !! i = Some ex ->
    exists q turns,
      eval_prompt_text (kind es) ex = Ok q /\
      incontext_prompt_iterative ic k (Z.of_nat i) = Ok turns /\
      prompts !! i = Some (turns ++ [Turn "user" q]).
Proof.
  intros Hinit Hic Hes Hret.
  destruct (le_lt_dec k (length (train ic))) as [Hk|Hk].
  - destruct (load_prompt_iterative_lookup _ _ _ _ _ _ Hinit Hic Hes Hk)
      as (prompts' & Hprompts & Hlen & Hlook).
    rewrite Hret in Hprompts. by injection Hprompts as <-.
  - destruct (eval_pool es) as [|ex pool] eqn:Hpool.
    + destruct (load_prompt_empty_pool _ _ _ _ k Hinit Hes Hpool)
        as [_ Hempty].
      rewrite Hret in Hempty. injection Hempty as ->. split; [done|].
      intros i ex. by rewrite lookup_nil.
    + destruct (load_prompt_oversized _ _ _ _ _ _ Hinit Hic Hes Hk)
        as [_ Herr]; [by rewrite Hpool|].
      by rewrite Hret in Herr.
Qed.

(** The layout of a returned flat prompt, for [0 < k]. *)
Lemma load_prompt_layout incontext eval pl ic es k prompts :
  PromptLoader_init load_dataset incontext eval = Ok pl ->
  incontext_set pl = Some ic ->
  eval_set pl = Some es ->
  0 < k ->
  load_prompt pl k = Ok prompts ->
  length prompts = length (eval_pool es) /\
  forall i ex, eval_pool es !! i = Some ex ->
    exists q frags,
      eval_prompt_text (kind es) ex = Ok q /\
      Forall2 (fragment_of ic)
              (draw (seed_state (Z.of_nat i)) (length (train ic)) k)
              frags /\
      length frags = k /\
      prompts !! i
        = Some (PROMPT_PREFIX (kind ic) +:+ join nl frags +:+ nl +:+ q).
Proof.
  intros Hinit Hic Hes Hk0 Hret.
  destruct (load_prompt_returned _ _ _ _ _ _ _ Hinit Hic Hes Hret)
    as [Hlen Hlook].
  split; [done|]. intros i ex Hex.
  destruct (Hlook i ex Hex) as (q & pre & Hq & Hpre & Hp).
  destruct (le_lt_dec k (length (train ic))) as [Hk|Hk].
  2: { by rewrite incontext_prompt_too_many in Hpre. }
  destruct (PromptLoader_init_initialised _ _ _ _ Hinit) as [_ Hic'].
  destruct (incontext_prompt_Ok ic k (Z.of_nat i) (Hic' ic Hic))
    as (frags & Hfr & Hpre'); [lia | lia |].
  exists q, frags. split; [done|]. split; [done|]. split.
  - apply Forall2_length in Hfr. rewrite <- Hfr. by apply draw_length.
  - rewrite Hp. rewrite Hpre' in Hpre. injection Hpre as <-.
    by rewrite !append_assoc.
Qed.

(** The layout of a returned turn list: for [0 < k] the turn pairs of
    the fragments sampled with seed [i], then the user turn with the
    query of record [i]; for [k = 0] that last turn alone. *)
Lemma load_prompt_iterative_layout incontext eval pl ic es k prompts :
  PromptLoader_init load_dataset incontext eval = Ok pl ->
  incontext_set pl = Some ic ->
  eval_set pl = Some es ->
  load_prompt_iterative pl k = Ok prompts ->
  length prompts = length (eval_pool es) /\
  forall i ex, eval_pool es !! i = Some ex ->
    exists q frags pairs,
      eval_prompt_text (kind es) ex = Ok q /\
      (k = 0 -> frags = []) /\
      (0 < k ->
       Forall2 (fragment_of ic)
               (draw (seed_state (Z.of_nat i)) (length (train ic)) k)
               frags) /\
      Forall2 (turn_pair (kind ic)) frags pairs /\
      prompts !! i = Some (concat pairs ++ [Turn "user" q]).
Proof.
  intros Hinit Hic Hes Hret.
  destruct (load_prompt_iterative_returned _ _ _ _ _ _ _ Hinit Hic Hes Hret)
    as [Hlen Hlook].
  split; [done|]. intros i ex Hex.
  destruct (Hlook i ex Hex) as (q & ts & Hq & Hts & Hp).
  destruct (PromptLoader_init_initialised _ _ _ _ Hinit) as [_ Hic'].
  destruct k as [|k].
  - injection Hts as <-. exists q, [], []. split; [done|].
    split; [done|]. split; [lia|]. split; [constructor | done].
  - destruct (le_lt_dec (S k) (length (train ic))) as [Hk|Hk].
    2: { by rewrite incontext_prompt_iterative_too_many in Hts. }
    destruct (incontext_prompt_iterative_Ok ic (S k) (Z.of_nat i)
                (Hic' ic Hic)) as (frags & pairs & Hfr & Hpairs & Hts');
      [lia | lia |].
    rewrite Hts' in Hts. injection Hts as <-.
    exists q, frags, pairs. split; [done|]. split; [lia|]. by split.
Qed.

(** The returned references are the target cells of the evaluation
    records. *)
Lemma load_testdata_returned incontext eval pl es refs :
  PromptLoader_init load_dataset incontext eval = Ok pl ->
  eval_set pl = Some es ->
  load_testdata pl = Ok refs ->
  Forall2 (fun ex r => ex !! reference_column (kind es) = Some r)
          (eval_pool es) refs.
Proof.
  intros Hinit Hes. unfold load_testdata. rewrite Hes. simpl.
  unfold load_test_reference, ds_column. intros Hret%for_each_Forall2.
  destruct (PromptLoader_init_initialised _ _ _ _ Hinit) as [Hes' _].
  destruct (Hes' es Hes) as [_ Htest]. revert refs Hret.
  induction Htest as [|ex row pool rows (q & Hq & ->) _ IH]; intros refs Hret.
  - apply Forall2_nil_inv_l in Hret as ->. constructor.
  - apply Forall2_cons_inv_l in Hret as (r & refs' & Hr & Hrest & ->).
    constructor; [|by apply IH].
    unfold getitem in Hr. rewrite lookup_union_r in Hr.
    + by destruct (ex !! reference_column (kind es)); [injection Hr as -> |].
    + apply lookup_singleton_ne, not_eq_sym,
        reference_column_not_eval_prompt.
Qed.
End Prompts.

(** ** Splitting a fragment *)

Lemma find_sep_at_sep (sep y : string) :
  find_sep sep (sep +:+ y) = Some ("", y).
Proof.
  destruct (sep +:+ y) eqn:E; simpl; by rewrite <- E, strip_prefix_append.
Qed.

(** Where the leftmost occurrence lies does not depend on what follows
    it. *)
Lemma find_sep_change_rest (sep a b b' : string) :
  find_sep sep (a +:+ sep +:+ b) = Some (a, b) ->
  find_sep sep (a +:+ sep +:+ b') = Some (a, b').
Proof.
  induction a as [|c a IH].
  - intros _. rewrite append_nil_l. apply find_sep_at_sep.
  - assert (forall r, String c a +:+ sep +:+ r = (String c a +:+ sep) +:+ r)
      as Hassoc by (intros r; by rewrite append_assoc).
    assert (forall r,
      strip_prefix sep (String c (a +:+ sep +:+ r))
      = (fun t => t +:+ r) <$> strip_prefix sep (String c a +:+ sep))
      as Hhead.
    { intros r. rewrite <- append_cons, Hassoc.
      apply strip_prefix_extend. rewrite length_append. lia. }
    rewrite !append_cons. simpl find_sep. rewrite !Hhead.
    destruct (strip_prefix sep (String c a +:+ sep)); simpl; [done|].
    destruct (find_sep sep (a +:+ sep +:+ b)) as [[a0 b0]|] eqn:E; [|done].
    intros [= -> ->]. by rewrite IH.
Qed.

(** Two ways of cutting one string: the longer tail ends with the
    shorter one. *)
Lemma append_eq_suffix (a b c d : string) :
  a +:+ b = c +:+ d -> String.length a <= String.length c ->
  exists mid, b = mid +:+ d.
Proof.
  revert c. induction a as [|x a IH]; intros c Heq Hlen.
  - exists c. by rewrite append_nil_l in Heq.
  - destruct c as [|y c]; [simpl in Hlen; lia|].
    rewrite !append_cons in Heq. injection Heq as _ Heq.
    apply (IH c Heq). simpl in Hlen. lia.
Qed.

(** A string with two parts has exactly one occurrence of the
    separator. *)
Lemma split_two (sep f a b : string) :
  sep <> "" -> split sep f = [a; b] -> f = a +:+ sep +:+ b.
Proof.
  intros Hne Hs. destruct (find_sep sep f) as [[a' b']|] eqn:E.
  - rewrite (find_sep_split _ _ _ _ Hne E) in Hs. injection Hs as -> Hb.
    destruct (find_sep sep b') as [[a'' b'']|] eqn:E'.
    + rewrite (find_sep_split _ _ _ _ Hne E') in Hb. injection Hb as _ Hb.
      by apply split_go_nonempty in Hb.
    + rewrite (find_sep_None_split _ _ E') in Hb. injection Hb as ->.
      by apply find_sep_Some.
  - by rewrite (find_sep_None_split _ _ E) in Hs.
Qed.

(** ** Joined strings *)

Lemma join_cons_cons sep p q ps :
  join sep (p :: q :: ps) = p +:+ sep +:+ join sep (q :: ps).
Proof. reflexivity. Qed.

(** Every part is a substring of the joined string. *)
Lemma join_elem (sep f : string) (parts : list string) :
  f ∈ parts -> exists x y, join sep parts = x +:+ f +:+ y.
Proof.
  induction parts as [|p [|q ps] IH].
  - by intros ?%elem_of_nil.
  - intros ->%list_elem_of_singleton. exists "", "". simpl.
    by rewrite append_nil_l, append_nil_r.
  - rewrite join_cons_cons. intros [->|Hin]%elem_of_cons.
    + exists "", (sep +:+ join sep (q :: ps)). by rewrite append_nil_l.
    + destruct (IH Hin) as (x & y & ->).
      exists (p +:+ sep +:+ x), y. by rewrite !append_assoc.
Qed.

(** Two neighbouring parts appear with the separator between them. *)
Lemma join_adjacent (sep u v : string) (before after : list string) :
  exists x y,
    join sep (before ++ u :: v :: after) = x +:+ (u +:+ sep +:+ v) +:+ y.
Proof.
  induction before as [|p before (x & y & IH)].
  - destruct after as [|w after].
    + exists "", "". simpl. by rewrite append_nil_l, append_nil_r.
    + exists "", (sep +:+ join sep (w :: after)).
      simpl app. rewrite !join_cons_cons, append_nil_l.
      by rewrite !append_assoc.
  - exists (p +:+ sep +:+ x), y.
    destruct (before ++ u :: v :: after) as [|w rest] eqn:E.
    { by destruct before. }
    simpl app. rewrite E, join_cons_cons, IH. by rewrite !append_assoc.
Qed.

(** The contents of the turn pairs of a list of fragments. *)
Lemma turn_pair_contents d frags pairs f a b :
  Forall2 (turn_pair d) frags pairs ->
  f ∈ frags ->
  split (separator d) f = [a; b] ->
  exists before after,
    content <$> concat pairs = before ++ (command d +:+ a) :: b :: after.
Proof.
  intros HF Hin Hs. induction HF as [|f' ts frags pairs Hts HF IH].
  - by apply elem_of_nil in Hin.
  - destruct Hts as (p0 & p1 & ps & Hs' & ->).
    apply elem_of_cons in Hin as [->|Hin].
    + rewrite Hs in Hs'. injection Hs' as <- <- _.
      exists [], (content <$> concat pairs). reflexivity.
    + destruct (IH Hin) as (before & after & Heq).
      exists ((command d +:+ p0) :: p1 :: before), after.
      csimpl. by rewrite Heq.
Qed.

(** ** The scenario of the specification *)

(** A pool of one record leaves the sampler no choice. *)
Lemma draw_one `{NumpyRng} g : draw g 1 1 = [0].
Proof.
  pose proof (draw_length g 1 1 (le_n 1)) as Hlen.
  pose proof (draw_range g 1 1) as Hrange.
  destruct (draw g 1 1) as [|j [|j' l]]; try done.
  assert (j < 1) as Hj by (apply Hrange; [lia | set_solver]).
  by replace j with 0 by lia.
Qed.

Lemma scenario_flat `{NumpyRng} :
  load_prompt scenario_pl 1
  = Ok [ "Please read the following pairs of movie reviews and sentiment:"
         +:+ nl +:+ "review: A" +:+ nl +:+ "sentiment: positive" +:+ nl
         +:+ "Please perform a Sentiment Classification task. "
         +:+ "Given the following movie review, assign a sentiment label from ['negative', 'positive']. "
         +:+ "Return only the sentiment label without any other text."
         +:+ nl +:+ "B" ].
Proof.
  unfold load_prompt. cbn [eval_set scenario_pl getattr mbind result_bind].
  replace (eval_prompt scenario_rt)
    with (Ok [instruction RottenTomatoes +:+ "B"])
    by (vm_compute; reflexivity).
  cbn [enumerate enumerate_from for_each mbind result_bind incontext_set
       scenario_pl getattr].
  rewrite incontext_prompt_sample by lia.
  replace (length (train scenario_rt)) with 1 by (vm_compute; reflexivity).
  rewrite sample_indices_Ok by lia. rewrite draw_one.
  vm_compute. reflexivity.
Qed.

Lemma scenario_turns `{NumpyRng} :
  load_prompt_iterative scenario_pl 1
  = Ok [[ Turn "user"
            ("Please perform a Sentiment Classification task. "
             +:+ "review: A");
          Turn "assistant" "positive";
          Turn "user" (instruction RottenTomatoes +:+ "B") ]].
Proof.
  unfold load_prompt_iterative.
  cbn [eval_set scenario_pl getattr mbind result_bind].
  replace (eval_prompt scenario_rt)
    with (Ok [instruction RottenTomatoes +:+ "B"])
    by (vm_compute; reflexivity).
  cbn [enumerate enumerate_from for_each mbind result_bind incontext_set
       scenario_pl getattr].
  rewrite incontext_prompt_iterative_sample by lia.
  replace (length (train scenario_rt)) with 1 by (vm_compute; reflexivity).
  rewrite sample_indices_Ok by lia. rewrite draw_one.
  vm_compute. reflexivity.
Qed.

(** In the scenario the one reference is [negative]. *)
Lemma scenario_reference `{NumpyRng} :
  load_testdata scenario_pl = Ok [VStr "negative"].
Proof. vm_compute. reflexivity. Qed.

Lemma command_is_instruction d :
  d <> RottenTomatoes -> command d = instruction d.
Proof. by destruct d. Qed.

(** * The claims of the specification *)

(** ** C1: determinism *)

(** A call of the sampler makes a generator of its own: in whatever heap
    it runs, it returns what the seed's state draws, and the generators
    that were there are as they were.  The same holds of the builders
    and of the loops over them. *)
Lemma sample_indices_call `{GeneratorStep} pool_size k seed
    (w : gmap nat BitGenerator) :
  exists w',
    Calls.sample_indices pool_size k seed w
    = (sample_indices pool_size k seed, w') /\ w ⊆ w'.
Proof.
  unfold Calls.sample_indices, Calls.bind, Calls.default_rng,
    Calls.rng_choice, sample_indices, default_rng, rng_choice.
  destruct (seed <? 0)%Z; [by exists w|]. simpl.
  rewrite lookup_insert_eq.
  assert (w !! fresh (dom w) = None) as Hfresh
    by apply not_elem_of_dom, is_fresh.
  destruct (pool_size <? k)%nat.
  - eexists. split; [done|]. by apply insert_subseteq.
  - eexists. split; [done|]. rewrite insert_insert_eq.
    by apply insert_subseteq.
Qed.

Lemma bind_call `{GeneratorStep} {A B : Type} (m : Calls.G A)
    (k : A -> Calls.G B) (r : result A) (f : A -> result B)
    (w : gmap nat BitGenerator) :
  (exists w', m w = (r, w') /\ w ⊆ w') ->
  (forall a w1, exists w', k a w1 = (f a, w') /\ w1 ⊆ w') ->
  exists w', Calls.bind m k w = (r ≫= f, w') /\ w ⊆ w'.
Proof.
  intros (w1 & Hm & Hsub) Hk. unfold Calls.bind. rewrite Hm.
  destruct r as [a|e]; [|by exists w1].
  destruct (Hk a w1) as (w' & Hrun & Hsub'). exists w'.
  split; [done | by transitivity w1].
Qed.

Lemma lift_call `{GeneratorStep} {A : Type} (r : result A)
    (w : gmap nat BitGenerator) :
  exists w', Calls.lift r w = (r, w') /\ w ⊆ w'.
Proof. by exists w. Qed.

Lemma comprehension_call `{GeneratorStep} {A B : Type} (f : A -> Calls.G B)
    (g : A -> result B) :
  (forall x w, exists w', f x w = (g x, w') /\ w ⊆ w') ->
  forall xs w,
    exists w', Calls.comprehension f xs w = (for_each g xs, w') /\ w ⊆ w'.
Proof.
  intros Hf xs. induction xs as [|x xs IH]; intros w; [by exists w|].
  cbn [Calls.comprehension for_each].
  apply bind_call; [apply Hf|]. intros y w1.
  apply bind_call; [apply IH|]. intros ys w2. by exists w2.
Qed.

Lemma incontext_prompt_call `{GeneratorStep} ic k seed
    (w : gmap nat BitGenerator) :
  exists w',
    Calls.incontext_prompt ic k seed w = (incontext_prompt ic k seed, w') /\
    w ⊆ w'.
Proof.
  unfold Calls.incontext_prompt, incontext_prompt.
  destruct (k =? 0)%nat; [by exists w|]. cbn zeta.
  unfold Calls.bind, Calls.default_rng, Calls.rng_choice, Calls.lift,
    default_rng, rng_choice.
  destruct (seed <? 0)%Z; [by exists w|]. cbn beta iota zeta.
  rewrite lookup_insert_eq.
  assert (w !! fresh (dom w) = None) as Hfresh
    by apply not_elem_of_dom, is_fresh.
  destruct (length (train ic) <? k)%nat.
  - eexists. split; [reflexivity|]. by apply insert_subseteq.
  - eexists. split; [reflexivity|]. rewrite insert_insert_eq.
    by apply insert_subseteq.
Qed.

Lemma incontext_prompt_iterative_call `{GeneratorStep} ic k seed
    (w : gmap nat BitGenerator) :
  exists w',
    Calls.incontext_prompt_iterative ic k seed w
    = (incontext_prompt_iterative ic k seed, w') /\
    w ⊆ w'.
Proof.
  unfold Calls.incontext_prompt_iterative, incontext_prompt_iterative.
  destruct (k =? 0)%nat; [by exists w|].
  unfold Calls.bind, Calls.default_rng, Calls.rng_choice, Calls.lift,
    default_rng, rng_choice.
  destruct (seed <? 0)%Z; [by exists w|]. cbn beta iota zeta.
  rewrite lookup_insert_eq.
  assert (w !! fresh (dom w) = None) as Hfresh
    by apply not_elem_of_dom, is_fresh.
  destruct (length (train ic) <? k)%nat.
  - eexists. split; [reflexivity|]. by apply insert_subseteq.
  - eexists. split; [reflexivity|]. rewrite insert_insert_eq.
    by apply insert_subseteq.
Qed.

Lemma load_prompt_call `{GeneratorStep} pl k (w : gmap nat BitGenerator) :
  exists w', Calls.load_prompt pl k w = (load_prompt pl k, w') /\ w ⊆ w'.
Proof.
  unfold Calls.load_prompt, load_prompt.
  apply bind_call; [apply lift_call|]. intros es w1.
  apply bind_call; [apply lift_call|]. intros qs w2.
  apply comprehension_call. intros [idx q] w3.
  apply bind_call; [apply lift_call|]. intros ic w4.
  apply bind_call; [apply incontext_prompt_call|]. intros pre w5.
  by exists w5.
Qed.

Lemma load_prompt_iterative_call `{GeneratorStep} pl k
    (w : gmap nat BitGenerator) :
  exists w',
    Calls.load_prompt_iterative pl k w = (load_prompt_iterative pl k, w') /\
    w ⊆ w'.
Proof.
  unfold Calls.load_prompt_iterative, load_prompt_iterative.
  apply bind_call; [apply lift_call|]. intros es w1.
  apply bind_call; [apply lift_call|]. intros qs w2.
  apply comprehension_call. intros [idx q] w3.
  apply bind_call; [apply lift_call|]. intros ic w4.
  apply bind_call; [apply incontext_prompt_iterative_call|]. intros ts w5.
  by exists w5.
Qed.

(** What a call returns does not depend on the heap it runs in. *)
Lemma call_independent {S A : Type} (m : S -> result A * S) (r : result A) :
  (forall w, exists w', m w = (r, w')) ->
  forall w w', fst (m w) = fst (m w').
Proof.
  intros Hm w w'. destruct (Hm w) as [w1 ->]. by destruct (Hm w') as [w2 ->].
Qed.

(** The generator is what makes this a property of the builders and not
    of every function: a second draw from the same generator gives other
    positions than the first. *)
Example second_draw_differs :
  exists first second w',
    Calls.draw_twice 5 3 2 ∅ = (Ok (first, second), w') /\
    first <> second.
Proof.
  exists [2; 0], [1; 2]. eexists. split; [vm_compute; reflexivity|].
  discriminate.
Qed.

(** C1 (determinism): each call of a prompt builder makes its generator
    anew from the seed, so for [0 < k <= n] and a valid seed the
    positions selected are the same [k] distinct positions of the pool in
    every call, whatever generators exist and whatever was drawn from
    them before; for every [k] and every seed, two calls of a builder,
    and two calls of [load_prompt] or [load_prompt_iterative] on the same
    loader with the same [num_examples], return the same, in particular a
    second call made after the first; and a call advances no generator
    that was there before it. *)
Theorem prompt_builder_deterministic `{GeneratorStep}
    (ic : DataLoader) (pl : PromptLoader) (k : nat) (seed : Z) :
  (0 < k <= length (train ic) ->
   (0 <= seed)%Z ->
   exists idxs,
     length idxs = k /\ NoDup idxs /\
     Forall (fun j => j < length (train ic)) idxs /\
     forall w,
       fst (Calls.sample_indices (length (train ic)) k seed w) = Ok idxs) /\
  (forall w w',
     fst (Calls.incontext_prompt ic k seed w)
     = fst (Calls.incontext_prompt ic k seed w') /\
     fst (Calls.incontext_prompt_iterative ic k seed w)
     = fst (Calls.incontext_prompt_iterative ic k seed w') /\
     fst (Calls.load_prompt pl k w) = fst (Calls.load_prompt pl k w') /\
     fst (Calls.load_prompt_iterative pl k w)
     = fst (Calls.load_prompt_iterative pl k w')) /\
  (forall w,
     let after := snd (Calls.incontext_prompt ic k seed w) in
     let after_all := snd (Calls.load_prompt pl k w) in
     fst (Calls.incontext_prompt ic k seed after)
     = fst (Calls.incontext_prompt ic k seed w) /\
     fst (Calls.load_prompt pl k after_all) = fst (Calls.load_prompt pl k w) /\
     w ⊆ after /\ w ⊆ after_all).
Proof.
  assert (forall w w',
    fst (Calls.incontext_prompt ic k seed w)
    = fst (Calls.incontext_prompt ic k seed w')) as Hflat.
  { apply call_independent with (r := incontext_prompt ic k seed).
    intros w. destruct (incontext_prompt_call ic k seed w) as (w1 & -> & _).
    by exists w1. }
  assert (forall w w',
    fst (Calls.load_prompt pl k w) = fst (Calls.load_prompt pl k w'))
    as Hload.
  { apply call_independent with (r := load_prompt pl k).
    intros w. destruct (load_prompt_call pl k w) as (w1 & -> & _).
    by exists w1. }
  split; [|split].
  - intros [Hk0 Hkn] Hseed.
    exists (draw (seed_state seed) (length (train ic)) k).
    split; [by apply draw_length|]. split; [by apply draw_NoDup|].
    split; [apply Forall_forall; intros j; by apply draw_range|].
    intros w.
    destruct (sample_indices_call (length (train ic)) k seed w)
      as (w1 & -> & _).
    by apply sample_indices_Ok.
  - intros w w'. split; [apply Hflat|]. split; [|split; [apply Hload|]].
    + apply call_independent
        with (r := incontext_prompt_iterative ic k seed).
      intros w0.
      destruct (incontext_prompt_iterative_call ic k seed w0)
        as (w1 & -> & _).
      by exists w1.
    + apply call_independent with (r := load_prompt_iterative pl k).
      intros w0.
      destruct (load_prompt_iterative_call pl k w0) as (w1 & -> & _).
      by exists w1.
  - intros w after after_all. split; [apply Hflat|]. split; [apply Hload|].
    unfold after, after_all. split.
    + by destruct (incontext_prompt_call ic k seed w) as (w1 & -> & ?).
    + by destruct (load_prompt_call pl k w) as (w1 & -> & ?).
Qed.

Lemma prompt_builder_deterministic_witness :
  0 < 2 <= length (train demo_gw) /\
  (0 <= 5)%Z /\
  (0 < 2 <= length (train demo_gw) ->
   (0 <= 5)%Z ->
   exists idxs,
     length idxs = 2 /\ NoDup idxs /\
     Forall (fun j => j < length (train demo_gw)) idxs /\
     forall w,
       fst (Calls.sample_indices (length (train demo_gw)) 2 5 w) = Ok idxs) /\
  (forall w w',
     fst (Calls.incontext_prompt demo_gw 2 5 w)
     = fst (Calls.incontext_prompt demo_gw 2 5 w') /\
     fst (Calls.incontext_prompt_iterative demo_gw 2 5 w)
     = fst (Calls.incontext_prompt_iterative demo_gw 2 5 w') /\
     fst (Calls.load_prompt demo_pl 2 w)
     = fst (Calls.load_prompt demo_pl 2 w') /\
     fst (Calls.load_prompt_iterative demo_pl 2 w)
     = fst (Calls.load_prompt_iterative demo_pl 2 w')) /\
  (forall w,
     let after := snd (Calls.incontext_prompt demo_gw 2 5 w) in
     let after_all := snd (Calls.load_prompt demo_pl 2 w) in
     fst (Calls.incontext_prompt demo_gw 2 5 after)
     = fst (Calls.incontext_prompt demo_gw 2 5 w) /\
     fst (Calls.load_prompt demo_pl 2 after_all)
     = fst (Calls.load_prompt demo_pl 2 w) /\
     w ⊆ after /\ w ⊆ after_all).
Proof.
  assert (0 < 2 <= length (train demo_gw)) as Hk by (vm_compute; lia).
  assert (0 <= 5)%Z as Hseed by lia.
  split; [exact Hk|]. split; [exact Hseed|].
  exact (prompt_builder_deterministic demo_gw demo_pl 2 5).
Defined.

(** ** C2: flat prompts against turn lists *)

(** C2 (cross-representation equivalence), as the code has it: for
    [0 < k] both builders return when the training pool holds [k]
    records, and whatever they return renders, at every position [i],
    the fragments of the same records, sampled with seed [i]; every
    sampled fragment is a substring of the flat prompt, and every sampled
    fragment that contains the separator exactly once is a substring of
    the contents of the turn list joined with the separator. *)
Theorem cross_representation_single_separator `{NumpyRng}
    load_dataset incontext eval pl ic es k :
  PromptLoader_init load_dataset incontext eval = Ok pl ->
  incontext_set pl = Some ic ->
  eval_set pl = Some es ->
  0 < k ->
  (k <= length (train ic) -> eval_pool es <> [] ->
   exists flats turnss,
     load_prompt pl k = Ok flats /\ load_prompt_iterative pl k = Ok turnss) /\
  forall flats turnss,
    load_prompt pl k = Ok flats ->
    load_prompt_iterative pl k = Ok turnss ->
    forall i ex, eval_pool es !! i = Some ex ->
      exists q frags pairs flat turns,
        eval_prompt_text (kind es) ex = Ok q /\
        Forall2 (fragment_of ic)
                (draw (seed_state (Z.of_nat i)) (length (train ic)) k)
                frags /\
        Forall2 (turn_pair (kind ic)) frags pairs /\
        flats !! i = Some flat /\
        flat = PROMPT_PREFIX (kind ic) +:+ join nl frags +:+ nl +:+ q /\
        turnss !! i = Some turns /\
        turns = concat pairs ++ [Turn "user" q] /\
        forall f, f ∈ frags ->
          contains f flat = true /\
          (length (split (separator (kind ic)) f) = 2 ->
           contains f (join (separator (kind ic)) (content <$> turns))
           = true).
Proof.
  intros Hinit Hic Hes Hk0. split.
  { intros Hkn _.
    destruct (load_prompt_lookup _ _ _ _ _ _ _ Hinit Hic Hes Hkn)
      as (flats & Hflats & _).
    destruct (load_prompt_iterative_lookup _ _ _ _ _ _ _ Hinit Hic Hes Hkn)
      as (turnss & Hturnss & _).
    by exists flats, turnss. }
  intros flats turnss Hflats Hturnss i ex Hex.
  destruct (load_prompt_layout _ _ _ _ _ _ _ _ Hinit Hic Hes Hk0 Hflats)
    as [_ Hflat].
  destruct (load_prompt_iterative_layout _ _ _ _ _ _ _ _ Hinit Hic Hes
              Hturnss) as [_ Hturns].
  destruct (Hflat i ex Hex) as (q & frags & Hq & Hfr & _ & Hp).
  destruct (Hturns i ex Hex)
    as (q' & frags' & pairs & Hq' & _ & Hfr' & Hpairs & Ht).
  rewrite Hq in Hq'. injection Hq' as <-.
  assert (frags' = frags) as ->.
  { specialize (Hfr' Hk0). clear -Hfr Hfr'.
    revert frags' Hfr'.
    induction Hfr as [|j f idxs frags (ex & Hex & Hf) _ IH];
      intros frags' Hfr'.
    - by apply Forall2_nil_inv_l in Hfr'.
    - apply Forall2_cons_inv_l in Hfr'
        as (f' & frags'' & (ex' & Hex' & Hf') & Hrest & ->).
      rewrite Hex in Hex'. injection Hex' as <-.
      rewrite Hf in Hf'. injection Hf' as <-. f_equal. by apply IH. }
  eexists q, frags, pairs, _, _.
  do 3 (split; [done|]). split; [exact Hp|]. split; [done|].
  split; [exact Ht|]. split; [done|]. intros f Hin. split.
  - apply contains_spec. destruct (join_elem nl f frags Hin) as (x & y & ->).
    exists (PROMPT_PREFIX (kind ic) +:+ x), (y +:+ nl +:+ q).
    by rewrite !append_assoc.
  - intros Hlen. set (sep := separator (kind ic)) in *.
    destruct (split sep f) as [|a [|b [|c l]]] eqn:Hs; try done.
    pose proof (split_two sep f a b (separator_nonempty _) Hs) as ->.
    destruct (turn_pair_contents _ _ _ _ a b Hpairs Hin Hs)
      as (before & after & Hcontent).
    rewrite fmap_app, Hcontent. rewrite <- app_assoc. simpl app.
    destruct (join_adjacent sep (command (kind ic) +:+ a) b before
                (after ++ [q])) as (x & y & ->).
    apply contains_spec. exists (x +:+ command (kind ic)), y.
    by rewrite !append_assoc.
Qed.

Lemma cross_representation_single_separator_witness :
  PromptLoader_init demo_hub "gigaword" "rotten_tomatoes" = Ok demo_pl /\
  incontext_set demo_pl = Some demo_gw /\
  eval_set demo_pl = Some demo_rt /\
  0 < 2 /\
  (2 <= length (train demo_gw) -> eval_pool demo_rt <> [] ->
   exists flats turnss,
     load_prompt demo_pl 2 = Ok flats /\
     load_prompt_iterative demo_pl 2 = Ok turnss) /\
  forall flats turnss,
    load_prompt demo_pl 2 = Ok flats ->
    load_prompt_iterative demo_pl 2 = Ok turnss ->
    forall i ex, eval_pool demo_rt !! i = Some ex ->
      exists q frags pairs flat turns,
        eval_prompt_text (kind demo_rt) ex = Ok q /\
        Forall2 (fragment_of demo_gw)
                (draw (seed_state (Z.of_nat i)) (length (train demo_gw)) 2)
                frags /\
        Forall2 (turn_pair (kind demo_gw)) frags pairs /\
        flats !! i = Some flat /\
        flat = PROMPT_PREFIX (kind demo_gw) +:+ join nl frags +:+ nl +:+ q /\
        turnss !! i = Some turns /\
        turns = concat pairs ++ [Turn "user" q] /\
        forall f, f ∈ frags ->
          contains f flat = true /\
          (length (split (separator (kind demo_gw)) f) = 2 ->
           contains f (join (separator (kind demo_gw)) (content <$> turns))
           = true).
Proof.
  split; [exact demo_pl_init|].
  split; [reflexivity|]. split; [reflexivity|]. split; [lia|].
  apply (cross_representation_single_separator
           demo_hub "gigaword" "rotten_tomatoes" demo_pl demo_gw demo_rt 2);
    [exact demo_pl_init | reflexivity | reflexivity | lia].
Defined.

(** C2 as stated fails when a sampled document contains the separator:
    the fragment of the gigaword training record
    [{document: "x\nsummary: y", summary: "zzz"}] is part of the flat
    prompt, but not of the contents of the turns joined with the
    separator, where the record's summary does not occur at all. *)
Lemma cross_representation_counterexample :
  PromptLoader_init quoting_hub "gigaword" "gigaword" = Ok quoting_pl /\
  train_pool quoting_gw !! 0
    = Some (gw_record ("x" +:+ nl +:+ "summary: y") "zzz") /\
  prompt_text Gigaword (gw_record ("x" +:+ nl +:+ "summary: y") "zzz")
    = Ok ("article: x" +:+ nl +:+ "summary: y" +:+ nl +:+ "summary: zzz") /\
  exists flat turns,
    load_prompt quoting_pl 1 = Ok [flat] /\
    load_prompt_iterative quoting_pl 1 = Ok [turns] /\
    contains
      ("article: x" +:+ nl +:+ "summary: y" +:+ nl +:+ "summary: zzz")
      flat = true /\
    contains
      ("article: x" +:+ nl +:+ "summary: y" +:+ nl +:+ "summary: zzz")
      (join (separator Gigaword) (content <$> turns)) = false /\
    contains "zzz" flat = true /\
    contains "zzz" (join (separator Gigaword) (content <$> turns)) = false.
Proof.
  split; [vm_compute; reflexivity|].
  split; [vm_compute; reflexivity|].
  split; [vm_compute; reflexivity|].
  exists
    ("Please read the following pairs of texts and summaries:" +:+ nl
     +:+ "article: x" +:+ nl +:+ "summary: y" +:+ nl +:+ "summary: zzz" +:+ nl
     +:+ "Please summarize the following article." +:+ nl +:+ "B"),
    [ Turn "user"
        ("Please summarize the following article." +:+ nl +:+ "article: x");
      Turn "assistant" "y";
      Turn "user" ("Please summarize the following article." +:+ nl +:+ "B") ].
  repeat split; vm_compute; reflexivity.
Qed.

(** ** C3: the layout of a flat prompt *)

(** C3 (layout of the flat prompt): for [0 < k], [load_prompt] returns
    when the training pool holds [k] records, and in whatever it returns
    the prompt at position [i] is the header, the fragments of the [k]
    records sampled with seed [i] joined by single newlines, a newline,
    and the evaluation query of record [i].  In the scenario of the
    specification (training pool [{text: A, label: 1}], evaluation pool
    [{text: B, label: 0}], [k = 1]) the one prompt is the header,
    [review: A\nsentiment: positive], a newline, the instruction, a
    newline, and [B]. *)
Theorem flat_prompt_layout `{NumpyRng} :
  (forall load_dataset incontext eval pl ic es k,
     PromptLoader_init load_dataset incontext eval = Ok pl ->
     incontext_set pl = Some ic ->
     eval_set pl = Some es ->
     0 < k ->
     (k <= length (train ic) -> eval_pool es <> [] ->
      exists prompts, load_prompt pl k = Ok prompts) /\
     forall prompts,
       load_prompt pl k = Ok prompts ->
       length prompts = length (eval_pool es) /\
       forall i ex, eval_pool es !! i = Some ex ->
         exists q frags,
           eval_prompt_text (kind es) ex = Ok q /\
           Forall2 (fragment_of ic)
                   (draw (seed_state (Z.of_nat i)) (length (train ic)) k)
                   frags /\
           length frags = k /\
           prompts !! i
             = Some (PROMPT_PREFIX (kind ic) +:+ join nl frags +:+ nl +:+ q)) /\
  PromptLoader_init scenario_hub "rotten_tomatoes" "rotten_tomatoes"
    = Ok scenario_pl /\
  load_prompt scenario_pl 1
    = Ok [ "Please read the following pairs of movie reviews and sentiment:"
           +:+ nl +:+ "review: A" +:+ nl +:+ "sentiment: positive" +:+ nl
           +:+ "Please perform a Sentiment Classification task. "
           +:+ "Given the following movie review, assign a sentiment label from ['negative', 'positive']. "
           +:+ "Return only the sentiment label without any other text."
           +:+ nl +:+ "B" ].
Proof.
  split; [|split; [exact scenario_pl_init | exact scenario_flat]].
  intros load_dataset incontext eval pl ic es k Hinit Hic Hes Hk0. split.
  - intros Hkn _.
    destruct (load_prompt_lookup _ _ _ _ _ _ _ Hinit Hic Hes Hkn)
      as (prompts & Hprompts & _). by exists prompts.
  - intros prompts Hprompts.
    by eapply load_prompt_layout.
Qed.

Lemma flat_prompt_layout_witness :
  PromptLoader_init demo_hub "gigaword" "rotten_tomatoes" = Ok demo_pl /\
  incontext_set demo_pl = Some demo_gw /\
  eval_set demo_pl = Some demo_rt /\
  0 < 2 /\
  (2 <= length (train demo_gw) -> eval_pool demo_rt <> [] ->
   exists prompts, load_prompt demo_pl 2 = Ok prompts) /\
  forall prompts,
    load_prompt demo_pl 2 = Ok prompts ->
    length prompts = length (eval_pool demo_rt) /\
    forall i ex, eval_pool demo_rt !! i = Some ex ->
      exists q frags,
        eval_prompt_text (kind demo_rt) ex = Ok q /\
        Forall2 (fragment_of demo_gw)
                (draw (seed_state (Z.of_nat i)) (length (train demo_gw)) 2)
                frags /\
        length frags = 2 /\
        prompts !! i
          = Some (PROMPT_PREFIX (kind demo_gw) +:+ join nl frags +:+ nl +:+ q).
Proof.
  split; [exact demo_pl_init|].
  split; [reflexivity|]. split; [reflexivity|]. split; [lia|].
  apply (proj1 flat_prompt_layout demo_hub "gigaword" "rotten_tomatoes"
           demo_pl demo_gw demo_rt 2);
    [exact demo_pl_init | reflexivity | reflexivity | lia].
Defined.

(** ** C4: the turn-structured prompt *)

(** C4 (turn-structured output), evaluated where the code departs from
    it: in the scenario of the specification the first user turn of the
    rotten tomatoes adapter starts with the first sentence of the
    instruction only, not with the instruction [_eval_prompt] uses. *)
Theorem rotten_tomatoes_command_truncated `{NumpyRng} :
  PromptLoader_init scenario_hub "rotten_tomatoes" "rotten_tomatoes"
    = Ok scenario_pl /\
  load_prompt_iterative scenario_pl 1
    = Ok [[ Turn "user"
              ("Please perform a Sentiment Classification task. "
               +:+ "review: A");
            Turn "assistant" "positive";
            Turn "user" (instruction RottenTomatoes +:+ "B") ]] /\
  "Please perform a Sentiment Classification task. " +:+ "review: A"
    <> instruction RottenTomatoes +:+ "review: A".
Proof.
  split; [exact scenario_pl_init|]. split; [exact scenario_turns|].
  by vm_compute.
Qed.

(** ** C5: references and prompts are aligned *)

(** C5 (positional alignment): when the evaluation records carry the
    reference column and the training pool holds [k] records,
    [load_testdata], [load_prompt] and [load_prompt_iterative] return;
    whatever they return has one entry per evaluation record, and at
    every position [i] the reference is the target cell of record [i],
    the flat prompt ends with the query of record [i], and the turn list
    ends with the user turn holding that query. *)
Theorem references_aligned `{NumpyRng} load_dataset incontext eval pl ic es k :
  PromptLoader_init load_dataset incontext eval = Ok pl ->
  incontext_set pl = Some ic ->
  eval_set pl = Some es ->
  (k <= length (train ic) ->
   eval_pool es <> [] ->
   Forall (fun ex => is_Some (ex !! reference_column (kind es)))
          (eval_pool es) ->
   exists refs prompts turns,
     load_testdata pl = Ok refs /\
     load_prompt pl k = Ok prompts /\
     load_prompt_iterative pl k = Ok turns) /\
  forall refs prompts turns,
    load_testdata pl = Ok refs ->
    load_prompt pl k = Ok prompts ->
    load_prompt_iterative pl k = Ok turns ->
    length refs = length (eval_pool es) /\
    length prompts = length (eval_pool es) /\
    length turns = length (eval_pool es) /\
    forall i ex, eval_pool es !! i = Some ex ->
      exists r q pre ts,
        ex !! reference_column (kind es) = Some r /\
        eval_prompt_text (kind es) ex = Ok q /\
        refs !! i = Some r /\
        prompts !! i = Some (pre +:+ q) /\
        turns !! i = Some (ts ++ [Turn "user" q]).
Proof.
  intros Hinit Hic Hes. split.
  { intros Hk _ Hcol.
    destruct (PromptLoader_init_initialised _ _ _ _ Hinit) as [Hes' _].
    destruct (load_test_reference_Ok es (Hes' es Hes) Hcol)
      as (refs & Hrefs & _).
    destruct (load_prompt_lookup _ _ _ _ _ _ _ Hinit Hic Hes Hk)
      as (prompts & Hprompts & _).
    destruct (load_prompt_iterative_lookup _ _ _ _ _ _ _ Hinit Hic Hes Hk)
      as (turns & Hturns & _).
    exists refs, prompts, turns.
    split; [unfold load_testdata; by rewrite Hes | done]. }
  intros refs prompts turns Hrefs Hprompts Hturns.
  pose proof (load_testdata_returned _ _ _ _ _ _ Hinit Hes Hrefs) as HF.
  destruct (load_prompt_returned _ _ _ _ _ _ _ _ Hinit Hic Hes Hprompts)
    as [Hlen Hlook].
  destruct (load_prompt_iterative_returned _ _ _ _ _ _ _ _ Hinit Hic Hes
              Hturns) as [Hlen' Hlook'].
  split; [symmetry; by eapply Forall2_length|].
  do 2 (split; [done|]).
  intros i ex Hex.
  destruct (Forall2_lookup_l _ _ _ _ _ HF Hex) as (r & Hr & Hexr).
  destruct (Hlook i ex Hex) as (q & pre & Hq & _ & Hp).
  destruct (Hlook' i ex Hex) as (q' & ts & Hq' & _ & Ht).
  rewrite Hq in Hq'. injection Hq' as <-.
  by exists r, q, pre, ts.
Qed.

Lemma references_aligned_witness :
  PromptLoader_init demo_hub "gigaword" "rotten_tomatoes" = Ok demo_pl /\
  incontext_set demo_pl = Some demo_gw /\
  eval_set demo_pl = Some demo_rt /\
  (1 <= length (train demo_gw) ->
   eval_pool demo_rt <> [] ->
   Forall (fun ex => is_Some (ex !! reference_column (kind demo_rt)))
          (eval_pool demo_rt) ->
   exists refs prompts turns,
     load_testdata demo_pl = Ok refs /\
     load_prompt demo_pl 1 = Ok prompts /\
     load_prompt_iterative demo_pl 1 = Ok turns) /\
  forall refs prompts turns,
    load_testdata demo_pl = Ok refs ->
    load_prompt demo_pl 1 = Ok prompts ->
    load_prompt_iterative demo_pl 1 = Ok turns ->
    length refs = length (eval_pool demo_rt) /\
    length prompts = length (eval_pool demo_rt) /\
    length turns = length (eval_pool demo_rt) /\
    forall i ex, eval_pool demo_rt !! i = Some ex ->
      exists r q pre ts,
        ex !! reference_column (kind demo_rt) = Some r /\
        eval_prompt_text (kind demo_rt) ex = Ok q /\
        refs !! i = Some r /\
        prompts !! i = Some (pre +:+ q) /\
        turns !! i = Some (ts ++ [Turn "user" q]).
Proof.
  split; [exact demo_pl_init|].
  split; [reflexivity|]. split; [reflexivity|].
  apply (references_aligned demo_hub "gigaword" "rotten_tomatoes"
           demo_pl demo_gw demo_rt 1);
    [exact demo_pl_init | reflexivity | reflexivity].
Defined.

(** ** C6: no in-context examples *)

(** C6 (zero-shot identity): with [num_examples = 0] the in-context
    portion is the empty string; [load_prompt] returns, and in whatever
    it returns the prompt at every position of the evaluation pool is
    exactly the evaluation query of the record at that position, with no
    header and no prefix. *)
Theorem zero_shot_identity `{NumpyRng} load_dataset incontext eval pl ic es :
  PromptLoader_init load_dataset incontext eval = Ok pl ->
  incontext_set pl = Some ic ->
  eval_set pl = Some es ->
  (forall seed, incontext_prompt ic 0 seed = Ok "") /\
  (eval_pool es <> [] -> exists prompts, load_prompt pl 0 = Ok prompts) /\
  forall prompts,
    load_prompt pl 0 = Ok prompts ->
    length prompts = length (eval_pool es) /\
    forall i ex, eval_pool es !! i = Some ex ->
      exists q, eval_prompt_text (kind es) ex = Ok q /\
                prompts !! i = Some q.
Proof.
  intros Hinit Hic Hes. split; [done|]. split.
  - intros _.
    destruct (load_prompt_lookup _ _ _ _ _ _ 0 Hinit Hic Hes)
      as (prompts & Hprompts & _); [lia|]. by exists prompts.
  - intros prompts Hprompts.
    destruct (load_prompt_returned _ _ _ _ _ _ _ _ Hinit Hic Hes Hprompts)
      as [Hlen Hlook].
    split; [done|]. intros i ex Hex.
    destruct (Hlook i ex Hex) as (q & pre & Hq & Hpre & Hp).
    injection Hpre as <-. exists q. by rewrite append_nil_l in Hp.
Qed.

Lemma zero_shot_identity_witness :
  PromptLoader_init demo_hub "gigaword" "rotten_tomatoes" = Ok demo_pl /\
  incontext_set demo_pl = Some demo_gw /\
  eval_set demo_pl = Some demo_rt /\
  (forall seed, incontext_prompt demo_gw 0 seed = Ok "") /\
  (eval_pool demo_rt <> [] ->
   exists prompts, load_prompt demo_pl 0 = Ok prompts) /\
  forall prompts,
    load_prompt demo_pl 0 = Ok prompts ->
    length prompts = length (eval_pool demo_rt) /\
    forall i ex, eval_pool demo_rt !! i = Some ex ->
      exists q, eval_prompt_text (kind demo_rt) ex = Ok q /\
                prompts !! i = Some q.
Proof.
  split; [exact demo_pl_init|].
  split; [reflexivity|]. split; [reflexivity|].
  apply (zero_shot_identity demo_hub "gigaword" "rotten_tomatoes"
           demo_pl demo_gw demo_rt);
    [exact demo_pl_init | reflexivity | reflexivity].
Defined.

(** ** C7: more examples than the pool holds *)

(** C7 (oversized request): when more in-context examples are requested
    than the training pool holds, both prompt builders raise
    [ValueError], and so do [load_prompt] and [load_prompt_iterative] at
    the first evaluation record: no list of prompts is returned. *)
Theorem oversized_request_rejected `{NumpyRng}
    load_dataset incontext eval pl ic es k seed :
  PromptLoader_init load_dataset incontext eval = Ok pl ->
  incontext_set pl = Some ic ->
  eval_set pl = Some es ->
  length (train ic) < k ->
  incontext_prompt ic k seed = Err ValueError /\
  incontext_prompt_iterative ic k seed = Err ValueError /\
  (eval_pool es <> [] ->
   load_prompt pl k = Err ValueError /\
   load_prompt_iterative pl k = Err ValueError).
Proof.
  intros Hinit Hic Hes Hk.
  split; [by apply incontext_prompt_too_many|].
  split; [by apply incontext_prompt_iterative_too_many|].
  by eapply load_prompt_oversized.
Qed.

Lemma oversized_request_rejected_witness :
  PromptLoader_init demo_hub "gigaword" "rotten_tomatoes" = Ok demo_pl /\
  incontext_set demo_pl = Some demo_gw /\
  eval_set demo_pl = Some demo_rt /\
  length (train demo_gw) < 3 /\
  incontext_prompt demo_gw 3 7 = Err ValueError /\
  incontext_prompt_iterative demo_gw 3 7 = Err ValueError /\
  (eval_pool demo_rt <> [] ->
   load_prompt demo_pl 3 = Err ValueError /\
   load_prompt_iterative demo_pl 3 = Err ValueError).
Proof.
  split; [exact demo_pl_init|].
  split; [reflexivity|]. split; [reflexivity|].
  split; [vm_compute; lia|].
  apply (oversized_request_rejected demo_hub "gigaword" "rotten_tomatoes"
           demo_pl demo_gw demo_rt 3 7);
    [exact demo_pl_init | reflexivity | reflexivity | vm_compute; lia].
Defined.

(** ** C8: unknown dataset names *)

(** [load_data] never reaches its lookup: the dict display names
    [_load_gigaword], which the module does not define. *)
Lemma load_data_name_error data_name :
  load_data_select data_name = Err (NameError "_load_gigaword").
Proof. reflexivity. Qed.

(** A string literal is none of the literals of a list. *)
Ltac not_in_literals :=
  let Hin := fresh "Hin" in
  intros Hin;
  repeat (apply elem_of_cons in Hin as [Hin|Hin]; [discriminate Hin|]);
  by apply elem_of_nil in Hin.

(** C8 (unknown dataset name), evaluated on the code: for an evaluation
    name outside the three [__init__] knows and a different in-context
    name outside the five it knows, construction returns a loader with
    neither attribute assigned, and the error comes later, as the
    [AttributeError] of the first method that reads [eval_set]; it does
    not name the key. *)
Theorem unknown_dataset_constructs `{NumpyRng} load_dataset incontext eval :
  eval ∉ ["gigaword"; "dailymail"; "rotten_tomatoes"] ->
  incontext ∉ [eval; "gigaword"; "dailymail"; "wikicat"; "rotten_tomatoes";
               "tweetqa"] ->
  exists pl,
    PromptLoader_init load_dataset incontext eval = Ok pl /\
    eval_set pl = None /\ incontext_set pl = None /\
    (forall k, load_prompt pl k = Err (AttributeError "eval_set")) /\
    (forall k, load_prompt_iterative pl k = Err (AttributeError "eval_set")) /\
    load_testdata pl = Err (AttributeError "eval_set").
Proof.
  intros Heval Hinc.
  exists {| eval_set := None; incontext_set := None |}.
  split; [|done]. unfold PromptLoader_init.
  repeat match goal with
         | |- context [String.eqb ?a ?b] =>
             destruct (String.eqb_spec a b) as [->|?]; [set_solver|]
         end.
  done.
Qed.

Lemma unknown_dataset_constructs_witness :
  ("imdb" ∉ ["gigaword"; "dailymail"; "rotten_tomatoes"]) /\
  ("sst2" ∉ ["imdb"; "gigaword"; "dailymail"; "wikicat"; "rotten_tomatoes";
             "tweetqa"]) /\
  exists pl,
    PromptLoader_init demo_hub "sst2" "imdb" = Ok pl /\
    eval_set pl = None /\ incontext_set pl = None /\
    (forall k, load_prompt pl k = Err (AttributeError "eval_set")) /\
    (forall k, load_prompt_iterative pl k = Err (AttributeError "eval_set")) /\
    load_testdata pl = Err (AttributeError "eval_set").
Proof.
  assert ("imdb" ∉ ["gigaword"; "dailymail"; "rotten_tomatoes"]) as H1
    by not_in_literals.
  assert ("sst2" ∉ ["imdb"; "gigaword"; "dailymail"; "wikicat";
                    "rotten_tomatoes"; "tweetqa"]) as H2
    by not_in_literals.
  split; [exact H1|]. split; [exact H2|].
  exact (unknown_dataset_constructs demo_hub "sst2" "imdb" H1 H2).
Defined.

(** A known in-context name does not help: the loader is built, and the
    unknown evaluation name surfaces at the first call. *)
Example unknown_eval_name `{NumpyRng} :
  PromptLoader_init demo_hub "gigaword" "imdb"
    = Ok {| eval_set := None; incontext_set := Some demo_gw |} /\
  load_prompt {| eval_set := None; incontext_set := Some demo_gw |} 1
    = Err (AttributeError "eval_set").
Proof. split; [vm_compute; reflexivity | reflexivity]. Qed.

(** ** C9: the record transforms and their argument *)

Module TransformFacts.
Import Transforms.

(** A copy lives at a reference the store did not hold. *)
Lemma dict_copy_fresh (h : store) ex d :
  h !! ex = Some d ->
  exists new, dict_copy ex h = (Ok new, <[new := d]> h) /\ h !! new = None.
Proof.
  intros Hex. exists (fresh (dom h)). unfold dict_copy, bind, deref.
  rewrite Hex. split; [done|]. apply not_elem_of_dom, is_fresh.
Qed.

(** [change_key] works on a copy: whatever it returns or raises, the
    dict it was given is as before, and a returned dict is a new one. *)
Lemma change_key_preserves_argument (h : store) ex d old_key new_key :
  h !! ex = Some d ->
  exists r h',
    change_key ex old_key new_key h = (r, h') /\
    h' !! ex = Some d /\
    forall ex', r = Ok ex' -> h !! ex' = None.
Proof.
  intros Hex. destruct (dict_copy_fresh h ex d Hex) as (new & Hcopy & Hnew).
  assert (new <> ex) as Hne by congruence.
  unfold change_key, bind at 1. rewrite Hcopy.
  unfold dict_pop, dict_set, bind, deref, lift, ret.
  rewrite lookup_insert_eq. unfold getitem.
  destruct (d !! old_key) as [v|].
  - rewrite lookup_insert_eq. eexists _, _. split; [done|]. split.
    + by rewrite !lookup_insert_ne.
    + by intros ex' [= <-].
  - eexists _, _. split; [done|]. split.
    + by rewrite lookup_insert_ne.
    + done.
Qed.

(** So do the other copying transforms. *)
Lemma _invert_labels_preserves_argument (h : store) ex d :
  h !! ex = Some d ->
  exists r h', _invert_labels ex h = (r, h') /\ h' !! ex = Some d.
Proof.
  intros Hex. destruct (dict_copy_fresh h ex d Hex) as (new & Hcopy & Hnew).
  assert (new <> ex) as Hne by congruence.
  unfold _invert_labels, bind at 1. rewrite Hcopy.
  unfold dict_get, dict_set, bind, deref, lift, ret.
  rewrite lookup_insert_eq. unfold getitem.
  destruct (d !! "label") as [[s|n|l|m]|];
    try (eexists _, _; split; [done|]; by rewrite lookup_insert_ne).
  rewrite lookup_insert_eq. eexists _, _. split; [done|].
  by rewrite !lookup_insert_ne.
Qed.

(** C9 (transforms leave their argument alone), evaluated where the code
    departs from it: [content_map] writes into the dict it is given and
    returns that same dict, so after the call the argument
    [{Sentiment: 0}] reads [{Sentiment: negative}]. *)
Theorem content_map_mutates_argument :
  let before : store := {[ 0 := {[ "Sentiment" := VInt 0 ]} ]} in
  let after : store := {[ 0 := {[ "Sentiment" := VStr "negative" ]} ]} in
  content_map 0 "Sentiment" sentiment_mapping before = (Ok 0, after) /\
  after !! 0 <> before !! 0.
Proof.
  split; [vm_compute; reflexivity|].
  intros Heq.
  apply (f_equal (fun d => d ≫= (fun m => m !! "Sentiment"))) in Heq.
  vm_compute in Heq. discriminate Heq.
Qed.

(** [change_key] on the same kind of argument returns a new dict. *)
Example change_key_copies :
  let before : store := {[ 0 := {[ "label" := VInt 0 ]} ]} in
  exists h',
    change_key 0 "label" "Sentiment" before = (Ok 1, h') /\
    h' !! 0 = before !! 0 /\
    h' !! 1 = Some {[ "Sentiment" := VInt 0 ]}.
Proof. eexists. repeat split; vm_compute; reflexivity. Qed.

End TransformFacts.
(** ** C10: splitting the sampled fragment *)

(** Two occurrences of the separator: the turns hold the text before
    the first and the text between the first and the second, whatever
    follows the second. *)
Lemma example_turns_two_occurrences d f p0 r p1 rest :
  find_sep (separator d) f = Some (p0, r) ->
  find_sep (separator d) r = Some (p1, rest) ->
  f = p0 +:+ separator d +:+ p1 +:+ separator d +:+ rest /\
  forall rest',
    example_turns d
      (VStr (p0 +:+ separator d +:+ p1 +:+ separator d +:+ rest'))
    = Ok [Turn "user" (command d +:+ p0); Turn "assistant" p1].
Proof.
  intros Hfirst Hsecond.
  pose proof (separator_nonempty d) as Hne.
  pose proof (find_sep_Some _ _ _ _ Hfirst) as Hf.
  pose proof (find_sep_Some _ _ _ _ Hsecond) as Hr.
  rewrite Hr in Hf. split; [done|]. intros rest'.
  rewrite Hf, Hr in Hfirst. rewrite Hr in Hsecond.
  apply example_turns_pair.
  exists p0, p1, (split (separator d) rest'). split; [|done].
  rewrite (find_sep_split _ _ p0
             (p1 +:+ separator d +:+ rest') Hne)
    by (by eapply find_sep_change_rest).
  by rewrite (find_sep_split _ _ p1 rest' Hne)
    by (by eapply find_sep_change_rest).
Qed.

(** A review that contains the separator gives its fragment two
    occurrences, both before the record's sentiment. *)
Lemma rotten_tomatoes_quoting ex text sentiment f :
  ex !! "text" = Some (VStr text) ->
  ex !! "sentiment" = Some (VStr sentiment) ->
  contains (separator RottenTomatoes) text = true ->
  prompt_text RottenTomatoes ex = Ok f ->
  exists p0 r p1 rest mid,
    find_sep (separator RottenTomatoes) f = Some (p0, r) /\
    find_sep (separator RottenTomatoes) r = Some (p1, rest) /\
    rest = mid +:+ sentiment.
Proof.
  intros Htext Hsent Hin Hf.
  set (sep := separator RottenTomatoes) in *.
  simpl in Hf. unfold getstr in Hf.
  rewrite (getitem_Some _ _ _ Htext), (getitem_Some _ _ _ Hsent) in Hf.
  simpl in Hf. injection Hf as <-. fold sep.
  assert (is_Some (find_sep sep ("review: " +:+ text))) as [[p0 r1] Hfirst].
  { apply contains_find_sep, contains_spec.
    apply contains_spec in Hin as (x & y & ->).
    exists ("review: " +:+ x), y. by rewrite append_assoc. }
  rewrite <- (append_assoc "review: " text).
  pose proof (find_sep_extend _ _ (sep +:+ sentiment) _ _ Hfirst) as Hf1.
  destruct (find_sep_present sep r1 sentiment) as [[p1 rest] Hsecond].
  pose proof (find_sep_Some _ _ _ _ Hsecond) as Hr1.
  destruct (append_eq_suffix (p1 +:+ sep) rest (r1 +:+ sep) sentiment)
    as [mid Hmid].
  { by rewrite !append_assoc. }
  { rewrite !length_append.
    pose proof (find_sep_leftmost _ _ _ _ r1 sentiment Hsecond eq_refl).
    lia. }
  by exists p0, (r1 +:+ sep +:+ sentiment), p1, rest, mid.
Qed.

(** C10 (splitting the sampled fragment): every fragment an adapter's own
    [_prompt] renders contains the separator, so [parts[0]] and
    [parts[1]] exist and the two turns are built.  With any adapter, when
    the separator occurs a second time the user turn holds the text
    before the first occurrence, the assistant turn the text between the
    first and the second, and the emitted turns are the same whatever
    follows the second.  That is the case when the review text of a
    rotten_tomatoes record contains the separator: what follows the
    second occurrence then ends with the record's sentiment. *)
Theorem fragment_split_total_and_lossy :
  (forall d ex f,
     prompt_text d ex = Ok f ->
     exists p0 p1 ps,
       split (separator d) f = p0 :: p1 :: ps /\
       example_turns d (VStr f)
         = Ok [Turn "user" (command d +:+ p0); Turn "assistant" p1]) /\
  (forall d f p0 r p1 rest,
     find_sep (separator d) f = Some (p0, r) ->
     find_sep (separator d) r = Some (p1, rest) ->
     f = p0 +:+ separator d +:+ p1 +:+ separator d +:+ rest /\
     forall rest',
       example_turns d
         (VStr (p0 +:+ separator d +:+ p1 +:+ separator d +:+ rest'))
       = Ok [Turn "user" (command d +:+ p0); Turn "assistant" p1]) /\
  (forall ex text sentiment f,
     ex !! "text" = Some (VStr text) ->
     ex !! "sentiment" = Some (VStr sentiment) ->
     contains (separator RottenTomatoes) text = true ->
     prompt_text RottenTomatoes ex = Ok f ->
     exists p0 r p1 rest mid,
       find_sep (separator RottenTomatoes) f = Some (p0, r) /\
       find_sep (separator RottenTomatoes) r = Some (p1, rest) /\
       rest = mid +:+ sentiment).
Proof.
  split; [|split].
  - intros d ex f Hf. destruct (example_turns_total d ex f Hf) as [ts Hts].
    pose proof Hts as Hpair. apply example_turns_pair in Hpair
      as (p0 & p1 & ps & Hs & ->). by exists p0, p1, ps.
  - apply example_turns_two_occurrences.
  - apply rotten_tomatoes_quoting.
Qed.

Lemma fragment_split_total_and_lossy_witness :
  quoting_record !! "text" = Some (VStr ("x" +:+ nl +:+ "sentiment: y")) /\
  quoting_record !! "sentiment" = Some (VStr "positive") /\
  contains (separator RottenTomatoes) ("x" +:+ nl +:+ "sentiment: y") = true /\
  prompt_text RottenTomatoes quoting_record
    = Ok ("review: x" +:+ nl +:+ "sentiment: y" +:+ nl
          +:+ "sentiment: positive") /\
  find_sep (separator RottenTomatoes)
    ("review: x" +:+ nl +:+ "sentiment: y" +:+ nl +:+ "sentiment: positive")
    = Some ("review: x", "y" +:+ nl +:+ "sentiment: positive") /\
  find_sep (separator RottenTomatoes) ("y" +:+ nl +:+ "sentiment: positive")
    = Some ("y", "positive") /\
  (exists p0 p1 ps,
     split (separator RottenTomatoes)
       ("review: x" +:+ nl +:+ "sentiment: y" +:+ nl +:+ "sentiment: positive")
     = p0 :: p1 :: ps /\
     example_turns RottenTomatoes
       (VStr ("review: x" +:+ nl +:+ "sentiment: y" +:+ nl
              +:+ "sentiment: positive"))
     = Ok [Turn "user" (command RottenTomatoes +:+ p0);
           Turn "assistant" p1]) /\
  ("review: x" +:+ nl +:+ "sentiment: y" +:+ nl +:+ "sentiment: positive"
   = "review: x" +:+ separator RottenTomatoes +:+ "y"
       +:+ separator RottenTomatoes +:+ "positive" /\
   forall rest',
     example_turns RottenTomatoes
       (VStr ("review: x" +:+ separator RottenTomatoes +:+ "y"
                +:+ separator RottenTomatoes +:+ rest'))
     = Ok [Turn "user" (command RottenTomatoes +:+ "review: x");
           Turn "assistant" "y"]) /\
  exists p0 r p1 rest mid,
    find_sep (separator RottenTomatoes)
      ("review: x" +:+ nl +:+ "sentiment: y" +:+ nl +:+ "sentiment: positive")
      = Some (p0, r) /\
    find_sep (separator RottenTomatoes) r = Some (p1, rest) /\
    rest = mid +:+ "positive".
Proof.
  assert (quoting_record !! "text"
          = Some (VStr ("x" +:+ nl +:+ "sentiment: y"))) as H1
    by (vm_compute; reflexivity).
  assert (quoting_record !! "sentiment" = Some (VStr "positive")) as H2
    by (vm_compute; reflexivity).
  assert (contains (separator RottenTomatoes)
            ("x" +:+ nl +:+ "sentiment: y") = true) as H3
    by (vm_compute; reflexivity).
  assert (prompt_text RottenTomatoes quoting_record
          = Ok ("review: x" +:+ nl +:+ "sentiment: y" +:+ nl
                +:+ "sentiment: positive")) as H4
    by (vm_compute; reflexivity).
  assert (find_sep (separator RottenTomatoes)
            ("review: x" +:+ nl +:+ "sentiment: y" +:+ nl
             +:+ "sentiment: positive")
          = Some ("review: x", "y" +:+ nl +:+ "sentiment: positive")) as H5
    by (vm_compute; reflexivity).
  assert (find_sep (separator RottenTomatoes)
            ("y" +:+ nl +:+ "sentiment: positive")
          = Some ("y", "positive")) as H6
    by (vm_compute; reflexivity).
  do 6 (split; [assumption|]).
  split; [exact (proj1 fragment_split_total_and_lossy
                   RottenTomatoes quoting_record _ H4)|].
  split; [exact (proj1 (proj2 fragment_split_total_and_lossy)
                   RottenTomatoes _ _ _ _ _ H5 H6)|].
  exact (proj2 (proj2 fragment_split_total_and_lossy)
           quoting_record _ _ _ H1 H2 H3 H4).
Defined.

(** Here the assistant turn is [y], a piece of the review. *)
Example quoting_turns :
  example_turns RottenTomatoes
    (VStr ("review: x" +:+ nl +:+ "sentiment: y" +:+ nl
           +:+ "sentiment: positive"))
  = Ok [Turn "user" (command RottenTomatoes +:+ "review: x");
        Turn "assistant" "y"].
Proof. vm_compute. reflexivity. Qed.

(** * Further properties of the code *)

(** ** The constructor of the loader *)

(** X1: with the same name for both roles, [PromptLoader.__init__] has
    three outcomes.  For a name outside the three evaluation names,
    [wikicat] and [tweetqa] included, it raises [AttributeError] on
    reading [self.eval_set], and no adapter was constructed.  For one of
    the three it calls the constructor of that adapter exactly once: when
    that call raises, [__init__] raises the same error; when it returns,
    both attributes hold the reference of the one new object.  With two
    different names, a loader that comes back with both attributes
    assigned holds two different objects, made by two constructor
    calls. *)
Theorem same_name_shares_or_raises load_dataset name (o : Objects.world) :
  match eval_adapter name with
  | None =>
      Objects.PromptLoader_init load_dataset name name o
      = (Err (AttributeError "eval_set"), o)
  | Some d =>
      match DataLoader_init load_dataset d with
      | Err e =>
          Objects.PromptLoader_init load_dataset name name o
          = (Err e,
             {| Objects.adapters := Objects.adapters o;
                Objects.constructed := Objects.constructed o ++ [d] |})
      | Ok dl =>
          let r := fresh (dom (Objects.adapters o)) in
          Objects.PromptLoader_init load_dataset name name o
          = (Ok {| Objects.eval_set := Some r;
                   Objects.incontext_set := Some r |},
             {| Objects.adapters := <[r := dl]> (Objects.adapters o);
                Objects.constructed := Objects.constructed o ++ [d] |})
      end
  end /\
  (eval_adapter "wikicat" = None /\ eval_adapter "tweetqa" = None) /\
  (forall incontext eval pl o' r1 r2,
     incontext <> eval ->
     Objects.PromptLoader_init load_dataset incontext eval o = (Ok pl, o') ->
     Objects.eval_set pl = Some r1 ->
     Objects.incontext_set pl = Some r2 ->
     r1 <> r2 /\
     exists d1 d2,
       Objects.constructed o' = Objects.constructed o ++ [d1; d2]).
Proof.
  split; [|split; [done|]].
  - unfold Objects.PromptLoader_init, eval_adapter.
    rewrite String.eqb_refl.
    unfold Objects.bind, Objects.construct, Objects.ret, Objects.lift,
      getattr.
    destruct (String.eqb name "gigaword");
      [by destruct (DataLoader_init load_dataset Gigaword)|].
    destruct (String.eqb name "dailymail");
      [by destruct (DataLoader_init load_dataset Dailymail)|].
    destruct (String.eqb name "rotten_tomatoes");
      [by destruct (DataLoader_init load_dataset RottenTomatoes)|].
    done.
  - intros incontext eval pl o' r1 r2 Hne Hrun He Hi.
    apply String.eqb_neq in Hne.
    unfold Objects.PromptLoader_init in Hrun. rewrite Hne in Hrun.
    unfold Objects.bind, Objects.construct, Objects.ret in Hrun.
    repeat match type of Hrun with
           | context [String.eqb ?a ?b] => destruct (String.eqb a b)
           end;
      repeat match type of Hrun with
             | context [DataLoader_init ?l ?d] =>
                 destruct (DataLoader_init l d)
             end;
      cbn in Hrun; try discriminate Hrun;
      injection Hrun as <- <-; cbn in He, Hi;
      try discriminate He; try discriminate Hi;
      injection He as <-; injection Hi as <-;
      (split;
       [intros Heq;
        match type of Heq with
        | _ = fresh (dom ?m) =>
            apply (is_fresh (dom m)); rewrite <- Heq;
            apply elem_of_dom; rewrite lookup_insert_eq; by eexists
        end
       |eexists _, _; by rewrite <- (assoc_L (++))]).
Qed.

Lemma same_name_shares_or_raises_witness :
  Objects.PromptLoader_init demo_hub "gigaword" "gigaword"
    Objects.empty_world
  = (Ok {| Objects.eval_set := Some (fresh (dom (∅ : gmap nat DataLoader)));
           Objects.incontext_set :=
             Some (fresh (dom (∅ : gmap nat DataLoader))) |},
     {| Objects.adapters :=
          <[fresh (dom (∅ : gmap nat DataLoader)) := demo_gw]> ∅;
        Objects.constructed := [Gigaword] |}).
Proof.
  pose proof (same_name_shares_or_raises demo_hub "gigaword"
                Objects.empty_world) as [Hsame _].
  change (eval_adapter "gigaword") with (Some Gigaword) in Hsame.
  cbn beta iota in Hsame.
  assert (DataLoader_init demo_hub Gigaword = Ok demo_gw) as Hi
    by (vm_compute; reflexivity).
  rewrite Hi in Hsame. exact Hsame.
Defined.

(** X2: an evaluation name outside the three of the first chain, with a
    different in-context name, never gets an evaluation adapter:
    whenever the constructor returns, [eval_set] is unassigned and the
    three methods raise [AttributeError].  The names [wikicat] and
    [tweetqa], which the second chain knows, are such names. *)
Theorem unsupported_eval_unassigned `{NumpyRng}
    load_dataset incontext eval pl :
  eval_adapter eval = None ->
  incontext <> eval ->
  PromptLoader_init load_dataset incontext eval = Ok pl ->
  eval_set pl = None /\
  (forall k, load_prompt pl k = Err (AttributeError "eval_set")) /\
  (forall k, load_prompt_iterative pl k = Err (AttributeError "eval_set")) /\
  load_testdata pl = Err (AttributeError "eval_set") /\
  eval_adapter "wikicat" = None /\ eval_adapter "tweetqa" = None.
Proof.
  intros Heval Hne Hinit.
  assert (eval_set pl = None) as Hnone.
  { unfold PromptLoader_init, eval_adapter in *.
    repeat match type of Heval with
           | (if ?b then _ else _) = _ => destruct b; [done|]
           end.
    simpl in Hinit. inv_bind Hinit. by subst pl. }
  split; [done|]. unfold load_prompt, load_prompt_iterative, load_testdata.
  rewrite Hnone. done.
Qed.

Lemma unsupported_eval_unassigned_witness :
  eval_adapter "tweetqa" = None /\
  "gigaword" <> "tweetqa" /\
  PromptLoader_init demo_hub "gigaword" "tweetqa"
    = Ok {| eval_set := None; incontext_set := Some demo_gw |} /\
  eval_set {| eval_set := None; incontext_set := Some demo_gw |} = None /\
  (forall k, load_prompt {| eval_set := None; incontext_set := Some demo_gw |} k
             = Err (AttributeError "eval_set")) /\
  (forall k, load_prompt_iterative
               {| eval_set := None; incontext_set := Some demo_gw |} k
             = Err (AttributeError "eval_set")) /\
  load_testdata {| eval_set := None; incontext_set := Some demo_gw |}
    = Err (AttributeError "eval_set") /\
  eval_adapter "wikicat" = None /\ eval_adapter "tweetqa" = None.
Proof.
  assert (PromptLoader_init demo_hub "gigaword" "tweetqa"
          = Ok {| eval_set := None; incontext_set := Some demo_gw |}) as Hi
    by (vm_compute; reflexivity).
  split; [reflexivity|]. split; [discriminate|]. split; [exact Hi|].
  exact (unsupported_eval_unassigned demo_hub "gigaword" "tweetqa" _
           eq_refl ltac:(discriminate) Hi).
Defined.

(** ** Construction of the rotten tomatoes adapter *)

Lemma for_each_Err_inv {A B : Type} (f : A -> result B) xs e :
  for_each f xs = Err e -> exists x, x ∈ xs /\ f x = Err e.
Proof.
  induction xs as [|x xs IH]; simpl; [done|].
  destruct (f x) as [y|e'] eqn:Hx; simpl.
  - destruct (for_each f xs) as [ys|e'']; simpl; [done|].
    intros [= ->]. destruct IH as (x' & Hin & Hx'); [done|].
    exists x'. split; [by right | done].
  - intros [= ->]. exists x. split; [by left | done].
Qed.

Lemma for_each_Ok_all {A B : Type} (f : A -> result B) xs ys x :
  for_each f xs = Ok ys -> x ∈ xs -> exists y, f x = Ok y.
Proof.
  intros HF%for_each_Forall2 [i Hi]%list_elem_of_lookup.
  destruct (Forall2_lookup_l _ _ _ _ _ HF Hi) as (y & _ & Hy). by exists y.
Qed.

(** A loop whose body can fail in one way only fails in that way as soon
    as one element makes the body fail. *)
Lemma for_each_single_error {A B : Type} (f : A -> result B) xs e x :
  (forall x' e', f x' = Err e' -> e' = e) ->
  x ∈ xs -> f x = Err e -> for_each f xs = Err e.
Proof.
  intros Honly Hin Hx. destruct (for_each f xs) as [ys|e'] eqn:Hf.
  - destruct (for_each_Ok_all _ _ _ _ Hf Hin) as [y Hy]. congruence.
  - apply for_each_Err_inv in Hf as (x' & _ & Hx'). by rewrite (Honly _ _ Hx').
Qed.

Lemma label_map_error ds x :
  x ∈ ds -> x !! "label" = None ->
  ds_map _label_to_sentiment ds = Err (KeyError (VStr "label")).
Proof.
  intros Hin Hx. unfold ds_map.
  eapply for_each_single_error; [|exact Hin|].
  - intros ex e. unfold _label_to_sentiment, getitem.
    destruct (ex !! "label"); simpl; [done | by intros [= <-]].
  - unfold _label_to_sentiment, getitem. by rewrite Hx.
Qed.

Lemma label_map_only_error ds e :
  ds_map _label_to_sentiment ds = Err e -> e = KeyError (VStr "label").
Proof.
  unfold ds_map. intros (ex & _ & Hex)%for_each_Err_inv.
  unfold _label_to_sentiment, getitem in Hex.
  destruct (ex !! "label"); simpl in Hex; [done | by injection Hex].
Qed.

(** X3: [RottenTomatoesDataLoader.__init__] maps the labels of all three
    splits before it looks at any text, so one record without [label]
    in the training, validation or test split, the validation split
    being used for nothing else, makes construction fail with
    [KeyError('label')]. *)
Theorem rotten_tomatoes_needs_every_label load_dataset dd ex :
  load_dataset "rotten_tomatoes" = Ok dd ->
  ex ∈ dd_train dd ++ dd_validation dd ++ dd_test dd ->
  ex !! "label" = None ->
  DataLoader_init load_dataset RottenTomatoes = Err (KeyError (VStr "label")).
Proof.
  intros Hload Hin Hex. unfold DataLoader_init. simpl dataset_name.
  rewrite Hload. simpl. unfold dd_map.
  destruct (ds_map _label_to_sentiment (dd_train dd)) as [tr|e] eqn:Htr.
  2: { by rewrite (label_map_only_error _ _ Htr). }
  destruct (ds_map _label_to_sentiment (dd_validation dd)) as [va|e] eqn:Hva.
  2: { by rewrite (label_map_only_error _ _ Hva). }
  destruct (ds_map _label_to_sentiment (dd_test dd)) as [te|e] eqn:Hte.
  2: { by rewrite (label_map_only_error _ _ Hte). }
  exfalso. rewrite !elem_of_app in Hin. destruct Hin as [Hin|[Hin|Hin]].
  - by rewrite (label_map_error _ _ Hin Hex) in Htr.
  - by rewrite (label_map_error _ _ Hin Hex) in Hva.
  - by rewrite (label_map_error _ _ Hin Hex) in Hte.
Qed.

Lemma rotten_tomatoes_needs_every_label_witness :
  unlabelled_hub "rotten_tomatoes"
    = Ok {| dd_train := [rt_record "fine" 1];
            dd_validation := [{[ "text" := VStr "odd" ]}];
            dd_test := [rt_record "slow" 0] |} /\
  ({[ "text" := VStr "odd" ]} : gmap string value)
    ∈ [rt_record "fine" 1] ++ [{[ "text" := VStr "odd" ]}]
      ++ [rt_record "slow" 0] /\
  ({[ "text" := VStr "odd" ]} : gmap string value) !! "label" = None /\
  DataLoader_init unlabelled_hub RottenTomatoes
    = Err (KeyError (VStr "label")).
Proof.
  assert (({[ "text" := VStr "odd" ]} : gmap string value)
            ∈ [rt_record "fine" 1] ++ [{[ "text" := VStr "odd" ]}]
              ++ [rt_record "slow" 0]) as Hin.
  { simpl. apply list_elem_of_further, list_elem_of_here. }
  split; [reflexivity|]. split; [exact Hin|]. split; [reflexivity|].
  exact (rotten_tomatoes_needs_every_label unlabelled_hub _ _
           eq_refl Hin eq_refl).
Defined.

(** ** References *)

(** X4: the references of a rotten tomatoes adapter are always there:
    [load_test_reference] returns one string per evaluation record,
    [positive] when the label of the record equals 1 and [negative] for
    any other label. *)
Theorem rotten_tomatoes_references load_dataset dl :
  DataLoader_init load_dataset RottenTomatoes = Ok dl ->
  eval_pool dl <> [] ->
  exists refs,
    load_test_reference dl = Ok refs /\
    Forall2 (fun ex r =>
               exists label,
                 ex !! "label" = Some label /\
                 r = VStr (match label with
                           | VInt 1 => "positive"
                           | _ => "negative"
                           end))
            (eval_pool dl) refs.
Proof.
  intros Hinit _.
  pose proof (rotten_tomatoes_sentiment _ _ Hinit) as Hsent.
  pose proof (DataLoader_init_kind _ _ _ Hinit) as Hkind.
  destruct (load_test_reference_Ok dl) as (refs & Hrefs & HF).
  { by eapply DataLoader_init_initialised. }
  { rewrite Hkind. eapply Forall_impl; [exact Hsent|].
    intros ex (label & _ & Hs). by eexists. }
  exists refs. split; [done|]. rewrite Hkind in HF. simpl in HF.
  clear Hrefs. induction HF as [|ex r pool refs Hr HF IH]; [constructor|].
  apply Forall_cons in Hsent as [(label & Hl & Hs) Hsent].
  constructor; [|by apply IH]. exists label. split; [done|]. congruence.
Qed.

Lemma rotten_tomatoes_references_witness :
  DataLoader_init demo_hub RottenTomatoes = Ok demo_rt /\
  eval_pool demo_rt <> [] /\
  exists refs,
    load_test_reference demo_rt = Ok refs /\
    Forall2 (fun ex r =>
               exists label,
                 ex !! "label" = Some label /\
                 r = VStr (match label with
                           | VInt 1 => "positive"
                           | _ => "negative"
                           end))
            (eval_pool demo_rt) refs.
Proof.
  assert (DataLoader_init demo_hub RottenTomatoes = Ok demo_rt) as Hi
    by (vm_compute; reflexivity).
  assert (eval_pool demo_rt <> []) as Hne.
  { intros Hnil. apply (f_equal length) in Hnil.
    vm_compute in Hnil. discriminate Hnil. }
  split; [exact Hi|]. split; [exact Hne|].
  exact (rotten_tomatoes_references demo_hub demo_rt Hi Hne).
Defined.

(** X5: [load_test_reference] raises [KeyError] with the name of its
    column as soon as one evaluation record lacks that column.  That is
    the case of [TweetQADataLoader] on records with the fields its own
    [_prompt] and [_eval_prompt] read: it asks for [summary]. *)
Theorem missing_reference_column load_dataset d es ex :
  DataLoader_init load_dataset d = Ok es ->
  ex ∈ eval_pool es ->
  ex !! reference_column d = None ->
  load_test_reference es = Err (KeyError (VStr (reference_column d))).
Proof.
  intros Hinit Hin Hex.
  pose proof (DataLoader_init_kind _ _ _ Hinit) as Hkind.
  destruct (DataLoader_init_initialised _ _ _ Hinit) as [_ Htest].
  unfold load_test_reference, ds_column. rewrite Hkind.
  apply list_elem_of_lookup in Hin as [i Hi].
  destruct (Forall2_lookup_l _ _ _ _ _ Htest Hi) as (row & Hrow & q & _ & ->).
  eapply for_each_single_error.
  - intros row e. unfold getitem.
    destruct (row !! reference_column d); [done | by intros [= <-]].
  - eapply list_elem_of_lookup_2, Hrow.
  - unfold getitem. rewrite lookup_union_r.
    + by rewrite Hex.
    + apply lookup_singleton_ne, not_eq_sym,
        reference_column_not_eval_prompt.
Qed.

Lemma missing_reference_column_witness :
  DataLoader_init tweet_hub TweetQA = Ok demo_tq /\
  tq_record "we won" "who won" "we" ∈ eval_pool demo_tq /\
  tq_record "we won" "who won" "we" !! reference_column TweetQA = None /\
  load_test_reference demo_tq
    = Err (KeyError (VStr (reference_column TweetQA))).
Proof.
  assert (DataLoader_init tweet_hub TweetQA = Ok demo_tq) as Hi
    by (vm_compute; reflexivity).
  assert (tq_record "we won" "who won" "we" ∈ eval_pool demo_tq) as Hin.
  { replace (eval_pool demo_tq) with [tq_record "we won" "who won" "we"]
      by (vm_compute; reflexivity).
    apply list_elem_of_here. }
  assert (tq_record "we won" "who won" "we" !! reference_column TweetQA
          = None) as Hex by (vm_compute; reflexivity).
  split; [exact Hi|]. split; [exact Hin|]. split; [exact Hex|].
  exact (missing_reference_column tweet_hub TweetQA demo_tq _ Hi Hin Hex).
Defined.

(** ** Evaluation queries *)

(** X6: the evaluation query of a record depends on the input fields of
    its class only: writing any other field, the reference column or the
    label among them, leaves [_eval_prompt] as it was. *)
Theorem eval_prompt_reads_inputs_only d ex key v :
  key ∉ input_fields d ->
  _eval_prompt d (<[key := v]> ex) = _eval_prompt d ex /\
  (reference_column d ∉ input_fields d) /\
  ("label" ∉ input_fields d).
Proof.
  intros Hkey. split; [|split; destruct d; simpl; not_in_literals].
  unfold _eval_prompt. f_equal.
  destruct d; simpl in *; unfold getstr, getitem;
    repeat (apply not_elem_of_cons in Hkey as [? Hkey]);
    by rewrite ?lookup_insert_ne by done.
Qed.

Lemma eval_prompt_reads_inputs_only_witness :
  ("sentiment" ∉ input_fields RottenTomatoes) /\
  _eval_prompt RottenTomatoes
    (<["sentiment" := VStr "positive"]> (rt_record "slow" 0))
  = _eval_prompt RottenTomatoes (rt_record "slow" 0) /\
  (reference_column RottenTomatoes ∉ input_fields RottenTomatoes) /\
  ("label" ∉ input_fields RottenTomatoes).
Proof.
  assert ("sentiment" ∉ input_fields RottenTomatoes) as Hkey
    by (simpl; not_in_literals).
  split; [exact Hkey|].
  exact (eval_prompt_reads_inputs_only RottenTomatoes
           (rt_record "slow" 0) "sentiment" (VStr "positive") Hkey).
Defined.

(** ** The prompt builders on a constructed adapter *)

(** X7: on an adapter its constructor returned, the two prompt builders
    raise nothing but [ValueError], and they raise together: exactly
    when [k > 0] and the seed is negative or [k] exceeds the training
    pool.  Otherwise both return. *)
Theorem builders_raise_together `{NumpyRng} load_dataset d ic k seed :
  DataLoader_init load_dataset d = Ok ic ->
  (0 < k /\ ((seed < 0)%Z \/ length (train ic) < k) ->
   incontext_prompt ic k seed = Err ValueError /\
   incontext_prompt_iterative ic k seed = Err ValueError) /\
  (~ (0 < k /\ ((seed < 0)%Z \/ length (train ic) < k)) ->
   exists prompt turns,
     incontext_prompt ic k seed = Ok prompt /\
     incontext_prompt_iterative ic k seed = Ok turns).
Proof.
  intros Hinit. pose proof (DataLoader_init_initialised _ _ _ Hinit) as Hic.
  split.
  - intros [Hk [Hseed|Hlen]].
    + unfold incontext_prompt, incontext_prompt_iterative, default_rng.
      destruct (Nat.eqb_spec k 0); [lia|].
      destruct (Z.ltb_spec seed 0); [done | lia].
    + split; [by apply incontext_prompt_too_many
             | by apply incontext_prompt_iterative_too_many].
  - intros Hok. destruct k as [|k]; [by exists "", []|].
    destruct (incontext_prompt_returns ic (S k) seed Hic) as [prompt Hp];
      [lia | lia |].
    destruct (incontext_prompt_iterative_returns ic (S k) seed Hic)
      as [turns Ht]; [lia | lia |].
    by exists prompt, turns.
Qed.

Lemma builders_raise_together_witness :
  DataLoader_init demo_hub Gigaword = Ok demo_gw /\
  (0 < 1 /\ ((-3 < 0)%Z \/ length (train demo_gw) < 1) ->
   incontext_prompt demo_gw 1 (-3) = Err ValueError /\
   incontext_prompt_iterative demo_gw 1 (-3) = Err ValueError) /\
  (~ (0 < 1 /\ ((-3 < 0)%Z \/ length (train demo_gw) < 1)) ->
   exists prompt turns,
     incontext_prompt demo_gw 1 (-3) = Ok prompt /\
     incontext_prompt_iterative demo_gw 1 (-3) = Ok turns).
Proof.
  assert (DataLoader_init demo_hub Gigaword = Ok demo_gw) as Hi
    by (vm_compute; reflexivity).
  split; [exact Hi|].
  exact (builders_raise_together demo_hub Gigaword demo_gw 1 (-3) Hi).
Defined.

(** ** The shape of a conversation *)

Lemma turn_pairs_shape d frags pairs :
  Forall2 (turn_pair d) frags pairs ->
  length (concat pairs) = 2 * length frags /\
  forall j t, concat pairs !! j = Some t -> role t = role_at j.
Proof.
  induction 1 as [|f ts frags pairs (p0 & p1 & ps & _ & ->) _ [IHlen IHrole]].
  - split; [done|]. intros j t. simpl. by rewrite lookup_nil.
  - split; [simpl; lia|]. intros [|[|j]] t; simpl.
    + by intros [= <-].
    + by intros [= <-].
    + intros Ht. rewrite (IHrole j t Ht). unfold role_at. simpl.
      by destruct j.
Qed.

Lemma role_at_double k : role_at (2 * k) = "user".
Proof.
  unfold role_at. replace (Nat.even (2 * k)) with true; [done|].
  symmetry. apply Nat.even_spec. by exists k.
Qed.

(** X8: every conversation [load_prompt_iterative] returns for [k]
    in-context examples has [2 k + 1] turns, whose roles alternate: user
    at the even positions, assistant at the odd ones, so the last turn is
    a user turn. *)
Theorem conversation_shape `{NumpyRng}
    load_dataset incontext eval pl ic es k turnss :
  PromptLoader_init load_dataset incontext eval = Ok pl ->
  incontext_set pl = Some ic ->
  eval_set pl = Some es ->
  load_prompt_iterative pl k = Ok turnss ->
  forall i turns, turnss !! i = Some turns ->
    length turns = 2 * k + 1 /\
    forall j t, turns !! j = Some t -> role t = role_at j.
Proof.
  intros Hinit Hic Hes Hret i turns Hturns.
  destruct (load_prompt_iterative_layout _ _ _ _ _ _ _ _ Hinit Hic Hes Hret)
    as [Hlen Hlook].
  destruct (lookup_lt_is_Some_2 (eval_pool es) i) as [ex Hex].
  { rewrite <- Hlen. by eapply lookup_lt_Some. }
  destruct (Hlook i ex Hex)
    as (q & frags & pairs & _ & Hzero & Hpos & Hpairs & Hi).
  rewrite Hturns in Hi. injection Hi as ->.
  destruct (turn_pairs_shape _ _ _ Hpairs) as [Hplen Hprole].
  assert (length frags = k) as Hk.
  { destruct k as [|k]; [by rewrite Hzero|].
    destruct (le_lt_dec (S k) (length (train ic))) as [Hkn|Hkn].
    - specialize (Hpos ltac:(lia)). apply Forall2_length in Hpos.
      rewrite <- Hpos. by apply draw_length.
    - destruct (load_prompt_oversized _ _ _ _ _ _ _ Hinit Hic Hes Hkn)
        as [_ Herr]; [by intros Hnil; rewrite Hnil in Hex|].
      by rewrite Hret in Herr. }
  split.
  - rewrite length_app, Hplen, Hk. simpl. lia.
  - intros j t Ht. apply lookup_app_Some in Ht as [Ht|[Hge Ht]].
    + by apply Hprole.
    + rewrite Hplen, Hk in Hge, Ht.
      destruct (j - 2 * k) as [|m] eqn:Hm; [|by destruct m].
      injection Ht as <-. simpl.
      replace j with (2 * k) by lia. by rewrite role_at_double.
Qed.

Lemma conversation_shape_witness :
  PromptLoader_init demo_hub "gigaword" "rotten_tomatoes" = Ok demo_pl /\
  incontext_set demo_pl = Some demo_gw /\
  eval_set demo_pl = Some demo_rt /\
  exists turnss,
    load_prompt_iterative demo_pl 2 = Ok turnss /\
    forall i turns, turnss !! i = Some turns ->
      length turns = 2 * 2 + 1 /\
      forall j t, turns !! j = Some t -> role t = role_at j.
Proof.
  split; [exact demo_pl_init|]. split; [reflexivity|]. split; [reflexivity|].
  destruct (load_prompt_iterative demo_pl 2) as [turnss|e] eqn:Hret.
  - exists turnss. split; [reflexivity|].
    exact (conversation_shape demo_hub "gigaword" "rotten_tomatoes"
             demo_pl demo_gw demo_rt 2 turnss
             demo_pl_init eq_refl eq_refl Hret).
  - exfalso. vm_compute in Hret. discriminate Hret.
Defined.

(** X9: with an in-context adapter other than the rotten tomatoes one,
    the [j]-th pair of turns of the conversation at position [i] comes
    from the training record at the [j]-th position drawn with seed [i]:
    the user turn is the instruction of the adapter, the one its
    evaluation queries start with, followed by the first part of that
    record's fragment, and the assistant turn after it is the second
    part. *)
Theorem in_context_turns_carry_instruction `{NumpyRng}
    load_dataset incontext eval pl ic es k turnss :
  PromptLoader_init load_dataset incontext eval = Ok pl ->
  incontext_set pl = Some ic ->
  eval_set pl = Some es ->
  kind ic <> RottenTomatoes ->
  load_prompt_iterative pl k = Ok turnss ->
  forall i turns j, turnss !! i = Some turns -> j < k ->
    exists idx f p0 p1 ps,
      draw (seed_state (Z.of_nat i)) (length (train ic)) k !! j = Some idx /\
      fragment_of ic idx f /\
      split (separator (kind ic)) f = p0 :: p1 :: ps /\
      turns !! (2 * j) = Some (Turn "user" (instruction (kind ic) +:+ p0)) /\
      turns !! (2 * j + 1) = Some (Turn "assistant" p1).
Proof.
  intros Hinit Hic Hes Hkind Hret i turns j Hturns Hj.
  destruct (load_prompt_iterative_layout _ _ _ _ _ _ _ _ Hinit Hic Hes Hret)
    as [Hlen Hlook].
  destruct (lookup_lt_is_Some_2 (eval_pool es) i) as [ex Hex].
  { rewrite <- Hlen. by eapply lookup_lt_Some. }
  destruct (Hlook i ex Hex)
    as (q & frags & pairs & _ & _ & Hpos & Hpairs & Hi).
  rewrite Hturns in Hi. injection Hi as ->.
  specialize (Hpos ltac:(lia)).
  assert (length frags = k) as Hk.
  { destruct (le_lt_dec k (length (train ic))) as [Hkn|Hkn].
    - apply Forall2_length in Hpos. rewrite <- Hpos. by apply draw_length.
    - destruct (load_prompt_oversized _ _ _ _ _ _ _ Hinit Hic Hes Hkn)
        as [_ Herr]; [by intros Hnil; rewrite Hnil in Hex|].
      by rewrite Hret in Herr. }
  rewrite <- (command_is_instruction _ Hkind).
  set (idxs := draw (seed_state (Z.of_nat i)) (length (train ic)) k) in *.
  clearbody idxs. rewrite <- Hk in Hj. clear -Hpos Hpairs Hj.
  revert pairs Hpairs j Hj.
  induction Hpos as [|idx f idxs frags Hf Hpos IH]; intros pairs Hpairs j Hj.
  - simpl in Hj. lia.
  - apply Forall2_cons_inv_l in Hpairs
      as (ts & pairs' & (p0 & p1 & ps & Hs & ->) & Hpairs & ->).
    destruct j as [|j].
    + by exists idx, f, p0, p1, ps.
    + destruct (IH pairs' Hpairs j) as (idx' & f' & q0 & q1 & qs & Hd & Hf'
                                        & Hs' & Hu & Ha);
        [simpl in Hj; lia|].
      exists idx', f', q0, q1, qs. split; [done|]. split; [done|].
      split; [done|].
      replace (2 * S j) with (S (S (2 * j))) by lia.
      replace (S (S (2 * j)) + 1) with (S (S (2 * j + 1))) by lia.
      by split.
Qed.

Lemma in_context_turns_carry_instruction_witness :
  PromptLoader_init demo_hub "gigaword" "rotten_tomatoes" = Ok demo_pl /\
  incontext_set demo_pl = Some demo_gw /\
  eval_set demo_pl = Some demo_rt /\
  kind demo_gw <> RottenTomatoes /\
  exists turnss,
    load_prompt_iterative demo_pl 2 = Ok turnss /\
    forall i turns j, turnss !! i = Some turns -> j < 2 ->
      exists idx f p0 p1 ps,
        draw (seed_state (Z.of_nat i)) (length (train demo_gw)) 2 !! j
        = Some idx /\
        fragment_of demo_gw idx f /\
        split (separator (kind demo_gw)) f = p0 :: p1 :: ps /\
        turns !! (2 * j)
          = Some (Turn "user" (instruction (kind demo_gw) +:+ p0)) /\
        turns !! (2 * j + 1) = Some (Turn "assistant" p1).
Proof.
  assert (kind demo_gw <> RottenTomatoes) as Hkind
    by (vm_compute; discriminate).
  split; [exact demo_pl_init|]. split; [reflexivity|]. split; [reflexivity|].
  split; [exact Hkind|].
  destruct (load_prompt_iterative demo_pl 2) as [turnss|e] eqn:Hret.
  - exists turnss. split; [reflexivity|].
    exact (in_context_turns_carry_instruction demo_hub "gigaword"
             "rotten_tomatoes" demo_pl demo_gw demo_rt 2 turnss
             demo_pl_init eq_refl eq_refl Hkind Hret).
  - exfalso. vm_compute in Hret. discriminate Hret.
Defined.

(** ** Fragments with one occurrence of the separator *)

(** Two strings that start the same text: the shorter one is a prefix of
    the longer one. *)
Lemma append_eq_prefix (a b c d : string) :
  a +:+ b = c +:+ d -> String.length a <= String.length c ->
  exists mid, c = a +:+ mid /\ b = mid +:+ d.
Proof.
  revert c. induction a as [|x a IH]; intros c Heq Hlen.
  - exists c. by rewrite !append_nil_l in *.
  - destruct c as [|y c]; [simpl in Hlen; lia|].
    rewrite !append_cons in Heq. injection Heq as -> Heq.
    destruct (IH c Heq) as (mid & -> & ->); [simpl in Hlen; lia|].
    by exists mid.
Qed.

Lemma contains_cons_false (sub : string) (c : ascii) (s : string) :
  contains sub (String c s) = false ->
  strip_prefix sub (String c s) = None /\ contains sub s = false.
Proof.
  simpl. destruct (strip_prefix sub (String c s)); [done|]. by intros ->.
Qed.

(** Every separator starts with a newline and has no other: an
    occurrence of it cannot overlap another one. *)
Lemma separator_head_unique d : head_unique (separator d) = true.
Proof. destruct d; vm_compute; reflexivity. Qed.

(** With such a separator, the leftmost occurrence in [a ++ sep ++ b] is
    the one written out, when [a] has none. *)
Lemma find_sep_first (sep a b : string) :
  head_unique sep = true -> contains sep a = false ->
  find_sep sep (a +:+ sep +:+ b) = Some (a, b).
Proof.
  intros Hhead. destruct sep as [|c0 body]; [done|].
  simpl in Hhead. apply negb_true_iff in Hhead.
  induction a as [|c a IH]; intros Ha.
  - rewrite append_nil_l. apply find_sep_at_sep.
  - apply contains_cons_false in Ha as [Hno Ha].
    rewrite append_cons. cbn [find_sep].
    destruct (strip_prefix (String c0 body)
                (String c (a +:+ String c0 body +:+ b))) as [r|] eqn:E.
    + exfalso. apply strip_prefix_Some in E.
      rewrite append_cons in E. injection E as -> E.
      destruct (le_lt_dec (String.length body) (String.length a))
        as [Hle|Hlt].
      * symmetry in E.
        destruct (append_eq_prefix _ _ _ _ E Hle) as (mid & -> & _).
        change (String c0 (body +:+ mid)) with (String c0 body +:+ mid)
          in Hno.
        by rewrite strip_prefix_append in Hno.
      * destruct (append_eq_prefix _ _ _ _ E) as (mid & -> & Hmid); [lia|].
        destruct mid as [|m mid].
        { rewrite length_append in Hlt. simpl in Hlt. lia. }
        rewrite !append_cons in Hmid. injection Hmid as <- _.
        assert (contains (String c0 "") (a +:+ String c0 mid) = true)
          as Hin; [|congruence].
        apply contains_spec. by exists a, mid.
    + by rewrite (IH Ha).
Qed.

(** X10: a fragment whose input part and target part both lack the
    separator is split without loss: the user turn is the command
    followed by the whole input part, the assistant turn is the whole
    target part. *)
Theorem single_separator_fragment_lossless d inp tgt :
  contains (separator d) inp = false ->
  contains (separator d) tgt = false ->
  example_turns d (VStr (inp +:+ separator d +:+ tgt))
  = Ok [Turn "user" (command d +:+ inp); Turn "assistant" tgt].
Proof.
  intros Hinp Htgt.
  pose proof (find_sep_first _ inp tgt (separator_head_unique d) Hinp) as Hf.
  assert (find_sep (separator d) tgt = None) as Hnone.
  { destruct (find_sep (separator d) tgt) eqn:E; [|done].
    assert (contains (separator d) tgt = true); [|congruence].
    apply contains_find_sep. by eexists. }
  unfold example_turns. simpl.
  rewrite (find_sep_split _ _ _ _ (separator_nonempty d) Hf).
  by rewrite (find_sep_None_split _ _ Hnone).
Qed.

Lemma single_separator_fragment_lossless_witness :
  contains (separator Gigaword) "article: rain" = false /\
  contains (separator Gigaword) "wet" = false /\
  example_turns Gigaword
    (VStr ("article: rain" +:+ separator Gigaword +:+ "wet"))
  = Ok [Turn "user" (command Gigaword +:+ "article: rain");
        Turn "assistant" "wet"].
Proof.
  split; [reflexivity|]. split; [reflexivity|].
  apply single_separator_fragment_lossless; reflexivity.
Defined.

(** ** The record transforms *)

Module TransformLaws.
Import Transforms.

(** What [change_key] computes, by whether the old key is there. *)
Lemma change_key_Ok (h : store) ex d old_key new_key v :
  h !! ex = Some d -> d !! old_key = Some v ->
  change_key ex old_key new_key h
  = (Ok (fresh (dom h)),
     <[fresh (dom h) := <[new_key := v]> (delete old_key d)]> h).
Proof.
  intros Hex Hold.
  unfold change_key, dict_copy, dict_pop, dict_set, bind, deref, lift, ret,
    getitem.
  rewrite Hex, lookup_insert_eq, Hold, lookup_insert_eq.
  by rewrite !insert_insert_eq.
Qed.

Lemma change_key_Err (h : store) ex d old_key new_key :
  h !! ex = Some d -> d !! old_key = None ->
  change_key ex old_key new_key h
  = (Err (KeyError (VStr old_key)), <[fresh (dom h) := d]> h).
Proof.
  intros Hex Hold.
  unfold change_key, dict_copy, dict_pop, dict_set, bind, deref, lift, ret,
    getitem.
  by rewrite Hex, lookup_insert_eq, Hold.
Qed.

Lemma fresh_None (h : store) : h !! fresh (dom h) = None.
Proof. apply not_elem_of_dom, is_fresh. Qed.

Lemma fresh_ne (h : store) ex d : h !! ex = Some d -> fresh (dom h) <> ex.
Proof. intros Hex Heq. rewrite <- Heq, fresh_None in Hex. done. Qed.

(** What [content_map] computes. *)
Lemma content_map_Ok (h : store) ex d key mapping n w :
  h !! ex = Some d -> d !! key = Some (VInt n) -> mapping !! n = Some w ->
  content_map ex key mapping h = (Ok ex, <[ex := <[key := w]> d]> h).
Proof.
  intros Hex Hkey Hmap.
  unfold content_map, dict_get, dict_set, bind, deref, lift, ret, getitem,
    mapping_get.
  rewrite Hex. cbn beta iota. rewrite Hkey. cbn beta iota. rewrite Hmap.
  cbn beta iota. by rewrite ?Hex.
Qed.

(** X11: [change_key] returns a new dict that holds the popped value
    under the new key, in place of whatever was there, and has no entry
    under the old key unless the two keys are the same; without the old
    key it raises [KeyError] of that key.  Either way every dict of the
    store, the argument among them, is as before. *)
Theorem change_key_contract (h : store) ex d old_key new_key :
  h !! ex = Some d ->
  (forall v, d !! old_key = Some v ->
     exists new h',
       change_key ex old_key new_key h = (Ok new, h') /\
       h !! new = None /\ h ⊆ h' /\
       h' !! new = Some (<[new_key := v]> (delete old_key d))) /\
  (d !! old_key = None ->
     exists h',
       change_key ex old_key new_key h = (Err (KeyError (VStr old_key)), h') /\
       h ⊆ h').
Proof.
  intros Hex. split.
  - intros v Hold. eexists _, _.
    split; [by apply change_key_Ok|].
    split; [apply fresh_None|].
    split; [apply insert_subseteq, fresh_None | by rewrite lookup_insert_eq].
  - intros Hold. eexists. split; [by apply change_key_Err|].
    apply insert_subseteq, fresh_None.
Qed.

Lemma change_key_contract_witness :
  demo_store !! 0 = Some (rt_record "fine" 1) /\
  (forall v, rt_record "fine" 1 !! "label" = Some v ->
     exists new h',
       change_key 0 "label" "Sentiment" demo_store = (Ok new, h') /\
       demo_store !! new = None /\ demo_store ⊆ h' /\
       h' !! new
       = Some (<["Sentiment" := v]> (delete "label" (rt_record "fine" 1)))) /\
  (rt_record "fine" 1 !! "label" = None ->
     exists h',
       change_key 0 "label" "Sentiment" demo_store
       = (Err (KeyError (VStr "label")), h') /\
       demo_store ⊆ h').
Proof.
  assert (demo_store !! 0 = Some (rt_record "fine" 1)) as Hex
    by reflexivity.
  split; [exact Hex|].
  exact (change_key_contract demo_store 0 _ "label" "Sentiment" Hex).
Defined.

(** X12: renaming a key and renaming it back gives a dict that differs
    from the first one by the entry the intermediate name had: the round
    trip is the identity exactly when the intermediate name is not a key
    of the record. *)
Theorem change_key_round_trip (h : store) ex d a b v :
  h !! ex = Some d -> d !! a = Some v -> a <> b ->
  exists r1 h1 r2 h2,
    change_key ex a b h = (Ok r1, h1) /\
    change_key r1 b a h1 = (Ok r2, h2) /\
    h2 !! r2 = Some (delete b d) /\
    (delete b d = d <-> d !! b = None).
Proof.
  intros Hex Ha Hab.
  eexists _, _, _, _. split; [by apply change_key_Ok|].
  split.
  { apply change_key_Ok with (v := v); [apply lookup_insert_eq|].
    apply lookup_insert_eq. }
  split.
  - rewrite lookup_insert_eq. f_equal. apply map_eq. intros k.
    destruct (decide (k = a)) as [->|Hka].
    + by rewrite lookup_insert_eq, lookup_delete_ne, Ha.
    + rewrite lookup_insert_ne by done.
      destruct (decide (k = b)) as [->|Hkb].
      * by rewrite !lookup_delete_eq.
      * rewrite lookup_delete_ne, lookup_insert_ne, !lookup_delete_ne by done.
        done.
  - split.
    + intros Heq. rewrite <- Heq. apply lookup_delete_eq.
    + apply delete_id.
Qed.

Lemma change_key_round_trip_witness :
  demo_store !! 0 = Some (rt_record "fine" 1) /\
  rt_record "fine" 1 !! "text" = Some (VStr "fine") /\
  "text" <> "label" /\
  exists r1 h1 r2 h2,
    change_key 0 "text" "label" demo_store = (Ok r1, h1) /\
    change_key r1 "label" "text" h1 = (Ok r2, h2) /\
    h2 !! r2 = Some (delete "label" (rt_record "fine" 1)) /\
    (delete "label" (rt_record "fine" 1) = rt_record "fine" 1
     <-> rt_record "fine" 1 !! "label" = None).
Proof.
  assert ("text" <> "label") as Hne by discriminate.
  split; [reflexivity|]. split; [reflexivity|]. split; [exact Hne|].
  exact (change_key_round_trip demo_store 0 _ "text" "label" _
           eq_refl eq_refl Hne).
Defined.

(** X13: [content_map] writes the mapped value into the dict it was
    given and returns that dict; when it raises, for a missing key or a
    value the mapping does not have, the store is exactly as before. *)
Theorem content_map_contract (h : store) ex d key mapping :
  h !! ex = Some d ->
  (forall n w, d !! key = Some (VInt n) -> mapping !! n = Some w ->
     content_map ex key mapping h = (Ok ex, <[ex := <[key := w]> d]> h)) /\
  (d !! key = None ->
     content_map ex key mapping h = (Err (KeyError (VStr key)), h)) /\
  (forall n, d !! key = Some (VInt n) -> mapping !! n = None ->
     content_map ex key mapping h = (Err (KeyError (VInt n)), h)) /\
  (forall s, d !! key = Some (VStr s) ->
     content_map ex key mapping h = (Err (KeyError (VStr s)), h)).
Proof.
  intros Hex. split; [intros n w; by apply content_map_Ok|].
  unfold content_map, dict_get, dict_set, bind, deref, lift, ret, getitem,
    mapping_get.
  rewrite Hex. split; [by intros ->|].
  split; [by intros n -> -> | by intros s ->].
Qed.

Lemma content_map_contract_witness :
  demo_store !! 0 = Some (rt_record "fine" 1) /\
  (forall n w, rt_record "fine" 1 !! "label" = Some (VInt n) ->
     sentiment_mapping !! n = Some w ->
     content_map 0 "label" sentiment_mapping demo_store
     = (Ok 0, <[0 := <["label" := w]> (rt_record "fine" 1)]> demo_store)) /\
  (rt_record "fine" 1 !! "label" = None ->
     content_map 0 "label" sentiment_mapping demo_store
     = (Err (KeyError (VStr "label")), demo_store)) /\
  (forall n, rt_record "fine" 1 !! "label" = Some (VInt n) ->
     sentiment_mapping !! n = None ->
     content_map 0 "label" sentiment_mapping demo_store
     = (Err (KeyError (VInt n)), demo_store)) /\
  (forall s, rt_record "fine" 1 !! "label" = Some (VStr s) ->
     content_map 0 "label" sentiment_mapping demo_store
     = (Err (KeyError (VStr s)), demo_store)).
Proof.
  assert (demo_store !! 0 = Some (rt_record "fine" 1)) as Hex
    by reflexivity.
  split; [exact Hex|].
  exact (content_map_contract demo_store 0 _ "label" sentiment_mapping Hex).
Defined.

(** X14: [content_map] with the mapping of [_load_rotten_tomatoes]
    cannot be applied twice: the first call puts the sentiment string
    where the label was, so the second call on the same record raises
    [KeyError] of that string and leaves the record as the first call
    made it. *)
Theorem content_map_not_idempotent (h : store) ex d key n :
  h !! ex = Some d -> d !! key = Some (VInt n) -> (n = 0 \/ n = 1)%Z ->
  exists s h1,
    content_map ex key sentiment_mapping h = (Ok ex, h1) /\
    h1 !! ex = Some (<[key := VStr s]> d) /\
    content_map ex key sentiment_mapping h1 = (Err (KeyError (VStr s)), h1).
Proof.
  intros Hex Hkey Hn.
  assert (exists s, sentiment_mapping !! n = Some (VStr s)) as [s Hs].
  { destruct Hn as [-> | ->]; by eexists. }
  exists s, (<[ex := <[key := VStr s]> d]> h).
  split; [by apply content_map_Ok with (n := n)|].
  split; [by rewrite lookup_insert_eq|].
  unfold content_map, dict_get, dict_set, bind, deref, lift, ret, getitem,
    mapping_get.
  by rewrite !lookup_insert_eq.
Qed.

Lemma content_map_not_idempotent_witness :
  demo_store !! 0 = Some (rt_record "fine" 1) /\
  rt_record "fine" 1 !! "label" = Some (VInt 1) /\
  (1 = 0 \/ 1 = 1)%Z /\
  exists s h1,
    content_map 0 "label" sentiment_mapping demo_store = (Ok 0, h1) /\
    h1 !! 0 = Some (<["label" := VStr s]> (rt_record "fine" 1)) /\
    content_map 0 "label" sentiment_mapping h1
    = (Err (KeyError (VStr s)), h1).
Proof.
  assert (1 = 0 \/ 1 = 1)%Z as Hn by (right; reflexivity).
  split; [reflexivity|]. split; [reflexivity|]. split; [exact Hn|].
  exact (content_map_not_idempotent demo_store 0 _ "label" 1
           eq_refl eq_refl Hn).
Defined.

(** X15: [_multi_key_to_text] with two different keys that hold strings
    returns a new dict where ["text"] is the two strings with a space
    between them and the two keys are gone (unless one of them is
    ["text"] itself); the argument is as before. *)
Theorem multi_key_to_text_contract (h : store) ex d key1 key2 a b :
  h !! ex = Some d -> key1 <> key2 ->
  d !! key1 = Some (VStr a) -> d !! key2 = Some (VStr b) ->
  exists new h',
    _multi_key_to_text ex key1 key2 h = (Ok new, h') /\
    h !! new = None /\ h' !! ex = Some d /\
    h' !! new
    = Some (<["text" := VStr (a +:+ " " +:+ b)]>
              (delete key2 (delete key1 d))).
Proof.
  intros Hex Hne H1 H2.
  exists (fresh (dom h)). eexists. split.
  - unfold _multi_key_to_text, dict_copy, dict_pop, dict_set, bind, deref,
      lift, ret, getitem.
    rewrite Hex, lookup_insert_eq, H1. simpl. rewrite lookup_insert_eq.
    rewrite lookup_delete_ne, H2 by done. simpl. rewrite lookup_insert_eq.
    reflexivity.
  - split; [apply fresh_None|]. split.
    + rewrite !lookup_insert_ne by (by apply fresh_ne with d). done.
    + by rewrite lookup_insert_eq.
Qed.

Lemma multi_key_to_text_contract_witness :
  tweet_store !! 0
  = Some {[ "Tweet" := VStr "we won"; "Question" := VStr "who won" ]} /\
  "Tweet" <> "Question" /\
  exists new h',
    _multi_key_to_text 0 "Tweet" "Question" tweet_store = (Ok new, h') /\
    tweet_store !! new = None /\
    h' !! 0
    = Some {[ "Tweet" := VStr "we won"; "Question" := VStr "who won" ]} /\
    h' !! new
    = Some (<["text" := VStr ("we won" +:+ " " +:+ "who won")]>
              (delete "Question"
                 (delete "Tweet"
                    {[ "Tweet" := VStr "we won";
                       "Question" := VStr "who won" ]}))).
Proof.
  assert ("Tweet" <> "Question") as Hne by discriminate.
  split; [reflexivity|]. split; [exact Hne|].
  exact (multi_key_to_text_contract tweet_store 0 _ "Tweet" "Question"
           "we won" "who won" eq_refl Hne eq_refl eq_refl).
Defined.

(** X16: [_multi_key_to_text] with the same key given twice never
    returns: the first [pop] removes the key the second one asks for.
    When the key holds a string the error is the [KeyError] of that key,
    although the record has it; the argument is as before. *)
Theorem multi_key_to_text_same_key (h : store) ex d key :
  h !! ex = Some d ->
  exists e h',
    _multi_key_to_text ex key key h = (Err e, h') /\
    h' !! ex = Some d /\
    (forall s, d !! key = Some (VStr s) -> e = KeyError (VStr key)).
Proof.
  intros Hex. pose proof (fresh_ne h ex d Hex) as Hne.
  unfold _multi_key_to_text, dict_copy, dict_pop, dict_set, bind, deref,
    lift, ret, getitem.
  rewrite Hex, lookup_insert_eq.
  destruct (d !! key) as [[s|n|l|m]|] eqn:Hkey; simpl.
  - rewrite lookup_insert_eq, lookup_delete_eq. simpl.
    eexists _, _. split; [done|].
    split; [by rewrite !lookup_insert_ne | done].
  - eexists _, _. split; [done|].
    split; [by rewrite !lookup_insert_ne | done].
  - eexists _, _. split; [done|].
    split; [by rewrite !lookup_insert_ne | done].
  - eexists _, _. split; [done|].
    split; [by rewrite !lookup_insert_ne | done].
  - eexists _, _. split; [done|].
    split; [by rewrite !lookup_insert_ne | done].
Qed.

Lemma multi_key_to_text_same_key_witness :
  tweet_store !! 0
  = Some {[ "Tweet" := VStr "we won"; "Question" := VStr "who won" ]} /\
  exists e h',
    _multi_key_to_text 0 "Tweet" "Tweet" tweet_store = (Err e, h') /\
    h' !! 0
    = Some {[ "Tweet" := VStr "we won"; "Question" := VStr "who won" ]} /\
    (forall s,
       ({[ "Tweet" := VStr "we won"; "Question" := VStr "who won" ]}
          : gmap string value) !! "Tweet" = Some (VStr s) ->
       e = KeyError (VStr "Tweet")).
Proof.
  split; [reflexivity|].
  exact (multi_key_to_text_same_key tweet_store 0 _ "Tweet" eq_refl).
Defined.

(** X17: [_invert_labels] replaces an integer label [n] by [1 - n] in a
    new dict, and inverting the result gives a dict equal to the first
    one, for every integer and not only for 0 and 1. *)
Theorem invert_labels_involution (h : store) ex d n :
  h !! ex = Some d -> d !! "label" = Some (VInt n) ->
  exists r1 h1 r2 h2,
    _invert_labels ex h = (Ok r1, h1) /\
    h1 !! r1 = Some (<["label" := VInt (1 - n)]> d) /\
    _invert_labels r1 h1 = (Ok r2, h2) /\
    h2 !! r2 = Some d /\ h2 !! ex = Some d /\ r1 <> ex /\ r2 <> r1.
Proof.
  intros Hex Hlabel.
  assert (forall (g : store) r c m,
    g !! r = Some c -> c !! "label" = Some (VInt m) ->
    _invert_labels r g
    = (Ok (fresh (dom g)),
       <[fresh (dom g) := <["label" := VInt (1 - m)]> c]> g)) as Hstep.
  { intros g r c m Hr Hc.
    unfold _invert_labels, dict_copy, dict_get, dict_set, bind, deref, lift,
      ret, getitem.
    rewrite Hr, lookup_insert_eq, Hc. simpl. rewrite lookup_insert_eq.
    by rewrite insert_insert_eq. }
  set (r1 := fresh (dom h)).
  set (h1 := <[r1 := <["label" := VInt (1 - n)]> d]> h).
  assert (h1 !! r1 = Some (<["label" := VInt (1 - n)]> d)) as Hr1
    by apply lookup_insert_eq.
  exists r1, h1, (fresh (dom h1)). eexists.
  split; [by apply Hstep|]. split; [done|].
  split; [apply (Hstep h1 r1 _ (1 - n)%Z Hr1), lookup_insert_eq|].
  pose proof (fresh_ne h ex d Hex) as Hne1.
  pose proof (fresh_ne h1 r1 _ Hr1) as Hne2.
  assert (h1 !! ex = Some d) as Hex1.
  { unfold h1. by rewrite lookup_insert_ne. }
  pose proof (fresh_ne h1 ex d Hex1) as Hne3.
  split.
  - rewrite lookup_insert_eq. f_equal. rewrite insert_insert_eq.
    replace (1 - (1 - n))%Z with n by lia. by apply insert_id.
  - split; [by rewrite lookup_insert_ne|]. done.
Qed.

Lemma invert_labels_involution_witness :
  demo_store !! 0 = Some (rt_record "fine" 1) /\
  rt_record "fine" 1 !! "label" = Some (VInt 1) /\
  exists r1 h1 r2 h2,
    _invert_labels 0 demo_store = (Ok r1, h1) /\
    h1 !! r1 = Some (<["label" := VInt (1 - 1)]> (rt_record "fine" 1)) /\
    _invert_labels r1 h1 = (Ok r2, h2) /\
    h2 !! r2 = Some (rt_record "fine" 1) /\
    h2 !! 0 = Some (rt_record "fine" 1) /\ r1 <> 0 /\ r2 <> r1.
Proof.
  split; [reflexivity|]. split; [reflexivity|].
  exact (invert_labels_involution demo_store 0 _ 1 eq_refl eq_refl).
Defined.

(** X18: with its default mapping [{-1: 0, 1: 1}], [_map_labels]
    returns exactly for the labels -1 and 1, and the new dict then holds
    0 for -1 and 1 for 1; a record labelled 0, as the rotten tomatoes
    ones are, is rejected. *)
Theorem map_labels_default (h : store) ex d :
  h !! ex = Some d ->
  ((exists r h', _map_labels ex default_map_dict h = (Ok r, h')) <->
   (d !! "label" = Some (VInt (-1)) \/ d !! "label" = Some (VInt 1))) /\
  (forall r h', _map_labels ex default_map_dict h = (Ok r, h') ->
     h' !! ex = Some d /\
     exists n, d !! "label" = Some (VInt n) /\
       h' !! r = Some (<["label" := VInt (if (n =? 1)%Z then 1 else 0)]> d)) /\
  (d !! "label" = Some (VInt 0) ->
   exists h', _map_labels ex default_map_dict h
              = (Err (KeyError (VInt 0)), h')).
Proof.
  intros Hex. pose proof (fresh_ne h ex d Hex) as Hne.
  unfold _map_labels, dict_copy, dict_get, dict_set, bind, deref, lift, ret,
    getitem, mapping_get.
  rewrite Hex, lookup_insert_eq.
  destruct (d !! "label") as [[s|n|l|m]|] eqn:Hlabel; simpl.
  2: { destruct (default_map_dict !! n) as [w|] eqn:Hn.
       - assert ((n = -1 /\ w = VInt 0) \/ (n = 1 /\ w = VInt 1))%Z
           as Hcases.
         { unfold default_map_dict in Hn.
           destruct (decide (n = -1)%Z) as [->|Hn1].
           - left. rewrite lookup_insert_eq in Hn. by injection Hn as <-.
           - rewrite lookup_insert_ne in Hn by done.
             destruct (decide (n = 1)%Z) as [->|Hn2].
             + right. rewrite lookup_singleton_eq in Hn.
               by injection Hn as <-.
             + by rewrite lookup_singleton_ne in Hn. }
         rewrite lookup_insert_eq. split; [|split].
         + split; [intros _ | by eexists _, _].
           destruct Hcases as [[-> _]|[-> _]]; auto.
         + intros r h' [= <- <-]. split; [by rewrite !lookup_insert_ne|].
           exists n. split; [done|].
           rewrite lookup_insert_eq.
           by destruct Hcases as [[-> ->]|[-> ->]].
         + intros [= ->]. by destruct Hcases as [[? _]|[? _]].
       - split; [|split].
         + split; [by intros (r & h' & [=]) |].
           intros [[= ->]|[= ->]]; by vm_compute in Hn.
         + by intros r h' [=].
         + intros [= ->]. by eexists. }
  all: split; [|split]; [|by intros r h' [=] | done].
  all: split; [by intros (r & h' & [=]) | by intros [[=]|[=]]].
Qed.

Lemma map_labels_default_witness :
  demo_store !! 0 = Some (rt_record "fine" 1) /\
  ((exists r h', _map_labels 0 default_map_dict demo_store = (Ok r, h')) <->
   (rt_record "fine" 1 !! "label" = Some (VInt (-1)) \/
    rt_record "fine" 1 !! "label" = Some (VInt 1))) /\
  (forall r h', _map_labels 0 default_map_dict demo_store = (Ok r, h') ->
     h' !! 0 = Some (rt_record "fine" 1) /\
     exists n, rt_record "fine" 1 !! "label" = Some (VInt n) /\
       h' !! r = Some (<["label" := VInt (if (n =? 1)%Z then 1 else 0)]>
                         (rt_record "fine" 1))) /\
  (rt_record "fine" 1 !! "label" = Some (VInt 0) ->
   exists h', _map_labels 0 default_map_dict demo_store
              = (Err (KeyError (VInt 0)), h')).
Proof.
  split; [reflexivity|].
  exact (map_labels_default demo_store 0 _ eq_refl).
Defined.

End TransformLaws.

(** ** The record loaders *)

Module LoadingFacts.
Import Transforms Loading.

(** Running a bind whose first part is known. *)
Lemma bind_run_Ok {A B : Type} (m : M A) (k : A -> M B) (h h' : store) a :
  m h = (Ok a, h') -> bind m k h = k a h'.
Proof. intros Hm. unfold bind. by rewrite Hm. Qed.

Lemma bind_run_Err {A B : Type} (m : M A) (k : A -> M B) (h h' : store) e :
  m h = (Err e, h') -> bind m k h = (Err e, h').
Proof. intros Hm. unfold bind. by rewrite Hm. Qed.

Ltac run_ok H := rewrite (bind_run_Ok _ _ _ _ _ H); cbn beta zeta.
Ltac run_err H := rewrite (bind_run_Err _ _ _ _ _ H).

Lemma for_each_M_cons {A B : Type} (f : A -> M B) x xs :
  for_each_M f (x :: xs)
  = bind (f x) (fun y => bind (for_each_M f xs) (fun ys => ret (y :: ys))).
Proof. reflexivity. Qed.

Lemma for_each_M_length {A B : Type} (f : A -> M B) xs (h h' : store) ys :
  for_each_M f xs h = (Ok ys, h') -> length ys = length xs.
Proof.
  revert h ys. induction xs as [|x xs IH]; intros h ys.
  - by intros [= <- _].
  - rewrite for_each_M_cons.
    destruct (f x h) as [[y|e] h1] eqn:Ex; [run_ok Ex | by run_err Ex].
    destruct (for_each_M f xs h1) as [[ys'|e] h2] eqn:E;
      [run_ok E | by run_err E].
    intros [= <- <-]. simpl. f_equal. by eapply IH.
Qed.

(** Comprehensions with the same body, one after the other, are one
    comprehension over the lists in a row. *)
Lemma for_each_M_app {A B : Type} (f : A -> M B) xs ys (h : store) :
  for_each_M f (xs ++ ys) h
  = bind (for_each_M f xs)
      (fun a => bind (for_each_M f ys) (fun b => ret (a ++ b))) h.
Proof.
  revert h. induction xs as [|x xs IH]; intros h.
  - simpl. unfold bind at 1, ret at 1. unfold bind.
    by destruct (for_each_M f ys h) as [[b|e] h1].
  - change ((x :: xs) ++ ys) with (x :: (xs ++ ys)).
    rewrite !for_each_M_cons.
    destruct (f x h) as [[y|e] h1] eqn:Ex.
    2: { run_err Ex. symmetry. apply bind_run_Err. by run_err Ex. }
    run_ok Ex.
    assert (forall {C : Type} (k : list B -> M C),
      bind (bind (f x) (fun y0 => bind (for_each_M f xs)
                                    (fun ys0 => ret (y0 :: ys0)))) k h
      = bind (for_each_M f xs) (fun ys0 => k (y :: ys0)) h1) as Hassoc.
    { intros C k. unfold bind at 1 2. rewrite Ex. unfold bind, ret.
      by destruct (for_each_M f xs h1) as [[a|e] h2]. }
    rewrite Hassoc. unfold bind at 1. rewrite IH. unfold bind, ret.
    destruct (for_each_M f xs h1) as [[a|e] h2]; [|done].
    by destruct (for_each_M f ys h2) as [[b|e] h3].
Qed.

Lemma three_comprehensions {A B C : Type} (f : A -> M B)
    (k : list B -> list B -> list B -> M C) t v e (h : store) :
  bind (for_each_M f t)
    (fun a => bind (for_each_M f v)
       (fun b => bind (for_each_M f e) (fun c => k a b c))) h
  = bind (for_each_M f (t ++ v ++ e))
      (fun r => k (take (length t) r)
                  (take (length v) (drop (length t) r))
                  (drop (length t + length v) r)) h.
Proof.
  destruct (for_each_M f t h) as [[a|err] h1] eqn:Et.
  2: { run_err Et. symmetry. apply bind_run_Err.
       rewrite for_each_M_app. by run_err Et. }
  run_ok Et.
  destruct (for_each_M f v h1) as [[b|err] h2] eqn:Ev.
  2: { run_err Ev. symmetry. apply bind_run_Err.
       rewrite for_each_M_app. run_ok Et. apply bind_run_Err.
       rewrite for_each_M_app. by run_err Ev. }
  run_ok Ev.
  destruct (for_each_M f e h2) as [[c|err] h3] eqn:Ee.
  2: { run_err Ee. symmetry. apply bind_run_Err.
       rewrite for_each_M_app. run_ok Et. apply bind_run_Err.
       rewrite for_each_M_app. run_ok Ev. by run_err Ee. }
  run_ok Ee.
  assert (for_each_M f (t ++ v ++ e) h = (Ok (a ++ b ++ c), h3)) as Hall.
  { rewrite for_each_M_app. run_ok Et.
    assert (for_each_M f (v ++ e) h1 = (Ok (b ++ c), h3)) as Hve.
    { rewrite for_each_M_app. run_ok Ev. by run_ok Ee. }
    by run_ok Hve. }
  run_ok Hall.
  pose proof (for_each_M_length _ _ _ _ _ Et) as <-.
  pose proof (for_each_M_length _ _ _ _ _ Ev) as <-.
  rewrite take_app_length, drop_app_length, take_app_length.
  rewrite <- length_app, (assoc_L (++)), drop_app_length. done.
Qed.

(** Cutting a list in three and putting the pieces in a row. *)
Lemma three_pieces {A : Type} (a b : nat) (r : list A) :
  take a r ++ take b (drop a r) ++ drop (a + b) r = r.
Proof.
  rewrite <- (drop_drop r b a), take_drop. apply take_drop.
Qed.

Lemma points_to_mono (h h' : store) rs ds :
  h ⊆ h' -> points_to h rs ds -> points_to h' rs ds.
Proof.
  intros Hsub Hp. eapply Forall2_impl; [exact Hp|].
  intros r d Hr. exact (lookup_weaken _ _ _ _ Hr Hsub).
Qed.

Lemma points_to_slice (h : store) lim rs ds :
  points_to h rs ds -> points_to h (slice_to lim rs) (slice_to lim ds).
Proof.
  intros Hp. destruct lim as [n|]; simpl; [|done].
  rewrite (Forall2_length _ _ _ Hp). by apply Forall2_take.
Qed.

(** [list(...)] over a split: new dicts holding the rows. *)
Lemma list_rows_run rows (h : store) :
  exists rs h',
    list_rows rows h = (Ok rs, h') /\ h ⊆ h' /\ points_to h' rs rows.
Proof.
  revert h. induction rows as [|d rows IH]; intros h.
  - exists [], h. split; [done|]. split; [done | constructor].
  - unfold list_rows. rewrite for_each_M_cons.
    assert (new_dict d h = (Ok (fresh (dom h)), <[fresh (dom h) := d]> h))
      as Hd by done.
    run_ok Hd.
    destruct (IH (<[fresh (dom h) := d]> h)) as (rs & h' & Hrun & Hsub & Hp).
    unfold list_rows in Hrun. run_ok Hrun.
    exists (fresh (dom h) :: rs), h'. split; [done|]. split.
    + transitivity (<[fresh (dom h) := d]> h); [|done].
      apply insert_subseteq, TransformLaws.fresh_None.
    + constructor; [|done].
      eapply lookup_weaken; [|exact Hsub]. apply lookup_insert_eq.
Qed.

Lemma points_to_insert_notin (h : store) r x rs ds :
  r ∉ rs -> points_to h rs ds -> points_to (<[r := x]> h) rs ds.
Proof.
  intros Hr Hp. induction Hp as [|r' d rs ds Hr' Hp IH]; constructor.
  - apply not_elem_of_cons in Hr as [Hne _].
    by rewrite lookup_insert_ne.
  - apply IH. by apply not_elem_of_cons in Hr as [_ ?].
Qed.

Lemma mapM_cons {A B : Type} (g : A -> option B) x xs :
  mapM g (x :: xs)
  = match g x with
    | Some y => match mapM g xs with
                | Some ys => Some (y :: ys)
                | None => None
                end
    | None => None
    end.
Proof.
  simpl. destruct (g x); simpl; [|done]. by destruct (mapM g xs).
Qed.

Lemma option_bind_Some {A B : Type} (x : A) (f : A -> option B) :
  Some x ≫= f = f x.
Proof. reflexivity. Qed.

Lemma mapM_compose {A B C : Type} (f : A -> option B) (g : B -> option C) l :
  mapM (fun x => f x ≫= g) l = mapM f l ≫= mapM g.
Proof.
  induction l as [|x l IH]; [done|].
  rewrite (mapM_cons (fun x => f x ≫= g)), (mapM_cons f), IH.
  destruct (f x) as [y|]; [|done].
  change (Some y ≫= g) with (g y).
  destruct (mapM f l) as [ys|].
  - change (Some (y :: ys) ≫= mapM g) with (mapM g (y :: ys)).
    rewrite mapM_cons.
    by change (Some ys ≫= mapM g) with (mapM g ys).
  - change (None ≫= mapM g) with (@None (list C)). by destruct (g y).
Qed.

(** A comprehension whose body copies. *)
Lemma for_each_M_copying f g err :
  copying f g err ->
  forall rs ds (h : store), points_to h rs ds ->
    match mapM g ds with
    | Some ds' =>
        exists rs' h',
          for_each_M f rs h = (Ok rs', h') /\ h ⊆ h' /\
          points_to h' rs' ds' /\ NoDup rs' /\
          Forall (fun r => h !! r = None) rs'
    | None =>
        exists h', for_each_M f rs h = (Err err, h') /\ h ⊆ h'
    end.
Proof.
  intros Hf rs. induction rs as [|r rs IH]; intros ds h Hp.
  - apply Forall2_nil_inv_l in Hp as ->. exists [], h.
    split; [done|]. split; [done|]. split; [constructor|].
    split; constructor.
  - apply Forall2_cons_inv_l in Hp as (d & ds' & Hr & Hp & ->).
    rewrite mapM_cons, for_each_M_cons.
    pose proof (Hf h r d Hr) as Hstep.
    pose proof (TransformLaws.fresh_None h) as Hfresh.
    destruct (g d) as [d'|].
    2: { run_err Hstep. eexists. split; [done|]. by apply insert_subseteq. }
    run_ok Hstep.
    set (new := fresh (dom h)) in *. set (h1 := <[new := d']> h).
    assert (h ⊆ h1) as Hsub1 by (by apply insert_subseteq).
    specialize (IH ds' h1 (points_to_mono _ _ _ _ Hsub1 Hp)).
    destruct (mapM g ds') as [ds''|].
    + destruct IH as (rs' & h' & Hrun & Hsub & Hp' & Hnd & Hnone).
      run_ok Hrun. exists (new :: rs'), h'. split; [done|].
      split; [by transitivity h1|].
      split.
      { constructor; [|done].
        eapply lookup_weaken; [|exact Hsub]. apply lookup_insert_eq. }
      split.
      * apply NoDup_cons. split; [|done]. intros Hin.
        rewrite Forall_forall in Hnone. specialize (Hnone new Hin).
        unfold h1 in Hnone. by rewrite lookup_insert_eq in Hnone.
      * constructor; [done|].
        eapply Forall_impl; [exact Hnone|]. intros r' Hr'.
        exact (lookup_weaken_None _ _ _ Hr' Hsub1).
    + destruct IH as (h' & Hrun & Hsub). run_err Hrun.
      exists h'. split; [done|]. by transitivity h1.
Qed.

(** A comprehension whose body updates in place, over distinct
    references. *)
Lemma for_each_M_updating f g :
  updating f g ->
  forall rs ds (h : store), points_to h rs ds -> NoDup rs ->
    match mapM g ds with
    | Some ds' =>
        exists h',
          for_each_M f rs h = (Ok rs, h') /\ points_to h' rs ds' /\
          forall r, r ∉ rs -> h' !! r = h !! r
    | None =>
        exists e h',
          for_each_M f rs h = (Err e, h') /\
          forall r, r ∉ rs -> h' !! r = h !! r
    end.
Proof.
  intros Hf rs. induction rs as [|r rs IH]; intros ds h Hp Hnd.
  - apply Forall2_nil_inv_l in Hp as ->. exists h.
    split; [done|]. split; [constructor | done].
  - apply Forall2_cons_inv_l in Hp as (d & ds' & Hr & Hp & ->).
    apply NoDup_cons in Hnd as [Hnotin Hnd].
    rewrite mapM_cons, for_each_M_cons.
    pose proof (Hf h r d Hr) as Hstep.
    destruct (g d) as [d'|].
    2: { destruct Hstep as [e Hstep]. run_err Hstep. by exists e, h. }
    run_ok Hstep. set (h1 := <[r := d']> h).
    specialize (IH ds' h1 (points_to_insert_notin _ _ _ _ _ Hnotin Hp) Hnd).
    assert (forall r', r' ∉ r :: rs -> h1 !! r' = h !! r') as Hout1.
    { intros r' [Hne _]%not_elem_of_cons. unfold h1.
      by rewrite lookup_insert_ne. }
    destruct (mapM g ds') as [ds''|].
    + destruct IH as (h' & Hrun & Hp' & Hout). run_ok Hrun.
      exists h'. split; [done|]. split.
      * constructor; [|done]. rewrite (Hout r Hnotin).
        apply lookup_insert_eq.
      * intros r' Hr'. rewrite <- (Hout1 r' Hr'). apply Hout.
        by apply not_elem_of_cons in Hr' as [_ ?].
    + destruct IH as (e & h' & Hrun & Hout). run_err Hrun.
      exists e, h'. split; [done|].
      intros r' Hr'. rewrite <- (Hout1 r' Hr'). apply Hout.
      by apply not_elem_of_cons in Hr' as [_ ?].
Qed.

Lemma change_key_copying old_key new_key :
  copying (fun t => change_key t old_key new_key) (rename old_key new_key)
    (KeyError (VStr old_key)).
Proof.
  intros h r d Hr. unfold rename.
  destruct (d !! old_key) as [v|] eqn:Hold; simpl.
  - by apply TransformLaws.change_key_Ok.
  - by apply TransformLaws.change_key_Err.
Qed.

Lemma content_map_updating :
  updating (fun t => content_map t "Sentiment" sentiment_mapping) name_label.
Proof.
  intros h r d Hr. unfold name_label.
  destruct (d !! "Sentiment") as [v|] eqn:Hv; simpl.
  2: { eexists. unfold content_map, dict_get, dict_set, bind, deref, lift,
         ret, getitem, mapping_get. by rewrite Hr, Hv. }
  destruct v as [s|n|l|m].
  2: { destruct (sentiment_mapping !! n) as [w|] eqn:Hn; simpl.
       - by apply TransformLaws.content_map_Ok with (n := n).
       - eexists. unfold content_map, dict_get, dict_set, bind, deref, lift,
           ret, getitem, mapping_get. by rewrite Hr, Hv, Hn. }
  all: eexists; unfold content_map, dict_get, dict_set, bind, deref, lift,
         ret, getitem, mapping_get; by rewrite Hr, Hv.
Qed.

Lemma sentiment_mapping_lookup n w :
  sentiment_mapping !! n = Some w <->
  (n = 0 \/ n = 1)%Z /\
  w = VStr (if (n =? 1)%Z then "positive" else "negative").
Proof.
  unfold sentiment_mapping.
  destruct (decide (n = 0)%Z) as [->|H0].
  { rewrite lookup_insert_eq. split.
    - intros [= <-]. split; [by left | done].
    - by intros [_ ->]. }
  rewrite lookup_insert_ne by done.
  destruct (decide (n = 1)%Z) as [->|H1].
  { rewrite lookup_singleton_eq. split.
    - intros [= <-]. split; [by right | done].
    - by intros [_ ->]. }
  rewrite lookup_singleton_ne by done. split; [done|].
  intros [[?|?] _]; done.
Qed.

(** What [normalise] asks of a row and what it makes of it. *)
Lemma normalise_Some d o :
  normalise d = Some o <->
  exists t n,
    d !! "text" = Some t /\ d !! "label" = Some (VInt n) /\
    (n = 0 \/ n = 1)%Z /\
    o = <["Sentiment" :=
            VStr (if (n =? 1)%Z then "positive" else "negative")]>
          (delete "label" (<["Review" := t]> (delete "text" d))).
Proof.
  unfold normalise, rename, name_label. split.
  - destruct (d !! "text") as [t|] eqn:Ht; simpl; [|done].
    rewrite lookup_insert_ne, lookup_delete_ne by done.
    destruct (d !! "label") as [l|] eqn:Hl; simpl; [|done].
    rewrite lookup_insert_eq. simpl.
    destruct l as [s|n|l|m]; try done.
    destruct (sentiment_mapping !! n) as [w|] eqn:Hn; simpl; [|done].
    apply sentiment_mapping_lookup in Hn as [Hn ->].
    intros [= <-]. exists t, n. rewrite insert_insert_eq. done.
  - intros (t & n & -> & Hl & Hn & ->). simpl.
    rewrite lookup_insert_ne, lookup_delete_ne, Hl by done. simpl.
    rewrite lookup_insert_eq. simpl.
    assert (sentiment_mapping !! n
            = Some (VStr (if (n =? 1)%Z then "positive" else "negative")))
      as -> by (by apply sentiment_mapping_lookup).
    simpl. by rewrite insert_insert_eq.
Qed.

Lemma normalise_stages rows rows1 rows2 rows3 :
  mapM (rename "text" "Review") rows = Some rows1 ->
  mapM (rename "label" "Sentiment") rows1 = Some rows2 ->
  mapM name_label rows2 = Some rows3 ->
  mapM normalise rows = Some rows3.
Proof.
  intros H1 H2 H3.
  change (mapM normalise rows) with
    (mapM (fun d => rename "text" "Review" d
                    ≫= (fun d => rename "label" "Sentiment" d ≫= name_label))
       rows).
  rewrite mapM_compose, H1, option_bind_Some, mapM_compose, H2.
  by rewrite option_bind_Some.
Qed.

Lemma normalise_first_stage rows :
  Forall (fun d => is_Some (normalise d)) rows ->
  exists rows1 rows2 rows3,
    mapM (rename "text" "Review") rows = Some rows1 /\
    mapM (rename "label" "Sentiment") rows1 = Some rows2 /\
    mapM name_label rows2 = Some rows3 /\
    mapM normalise rows = Some rows3.
Proof.
  intros Hall. apply mapM_is_Some_2 in Hall as [rows3 H3].
  pose proof H3 as Hn.
  change (mapM normalise rows) with
    (mapM (fun d => rename "text" "Review" d
                    ≫= (fun d => rename "label" "Sentiment" d ≫= name_label))
       rows) in H3.
  rewrite mapM_compose in H3.
  destruct (mapM (rename "text" "Review") rows) as [rows1|] eqn:H1; [|done].
  rewrite option_bind_Some, mapM_compose in H3.
  destruct (mapM (rename "label" "Sentiment") rows1) as [rows2|] eqn:H2;
    [|done].
  rewrite option_bind_Some in H3. by exists rows1, rows2, rows3.
Qed.

(** [_load_rotten_tomatoes], stage by stage. *)
Lemma _load_rotten_tomatoes_run load_dataset dd lim (h : store) :
  load_dataset "rotten_tomatoes" = Ok dd ->
  let rows := slice_to lim (dd_train dd) ++ slice_to lim (dd_validation dd)
              ++ slice_to lim (dd_test dd) in
  match mapM (rename "text" "Review") rows with
  | None =>
      exists h',
        _load_rotten_tomatoes load_dataset lim h
        = (Err (KeyError (VStr "text")), h') /\ h ⊆ h'
  | Some rows1 =>
      match mapM (rename "label" "Sentiment") rows1 with
      | None =>
          exists h',
            _load_rotten_tomatoes load_dataset lim h
            = (Err (KeyError (VStr "label")), h') /\ h ⊆ h'
      | Some rows2 =>
          match mapM name_label rows2 with
          | None =>
              exists e h',
                _load_rotten_tomatoes load_dataset lim h = (Err e, h') /\
                h ⊆ h'
          | Some rows3 =>
              exists train val test h',
                _load_rotten_tomatoes load_dataset lim h
                = (Ok (train, val, test), h') /\ h ⊆ h' /\
                points_to h' (train ++ val ++ test) rows3 /\
                length train = length (slice_to lim (dd_train dd)) /\
                length val = length (slice_to lim (dd_validation dd))
          end
      end
  end.
Proof.
  intros Hload rows. unfold _load_rotten_tomatoes.
  assert (lift (load_dataset "rotten_tomatoes") h = (Ok dd, h)) as Hl.
  { unfold lift. by rewrite Hload. }
  run_ok Hl.
  destruct (list_rows_run (dd_train dd) h) as (a_tr & h1 & Htr & Hs1 & Hp_tr).
  run_ok Htr.
  destruct (list_rows_run (dd_validation dd) h1)
    as (a_va & h2 & Hva & Hs2 & Hp_va).
  run_ok Hva.
  destruct (list_rows_run (dd_test dd) h2) as (a_te & h3 & Hte & Hs3 & Hp_te).
  run_ok Hte.
  assert (h ⊆ h3) as Hsub3 by (transitivity h1; [done|by transitivity h2]).
  assert (points_to h3
            (slice_to lim a_tr ++ slice_to lim a_va ++ slice_to lim a_te)
            rows) as Hp0.
  { unfold rows, points_to. repeat apply Forall2_app.
    - apply points_to_slice. eapply points_to_mono; [|exact Hp_tr].
      by transitivity h2.
    - apply points_to_slice. exact (points_to_mono _ _ _ _ Hs3 Hp_va).
    - by apply points_to_slice. }
  assert (length (slice_to lim a_tr) = length (slice_to lim (dd_train dd)))
    as Hlen_tr.
  { eapply Forall2_length, points_to_slice, Hp_tr. }
  assert (length (slice_to lim a_va)
          = length (slice_to lim (dd_validation dd))) as Hlen_va.
  { eapply Forall2_length, points_to_slice, Hp_va. }
  set (T0 := slice_to lim a_tr) in *. clearbody T0.
  set (V0 := slice_to lim a_va) in *. clearbody V0.
  set (E0 := slice_to lim a_te) in *. clearbody E0.
  rewrite three_comprehensions.
  pose proof (for_each_M_copying _ _ _ (change_key_copying "text" "Review")
                _ _ _ Hp0) as H1.
  destruct (mapM (rename "text" "Review") rows) as [rows1|].
  2: { destruct H1 as (h' & Hrun & Hsub). run_err Hrun.
       exists h'. split; [done | by transitivity h3]. }
  destruct H1 as (R1 & h4 & Hrun1 & Hs4 & Hp1 & _ & _). run_ok Hrun1.
  pose proof (for_each_M_length _ _ _ _ _ Hrun1) as HlR1.
  rewrite three_comprehensions, three_pieces.
  pose proof (for_each_M_copying _ _ _
                (change_key_copying "label" "Sentiment") _ _ _ Hp1) as H2.
  destruct (mapM (rename "label" "Sentiment") rows1) as [rows2|].
  2: { destruct H2 as (h' & Hrun & Hsub). run_err Hrun.
       exists h'. split; [done|].
       transitivity h3; [done | by transitivity h4]. }
  destruct H2 as (R2 & h5 & Hrun2 & Hs5 & Hp2 & Hnd & Hnone). run_ok Hrun2.
  pose proof (for_each_M_length _ _ _ _ _ Hrun2) as HlR2.
  rewrite three_comprehensions, three_pieces.
  pose proof (for_each_M_updating _ _ content_map_updating _ _ _ Hp2 Hnd)
    as H3.
  assert (forall h6 : store,
            (forall r, r ∉ R2 -> h6 !! r = h5 !! r) -> h ⊆ h6) as Hframe.
  { intros h6 Hout. apply map_subseteq_spec. intros r x Hr.
    assert (h4 !! r = Some x) as Hr4.
    { eapply lookup_weaken; [exact Hr|]. by transitivity h3. }
    rewrite Hout; [by eapply lookup_weaken|].
    intros Hin. rewrite Forall_forall in Hnone.
    rewrite (Hnone r Hin) in Hr4. done. }
  destruct (mapM name_label rows2) as [rows3|].
  2: { destruct H3 as (e & h' & Hrun & Hout). run_err Hrun.
       exists e, h'. split; [done | by apply Hframe]. }
  destruct H3 as (h6 & Hrun3 & Hp3 & Hout). run_ok Hrun3.
  unfold ret. eexists _, _, _, h6. split; [reflexivity|].
  split; [by apply Hframe|].
  split; [by rewrite three_pieces|].
  rewrite !length_take, !length_drop, HlR2, HlR1, !length_app. lia.
Qed.

Lemma Forall2_through {A B C : Type} (P : A -> C -> Prop)
    (Q : B -> C -> Prop) xs ys zs :
  Forall2 P xs zs -> Forall2 Q ys zs ->
  Forall2 (fun x y => exists z, Q y z /\ P x z) xs ys.
Proof.
  intros HP. revert ys. induction HP as [|x z xs zs Hxz HP IH]; intros ys HQ.
  - apply Forall2_nil_inv_r in HQ as ->. constructor.
  - apply Forall2_cons_inv_r in HQ as (y & ys' & Hyz & HQ & ->).
    constructor; [by exists z | by apply IH].
Qed.

Lemma rt_row_normalise d : rt_row d <-> is_Some (normalise d).
Proof.
  split.
  - intros (t & n & Ht & Hl & Hn). eexists. apply normalise_Some.
    by exists t, n.
  - intros [o (t & n & Ht & Hl & Hn & _)%normalise_Some]. by exists t, n.
Qed.

Lemma rt_record_row text n : (n = 0 \/ n = 1)%Z -> rt_row (rt_record text n).
Proof.
  intros Hn. exists (VStr text), n. unfold rt_record.
  split; [apply lookup_insert_eq|]. split; [|done].
  rewrite lookup_insert_ne by done. apply lookup_singleton_eq.
Qed.

(** X19: when every row that survives the [lim] slice has a text and a
    label 0 or 1, [_load_rotten_tomatoes] returns three lists of new
    dicts, one per surviving row and in row order, each holding the text
    under ["Review"] and the name of the label under ["Sentiment"] in
    place of ["text"] and ["label"]; every dict the store held before
    the call is as it was. *)
Theorem load_rotten_tomatoes_returns load_dataset dd lim (h : store) :
  load_dataset "rotten_tomatoes" = Ok dd ->
  Forall rt_row (slice_to lim (dd_train dd)) ->
  Forall rt_row (slice_to lim (dd_validation dd)) ->
  Forall rt_row (slice_to lim (dd_test dd)) ->
  exists train val test h',
    _load_rotten_tomatoes load_dataset lim h = (Ok (train, val, test), h') /\
    h ⊆ h' /\
    Forall2 (normalised h') train (slice_to lim (dd_train dd)) /\
    Forall2 (normalised h') val (slice_to lim (dd_validation dd)) /\
    Forall2 (normalised h') test (slice_to lim (dd_test dd)).
Proof.
  intros Hload Htr Hva Hte.
  pose proof (_load_rotten_tomatoes_run load_dataset dd lim h Hload) as Hrun.
  cbn zeta in Hrun.
  destruct (normalise_first_stage
              (slice_to lim (dd_train dd) ++ slice_to lim (dd_validation dd)
               ++ slice_to lim (dd_test dd)))
    as (rows1 & rows2 & rows3 & H1 & H2 & H3 & Hn).
  { rewrite !Forall_app. repeat split;
      (eapply Forall_impl; [eassumption|]); intros d;
      apply rt_row_normalise. }
  rewrite H1, H2, H3 in Hrun.
  destruct Hrun as (train & val & test & h' & Hrun & Hsub & Hp & Hlt & Hlv).
  exists train, val, test, h'. split; [done|]. split; [done|].
  apply mapM_Some in Hn.
  pose proof (Forall2_through _ _ _ _ _ Hp Hn) as Hall.
  apply Forall2_app_inv in Hall as [Ht Hrest]; [|done].
  apply Forall2_app_inv in Hrest as [Hv He]; [|done].
  repeat split;
    (eapply Forall2_impl; [eassumption|]); intros r d (o & Ho & Hr);
    apply normalise_Some in Ho as (t & n & ? & ? & ? & ->); by exists t, n.
Qed.

Lemma load_rotten_tomatoes_returns_witness :
  demo_hub "rotten_tomatoes" = Ok demo_rt_splits /\
  Forall rt_row (slice_to (Some 2%Z) (dd_train demo_rt_splits)) /\
  Forall rt_row (slice_to (Some 2%Z) (dd_validation demo_rt_splits)) /\
  Forall rt_row (slice_to (Some 2%Z) (dd_test demo_rt_splits)) /\
  exists train val test h',
    _load_rotten_tomatoes demo_hub (Some 2%Z) (∅ : store)
    = (Ok (train, val, test), h') /\
    (∅ : store) ⊆ h' /\
    Forall2 (normalised h') train
      (slice_to (Some 2%Z) (dd_train demo_rt_splits)) /\
    Forall2 (normalised h') val
      (slice_to (Some 2%Z) (dd_validation demo_rt_splits)) /\
    Forall2 (normalised h') test
      (slice_to (Some 2%Z) (dd_test demo_rt_splits)).
Proof.
  assert (demo_hub "rotten_tomatoes" = Ok demo_rt_splits) as Hload
    by reflexivity.
  assert (Forall rt_row (slice_to (Some 2%Z) (dd_train demo_rt_splits)))
    as Htr.
  { change (Forall rt_row [rt_record "fine" 1; rt_record "dull" 0]).
    repeat constructor; apply rt_record_row; auto. }
  assert (Forall rt_row (slice_to (Some 2%Z) (dd_validation demo_rt_splits)))
    as Hva by constructor.
  assert (Forall rt_row (slice_to (Some 2%Z) (dd_test demo_rt_splits)))
    as Hte.
  { change (Forall rt_row [rt_record "slow" 0; rt_record "bright" 1]).
    repeat constructor; apply rt_record_row; auto. }
  exact (conj Hload (conj Htr (conj Hva (conj Hte
           (load_rotten_tomatoes_returns demo_hub demo_rt_splits
              (Some 2%Z) ∅ Hload Htr Hva Hte))))).
Defined.

(** X20: when a row that survives the [lim] slice, in any of the three
    splits, lacks the text or the label or has a label other than 0 and
    1, [_load_rotten_tomatoes] raises and returns nothing; a row without
    ["text"] makes it [KeyError] of ["text"], whatever the other rows
    are like.  Every dict the store held before the call is as it
    was. *)
Theorem load_rotten_tomatoes_rejects load_dataset dd lim (h : store) d :
  load_dataset "rotten_tomatoes" = Ok dd ->
  d ∈ slice_to lim (dd_train dd) ++ slice_to lim (dd_validation dd)
      ++ slice_to lim (dd_test dd) ->
  ~ rt_row d ->
  exists e h',
    _load_rotten_tomatoes load_dataset lim h = (Err e, h') /\ h ⊆ h' /\
    (d !! "text" = None -> e = KeyError (VStr "text")).
Proof.
  intros Hload Hin Hbad.
  pose proof (_load_rotten_tomatoes_run load_dataset dd lim h Hload) as Hrun.
  cbn zeta in Hrun.
  apply list_elem_of_lookup in Hin as [i Hi].
  destruct (mapM (rename "text" "Review") _) as [rows1|] eqn:H1.
  2: { destruct Hrun as (h' & Hrun & Hsub).
       by exists (KeyError (VStr "text")), h'. }
  assert (d !! "text" <> None) as Htext.
  { apply mapM_Some in H1.
    destruct (Forall2_lookup_l _ _ _ _ _ H1 Hi) as (y & _ & Hy).
    unfold rename in Hy. intros Hnone. by rewrite Hnone in Hy. }
  destruct (mapM (rename "label" "Sentiment") rows1) as [rows2|] eqn:H2.
  2: { destruct Hrun as (h' & Hrun & Hsub). by eexists _, h'. }
  destruct (mapM name_label rows2) as [rows3|] eqn:H3.
  2: { destruct Hrun as (e & h' & Hrun & Hsub). by exists e, h'. }
  exfalso. apply Hbad.
  pose proof (normalise_stages _ _ _ _ H1 H2 H3) as Hn.
  apply mapM_Some in Hn.
  destruct (Forall2_lookup_l _ _ _ _ _ Hn Hi) as (y & _ & Hy).
  apply rt_row_normalise. by exists y.
Qed.

Lemma load_rotten_tomatoes_rejects_witness :
  unlabelled_hub "rotten_tomatoes" = Ok unlabelled_splits /\
  ({[ "text" := VStr "odd" ]} : gmap string value)
    ∈ slice_to None (dd_train unlabelled_splits)
      ++ slice_to None (dd_validation unlabelled_splits)
      ++ slice_to None (dd_test unlabelled_splits) /\
  ~ rt_row {[ "text" := VStr "odd" ]} /\
  exists e h',
    _load_rotten_tomatoes unlabelled_hub None (∅ : store) = (Err e, h') /\
    (∅ : store) ⊆ h' /\
    (({[ "text" := VStr "odd" ]} : gmap string value) !! "text" = None ->
     e = KeyError (VStr "text")).
Proof.
  assert (unlabelled_hub "rotten_tomatoes" = Ok unlabelled_splits) as Hload
    by reflexivity.
  assert (({[ "text" := VStr "odd" ]} : gmap string value)
            ∈ slice_to None (dd_train unlabelled_splits)
              ++ slice_to None (dd_validation unlabelled_splits)
              ++ slice_to None (dd_test unlabelled_splits)) as Hin.
  { apply list_elem_of_further, list_elem_of_here. }
  assert (~ rt_row {[ "text" := VStr "odd" ]}) as Hbad.
  { intros (t & n & _ & Hl & _). by rewrite lookup_singleton_ne in Hl. }
  exact (conj Hload (conj Hin (conj Hbad
           (load_rotten_tomatoes_rejects unlabelled_hub unlabelled_splits
              None ∅ _ Hload Hin Hbad)))).
Defined.

(** X21: [load_data] returns for no name and never calls a loader: the
    dict display it starts with names [_load_gigaword], which the module
    does not define, so the call raises [NameError] before the name it
    was given is looked up, also for ["rt"], and the store is as it
    was. *)
Theorem load_data_never_loads load_dataset data_name lim (h : store) :
  load_data load_dataset data_name lim h
  = (Err (NameError "_load_gigaword"), h).
Proof. reflexivity. Qed.

End LoadingFacts.

(** ** Splitting and sampling *)

(** X22: whatever the ratio, the two lists [_create_splits] returns
    are the shuffled examples cut in two: together they hold exactly the
    examples given, each as often as it was given, and when the scaled
    length lies within the list it is the length of the first list. *)
Theorem create_splits_partition `{PyRandom} {A : Type}
    (examples : list A) ratio split_1 split_2 :
  _create_splits examples ratio = Some (split_1, split_2) ->
  split_1 ++ split_2 ≡ₚ examples /\
  length split_1 + length split_2 = length examples /\
  exists n,
    int_of_product ratio (length examples) = Some n /\
    ((0 <= n <= Z.of_nat (length examples))%Z ->
     Z.of_nat (length split_1) = n) /\
    ((n < 0)%Z ->
     Z.of_nat (length split_1)
     = Z.max 0 (Z.of_nat (length examples) + n)).
Proof.
  unfold _create_splits.
  destruct (int_of_product ratio (length examples)) as [n|] eqn:Hn;
    [|done].
  rewrite LoadingFacts.option_bind_Some. cbn zeta. intros [= <- <-].
  pose proof (shuffled_Permutation A 1 examples) as Hperm.
  pose proof (Permutation_length Hperm) as Hlen.
  unfold Loading.slice_to, Loading.slice_from.
  split; [by rewrite take_drop|].
  split; [by rewrite <- length_app, take_drop|].
  exists n. split; [done|]. unfold Loading.slice_bound.
  rewrite length_take, Hlen.
  split; intros Hrange; destruct (Z.ltb_spec n 0); lia.
Qed.

Lemma create_splits_partition_witness :
  _create_splits [1; 2; 3; 4; 5] (80%Z : float) = Some ([5; 4; 3; 2], [1]) /\
  [5; 4; 3; 2] ++ [1] ≡ₚ [1; 2; 3; 4; 5] /\
  length [5; 4; 3; 2] + length [1] = length [1; 2; 3; 4; 5] /\
  exists n,
    int_of_product (80%Z : float) (length [1; 2; 3; 4; 5]) = Some n /\
    ((0 <= n <= Z.of_nat (length [1; 2; 3; 4; 5]))%Z ->
     Z.of_nat (length [5; 4; 3; 2]) = n) /\
    ((n < 0)%Z ->
     Z.of_nat (length [5; 4; 3; 2])
     = Z.max 0 (Z.of_nat (length [1; 2; 3; 4; 5]) + n)).
Proof.
  assert (_create_splits [1; 2; 3; 4; 5] (80%Z : float)
          = Some ([5; 4; 3; 2], [1])) as Hrun by reflexivity.
  exact (conj Hrun
           (create_splits_partition [1; 2; 3; 4; 5] (80%Z : float)
              [5; 4; 3; 2] [1] Hrun)).
Defined.

(** X23: [_rand_sample] reorders the list it is given: after the call,
    also one in which [int] raises, the caller's list is a rearrangement
    of what it was, and a returned sample is the start of the list as
    the call left it, hence drawn from the caller's items without
    repetition. *)
Theorem rand_sample_reorders `{PyRandom} {A : Type} (lst : list A) frac :
  snd (_rand_sample lst frac) ≡ₚ lst /\
  forall sample, fst (_rand_sample lst frac) = Some sample ->
    sample `prefix_of` snd (_rand_sample lst frac) /\ sample ⊆+ lst.
Proof.
  unfold _rand_sample. cbn [fst snd].
  pose proof (shuffled_Permutation A 4 lst) as Hperm.
  split; [done|]. intros sample.
  destruct (int_of_product frac (length (shuffled 4 lst))) as [n|];
    [|done].
  rewrite LoadingFacts.option_bind_Some. intros [= <-].
  split; [apply prefix_take|].
  transitivity (shuffled 4 lst);
    [apply submseteq_take | by apply Permutation_submseteq].
Qed.

(** ** The [dataset] property *)

(** X24: each adapter's [__init__] reads [self.dataset] two or three
    times and calls [load_dataset] exactly once, with the configuration
    ["3.0.0"] for cnn_dailymail and with the name alone for the others;
    what it assigns, and the error when it raises, are those of
    [DataLoader_init] over the hub that answers to these arguments. *)
Theorem dataset_loaded_once load_dataset d :
  let hub name := load_dataset name (snd (Lazy.load_arguments name)) in
  let run := Lazy.DataLoader_init load_dataset d Lazy.new_object in
  Lazy.calls (snd run)
  = [(dataset_name d,
      if decide (d = Dailymail) then Some "3.0.0" else None)] /\
  match DataLoader_init hub d with
  | Ok dl =>
      fst run = Ok (train dl, test dl) /\
      Lazy._dataset_field (snd run) = Some (_dataset dl)
  | Err e => fst run = Err e
  end.
Proof.
  intros hub run. unfold run, hub.
  destruct d;
    unfold DataLoader_init, Lazy.DataLoader_init, Lazy.bind,
      Lazy.dataset, Lazy.lift, Lazy.ret, Lazy.set_dataset, Lazy.new_object;
    cbn [dataset_name Lazy._dataset_field Lazy.calls];
    repeat match goal with
      | |- context [Lazy.load_arguments ?n] =>
          let v := eval vm_compute in (Lazy.load_arguments n) in
          change (Lazy.load_arguments n) with v
      end;
    cbn [snd];
    match goal with
    | |- context [load_dataset ?n ?c] =>
        destruct (load_dataset n c) as [dd|e]
    end;
    try (split; reflexivity).
  - simpl. destruct (dd_map _label_to_sentiment dd) as [dd'|e]; simpl;
      [|split; reflexivity].
    destruct (ds_map (_prompt RottenTomatoes) (dd_train dd')) as [tr|e];
      simpl; [|split; reflexivity].
    destruct (ds_map (_eval_prompt RottenTomatoes) (dd_test dd')) as [te|e];
      simpl; repeat split; reflexivity.
  - simpl.
    destruct (ds_map (_prompt Gigaword) (dd_train dd)) as [tr|e]; simpl;
      [|split; reflexivity].
    destruct (ds_map (_eval_prompt Gigaword) (dd_test dd)) as [te|e];
      simpl; repeat split; reflexivity.
  - simpl.
    destruct (ds_map (_prompt Dailymail) (dd_train dd)) as [tr|e]; simpl;
      [|split; reflexivity].
    destruct (ds_map (_eval_prompt Dailymail) (dd_test dd)) as [te|e];
      simpl; repeat split; reflexivity.
  - simpl.
    destruct (ds_map (_prompt Wikicat) (dd_train dd)) as [tr|e]; simpl;
      [|split; reflexivity].
    destruct (ds_map (_eval_prompt Wikicat) (dd_test dd)) as [te|e];
      simpl; repeat split; reflexivity.
  - simpl.
    destruct (ds_map (_prompt TweetQA) (dd_train dd)) as [tr|e]; simpl;
      [|split; reflexivity].
    destruct (ds_map (_eval_prompt TweetQA) (dd_test dd)) as [te|e];
      simpl; repeat split; reflexivity.
Qed.

